(** * A shallow embedding of [src/shallow/ga_decimal.py]

    The genetic-algorithm driver works on NumPy arrays that are shared and
    updated in place.  The embedding therefore keeps an explicit store of
    arrays ([heap]), addresses them by location, and runs every Python
    function as a computation in a small state-and-exception monad.  The
    element type of the arrays is abstract (a [DType]); where a proof needs
    the order on the elements it asks for a [DTypeOrder].  The exact integers
    [Z] are the instance used to run the functions on concrete inputs.  The
    program pins no NumPy version; the state records the release it runs
    on, and the two operations whose outcome depends on it consult it. *)

From stdpp Require Import gmap list.
From Stdlib Require Import ZArith Lia Sorted.

Set Default Proof Using "Type*".

(** ** Array elements *)

(** What the code needs from the element type of an array: a zero and an
    addition (for [np.sum] and the mutation), a product (for the fitness),
    the comparisons behind [np.max] and [==], and the conversion of a Python
    integer stored into the array. *)
Class DType (T : Type) := {
  d0 : T;
  dadd : T → T → T;
  dmul : T → T → T;
  dleb : T → T → bool;
  deqb : T → T → bool;
  of_int : Z → T
}.

(** The comparisons of a [DType] form a total preorder and [==] is the
    equivalence of that preorder; the conversion of integers is monotone.
    (IEEE comparisons satisfy this on every value but NaN.) *)
Class DTypeOrder (T : Type) `{DType T} : Prop := {
  dleb_total : ∀ x y : T, dleb x y = true ∨ dleb y x = true;
  dleb_trans : ∀ x y z : T, dleb x y = true → dleb y z = true → dleb x z = true;
  deqb_leb : ∀ x y : T, deqb x y = (dleb x y && dleb y x);
  of_int_mono : ∀ a b : Z, (a ≤ b)%Z → dleb (of_int a) (of_int b) = true
}.

#[export] Instance Z_dtype : DType Z := {|
  d0 := 0%Z;
  dadd := Z.add;
  dmul := Z.mul;
  dleb := Z.leb;
  deqb := Z.eqb;
  of_int := fun z => z
|}.

(** ** Exceptions, arrays and the store *)

Inductive exn :=
  IndexError | ValueError | ZeroDivisionError | TypeError | OverflowError.

Inductive result (A : Type) :=
  | Ok (a : A)
  | Raise (e : exn).
Arguments Ok {A} a.
Arguments Raise {A} e.

Definition loc := nat.

(** A one-dimensional array is its list of elements; a two-dimensional array
    of shape [(length rows, ncols)] is its list of rows.  The column count is
    kept apart from the rows, so that an array without rows still has a
    shape. *)
Inductive ndarray (T : Type) :=
  | Arr1 (data : list T)
  | Arr2 (ncols : nat) (rows : list (list T)).
Arguments Arr1 {T} data.
Arguments Arr2 {T} ncols rows.

(** The program pins no NumPy version, and the releases differ at two
    places it goes through.  [np.uint8] of a value above 255 keeps the low
    eight bits on NumPy 1 and raises [OverflowError] from NumPy 2.0 on.
    Assigning a one-element array where a single element is expected
    ([a[i, j] = v] with [v] of shape [(1,)]) stores the element up to
    NumPy 2.3 and raises [ValueError] from NumPy 2.4 on. *)
Inductive numpy_release := NumPy_1 | NumPy_2 | NumPy_2_4.

Definition uint8_wraps (v : numpy_release) : bool :=
  match v with NumPy_1 => true | NumPy_2 | NumPy_2_4 => false end.

Definition assigns_one_element (v : numpy_release) : bool :=
  match v with NumPy_1 | NumPy_2 => true | NumPy_2_4 => false end.

(** The machine state: the arrays alive, the number of draws made from the
    random generator so far, the generator (its [k]-th draw for the bounds
    asked), what a freshly allocated uninitialised array holds at each
    position, and the NumPy release the program runs on. *)
Record state (T : Type) := State {
  heap : gmap loc (ndarray T);
  rng_calls : nat;
  rng : nat → T → T → T;
  uninit : nat → nat → T;
  release : numpy_release
}.
Arguments State {T} heap rng_calls rng uninit release.
Arguments heap {T} s.
Arguments rng_calls {T} s.
Arguments rng {T} s.
Arguments uninit {T} s.
Arguments release {T} s.

Definition set_heap {T} (h : gmap loc (ndarray T)) (σ : state T) : state T :=
  State h (rng_calls σ) (rng σ) (uninit σ) (release σ).

Definition on_release {T} (v : numpy_release) (σ : state T) : state T :=
  State (heap σ) (rng_calls σ) (rng σ) (uninit σ) v.

(** ** The monad *)

Definition M (T A : Type) : Type := state T → result A * state T.

#[export] Instance M_ret {T} : MRet (M T) := λ A a σ, (Ok a, σ).

#[export] Instance M_bind {T} : MBind (M T) := λ A B k m σ,
  match m σ with
  | (Ok a, σ') => k a σ'
  | (Raise e, σ') => (Raise e, σ')
  end.

Definition raise {T A} (e : exn) : M T A := λ σ, (Raise e, σ).

(** [for idx in range(n): body idx]; a negative [n] gives no iteration. *)
Fixpoint for_each {T} (l : list nat) (body : nat → M T ()) : M T () :=
  match l with
  | [] => mret ()
  | i :: l' => body i ;; for_each l' body
  end.

Definition for_range {T} (n : Z) (body : nat → M T ()) : M T () :=
  for_each (seq 0 (Z.to_nat n)) body.

(** ** Python slices *)

(** The slice [l[lo:hi]] of a sequence; [hi = None] is the open slice
    [l[lo:]].  Python clamps both bounds to the length. *)
Definition slice_stop (hi : option nat) (n : nat) : nat :=
  match hi with
  | Some h => h `min` n
  | None => n
  end.

Definition py_slice {A} (lo : nat) (hi : option nat) (l : list A) : list A :=
  take (slice_stop hi (length l) - lo) (drop lo l).

(** The number of positions [lo:hi] selects in a sequence of length [n]. *)
Definition py_slice_len (lo : nat) (hi : option nat) (n : nat) : nat :=
  (lo `min` n) `max` slice_stop hi n - lo `min` n.

(** [l[lo:hi] = vals], with [vals] already of the slice's length. *)
Definition py_slice_set {A} (lo : nat) (hi : option nat) (l vals : list A) : list A :=
  let start := lo `min` length l in
  let stop := start `max` slice_stop hi (length l) in
  take start l ++ vals ++ drop stop l.

(** [i % k] on non-negative integers *)
Definition py_mod {T} (i k : nat) : M T nat :=
  if decide (k = 0) then raise ZeroDivisionError else mret (i `mod` k).

(** The release the program runs on. *)
Definition np_release {T} : M T numpy_release := λ σ, (Ok (release σ), σ).

(** [np.uint8(x)], for [x] a float without fraction: exact from 0 to 255;
    outside, the conversion keeps the low eight bits or raises, by the
    release. *)
Definition np_uint8 {T} (x : Z) : M T Z :=
  if decide (0 ≤ x < 256)%Z then mret x
  else
    v ← np_release;
    if uint8_wraps v then mret (x `mod` 256)%Z else raise OverflowError.

(** ** The NumPy operations the program uses *)

Section numpy.
Context {T : Type} `{DType T}.

(** Reading, writing and allocating in the store.  Python cannot name a
    location that holds no array; the model reports it as [TypeError]. *)
Definition load (a : loc) : M T (ndarray T) := λ σ,
  match heap σ !! a with
  | Some v => (Ok v, σ)
  | None => (Raise TypeError, σ)
  end.

Definition store (a : loc) (v : ndarray T) : M T () := λ σ,
  (Ok (), set_heap (<[a:=v]> (heap σ)) σ).

Definition alloc (v : ndarray T) : M T loc := λ σ,
  let l := fresh (dom (heap σ)) in
  (Ok l, set_heap (<[l:=v]> (heap σ)) σ).

(** What uninitialised memory holds, as [n] rows of [ncols] elements. *)
Definition uninit_rows (σ : state T) (n ncols : nat) : list (list T) :=
  map (λ i, map (uninit σ i) (seq 0 ncols)) (seq 0 n).

(** [np.empty(t_size)]: a new array whose contents are whatever the memory
    held; a negative dimension is refused. *)
Definition np_empty (t_size : Z * Z) : M T loc := λ σ,
  if decide (0 ≤ t_size.1 ∧ 0 ≤ t_size.2)%Z then
    alloc (Arr2 (Z.to_nat t_size.2)
             (uninit_rows σ (Z.to_nat t_size.1) (Z.to_nat t_size.2))) σ
  else raise ValueError σ.

(** [a.shape[0]] and [a.shape[1]]; a one-dimensional array has no second
    dimension. *)
Definition shape0 (a : loc) : M T nat :=
  v ← load a;
  match v with
  | Arr1 data => mret (length data)
  | Arr2 _ rows => mret (length rows)
  end.

Definition shape1 (a : loc) : M T nat :=
  v ← load a;
  match v with
  | Arr1 _ => raise IndexError
  | Arr2 ncols _ => mret ncols
  end.

(** Broadcasting a one-dimensional value to length [n]: the same length, or
    a single element repeated. *)
Definition broadcast {A} (n : nat) (vals : list A) : M T (list A) :=
  if decide (length vals = n) then mret vals
  else match vals with
       | [x] => mret (replicate n x)
       | _ => raise ValueError
       end.

(** [a[i, j]] *)
Definition getitem2 (a : loc) (i j : nat) : M T T :=
  v ← load a;
  match v with
  | Arr1 _ => raise IndexError
  | Arr2 ncols rows =>
      if decide (i < length rows ∧ j < ncols) then
        match rows !! i ≫= (.!! j) with
        | Some x => mret x
        | None => raise IndexError
        end
      else raise IndexError
  end.

(** [a[i, j] = vals], where [vals] is a one-dimensional array: the index
    is checked first; then NumPy refuses every length but one, and stores the
    element of a one-element array or refuses it too, by the release. *)
Definition setitem2 (a : loc) (i j : nat) (vals : list T) : M T () :=
  v ← load a;
  match v with
  | Arr1 _ => raise IndexError
  | Arr2 ncols rows =>
      if decide (i < length rows ∧ j < ncols) then
        match vals with
        | [x] =>
            np ← np_release;
            if assigns_one_element np
            then store a (Arr2 ncols (alter (<[j:=x]>) i rows))
            else raise ValueError
        | _ => raise ValueError
        end
      else raise IndexError
  end.

(** [a[i, lo:hi]] *)
Definition getitem_row_slice (a : loc) (i lo : nat) (hi : option nat) : M T (list T) :=
  v ← load a;
  match v with
  | Arr1 _ => raise IndexError
  | Arr2 _ rows =>
      match rows !! i with
      | Some r => mret (py_slice lo hi r)
      | None => raise IndexError
      end
  end.

(** [a[i, lo:hi] = vals] *)
Definition setitem_row_slice (a : loc) (i lo : nat) (hi : option nat)
    (vals : list T) : M T () :=
  v ← load a;
  match v with
  | Arr1 _ => raise IndexError
  | Arr2 ncols rows =>
      match rows !! i with
      | Some r =>
          vals' ← broadcast (py_slice_len lo hi (length r)) vals;
          store a (Arr2 ncols (<[i:=py_slice_set lo hi r vals']> rows))
      | None => raise IndexError
      end
  end.

(** Broadcasting the two-dimensional value [src] to [n] rows of [ncols]
    columns; a one-dimensional value counts as a single row. *)
Definition broadcast2 (n ncols : nat) (src : ndarray T) : M T (list (list T)) :=
  let rows := match src with Arr1 data => [data] | Arr2 _ rows => rows end in
  let ncols' := match src with Arr1 data => length data | Arr2 c _ => c end in
  rows1 ← (if decide (ncols' = ncols) then mret rows
           else if decide (ncols' = 1)
                then mret (map (λ r, r ≫= replicate ncols) rows)
                else raise ValueError);
  broadcast n rows1.

(** [a[lo:hi, :] = src], with [src] another array *)
Definition setitem_rows (a : loc) (lo : nat) (hi : option nat) (src : loc) : M T () :=
  v ← load a;
  s ← load src;
  match v with
  | Arr1 _ => raise IndexError
  | Arr2 ncols rows =>
      rows' ← broadcast2 (py_slice_len lo hi (length rows)) ncols s;
      store a (Arr2 ncols (py_slice_set lo hi rows rows'))
  end.

(** [np.maximum] and its reduction [np.max] over a one-dimensional array;
    the maximum of no element is an error.  Only vectors are modelled. *)
Definition np_maximum (x y : T) : T := if dleb y x then x else y.

Definition list_max (x : T) (l : list T) : T := foldl np_maximum x l.

Definition np_max (a : loc) : M T T :=
  v ← load a;
  match v with
  | Arr1 (x :: l) => mret (list_max x l)
  | Arr1 [] => raise ValueError
  | Arr2 _ _ => raise TypeError
  end.

(** [np.where(a == m)[0][0]]: the first index at which [a] equals [m]. *)
Definition np_where_eq_first (a : loc) (m : T) : M T nat :=
  v ← load a;
  match v with
  | Arr1 data =>
      match list_find (λ x, deqb x m) data with
      | Some (i, _) => mret i
      | None => raise IndexError
      end
  | Arr2 _ _ => raise TypeError
  end.

(** [a[i] = x] on a one-dimensional array *)
Definition setitem1 (a : loc) (i : nat) (x : T) : M T () :=
  v ← load a;
  match v with
  | Arr1 data =>
      if decide (i < length data) then store a (Arr1 (<[i:=x]> data))
      else raise IndexError
  | Arr2 _ _ => raise TypeError
  end.

(** [np.random.uniform(lo, hi, size)]: [size] further draws of the
    generator, as a one-dimensional array value. *)
Definition np_random_uniform (lo hi : T) (size : nat) : M T (list T) := λ σ,
  (Ok (map (λ k, rng σ (rng_calls σ + k) lo hi) (seq 0 size)),
   State (heap σ) (rng_calls σ + size) (rng σ) (uninit σ) (release σ)).

(** [np.sum] of a row, and [t_population * t_eq] with the tuple broadcast
    against the rows. *)
Definition np_sum (l : list T) : T := foldl dadd d0 l.

Definition np_multiply (ncols : nat) (rows : list (list T)) (t_eq : list T)
    : M T (list (list T)) :=
  if decide (ncols = length t_eq) then mret (map (λ r, zip_with dmul r t_eq) rows)
  else match t_eq with
       | [e] => mret (map (map (λ x, dmul x e)) rows)
       | _ => if decide (ncols = 1)
              then mret (map (λ r, r ≫= λ x, map (dmul x) t_eq) rows)
              else raise ValueError
       end.

(** ** The program *)

(** *** [make_initial_population] *)
Definition make_initial_population (t_size : Z * Z) (t_low t_high : T) : M T loc :=
  if decide (0 ≤ t_size.1 ∧ 0 ≤ t_size.2)%Z then
    let ncols := Z.to_nat t_size.2 in
    draws ← np_random_uniform t_low t_high (Z.to_nat t_size.1 * ncols);
    alloc (Arr2 ncols
             (map (λ i, take ncols (drop (i * ncols) draws))
                  (seq 0 (Z.to_nat t_size.1))))
  else raise ValueError.

(** *** [mutate] *)
Definition mutate_row (t_offspring : loc) (idx : nat) : M T () :=
  random_value ← np_random_uniform (of_int (-1)) (of_int 1) 1;
  x ← getitem2 t_offspring idx 4;
  setitem2 t_offspring idx 4 (map (dadd x) random_value).

Definition mutate (t_offspring : loc) : M T loc :=
  n ← shape0 t_offspring;
  for_range (Z.of_nat n) (mutate_row t_offspring);;
  mret t_offspring.

(** *** [crossover] *)

Definition crossover_row (t_survivor offspring : loc) (c : nat) (i : nat) : M T () :=
  k ← shape0 t_survivor;
  first_parent_idx ← py_mod i k;
  k' ← shape0 t_survivor;
  second_parent_idx ← py_mod (i + 1) k';
  g1 ← getitem_row_slice t_survivor first_parent_idx 0 (Some c);
  setitem_row_slice offspring i 0 (Some c) g1;;
  g2 ← getitem_row_slice t_survivor second_parent_idx c None;
  setitem_row_slice offspring i c None g2.

(** [t_size[1]/2] is a float, whose fraction [np.uint8] drops. *)
Definition crossover (t_survivor : loc) (t_size : Z * Z) : M T loc :=
  offspring ← np_empty t_size;
  crossover_point ← np_uint8 (t_size.2 ÷ 2);
  for_range t_size.1
    (crossover_row t_survivor offspring (Z.to_nat crossover_point));;
  mret offspring.

(** *** [evaluate_fitness] *)

(** The product [t_population * t_eq] is a temporary no name refers to;
    only the array of the sums is kept.  Summing along axis 1 needs a
    second axis. *)
Definition evaluate_fitness (t_eq : list T) (t_population : loc) : M T loc :=
  v ← load t_population;
  match v with
  | Arr1 _ => raise ValueError
  | Arr2 ncols rows =>
      prod ← np_multiply ncols rows t_eq;
      alloc (Arr1 (map np_sum prod))
  end.

(** *** [make_selection] *)

(** [np.iinfo(np.int32).min] is the Python integer [-2**31]; Python
    integers do not wrap, so its negation is [2**31]. *)
Definition int32_min : Z := (- 2 ^ 31)%Z.

Definition sentinel : T := of_int (- int32_min)%Z.

Definition select_one (t_population t_fitness_val survivors : loc)
    (idx : nat) : M T () :=
  m ← np_max t_fitness_val;
  max_fitness_idx ← np_where_eq_first t_fitness_val m;
  row ← getitem_row_slice t_population max_fitness_idx 0 None;
  setitem_row_slice survivors idx 0 None row;;
  setitem1 t_fitness_val max_fitness_idx sentinel.

Definition make_selection (t_population t_fitness_val : loc)
    (t_parents : Z) : M T loc :=
  ncols ← shape1 t_population;
  survivors ← np_empty (t_parents, Z.of_nat ncols);
  for_range t_parents (select_one t_population t_fitness_val survivors);;
  mret survivors.

(** *** The generational loop of [__main__] *)

(** One iteration of [for gen in range(generations)]. *)
Definition generation (eq_inputs : list T) (weights : Z) (pop_size : Z * Z)
    (parent_donors : Z) (pop : loc) : M T () :=
  fitness ← evaluate_fitness eq_inputs pop;
  parents ← make_selection pop fitness parent_donors;
  k ← shape0 parents;
  offspring_cro ← crossover parents (pop_size.1 - Z.of_nat k, weights)%Z;
  offspring_mut ← mutate offspring_cro;
  k1 ← shape0 parents;
  setitem_rows pop 0 (Some k1) parents;;
  k2 ← shape0 parents;
  setitem_rows pop k2 None offspring_mut.

Definition main_loop (eq_inputs : list T) (weights pool_size parent_donors : Z)
    (generations : Z) : M T loc :=
  let pop_size := (pool_size, weights) in
  pop ← make_initial_population pop_size (of_int (-4)) (of_int 4);
  for_range generations
    (λ gen, generation eq_inputs weights pop_size parent_donors pop);;
  mret pop.

(** *** The report at the end of [__main__] *)

(** [np.where(a == m)[0]]: every index at which [a] equals [m], in
    increasing order; [i] is the index of the head of [data]. *)
Fixpoint where_eq (m : T) (i : nat) (data : list T) : list nat :=
  match data with
  | [] => []
  | x :: data' =>
      if deqb x m then i :: where_eq m (S i) data' else where_eq m (S i) data'
  end.

Definition np_where_eq (a : loc) (m : T) : M T (list nat) :=
  v ← load a;
  match v with
  | Arr1 data => mret (where_eq m 0 data)
  | Arr2 _ _ => raise TypeError
  end.

(** [a[(idx,), :]]: the rows of [a] at the indices [idx].  (NumPy wraps
    them in one more axis, of length one.) *)
Definition getitem_rows_at (a : loc) (idx : list nat) : M T (list (list T)) :=
  v ← load a;
  match v with
  | Arr1 _ => raise IndexError
  | Arr2 _ rows =>
      match mapM (rows !!.) idx with
      | Some picked => mret picked
      | None => raise IndexError
      end
  end.

(** [a[(idx,)]] on a one-dimensional array *)
Definition getitem1_at (a : loc) (idx : list nat) : M T (list T) :=
  v ← load a;
  match v with
  | Arr1 data =>
      match mapM (data !!.) idx with
      | Some picked => mret picked
      | None => raise IndexError
      end
  | Arr2 _ _ => raise TypeError
  end.

(** The last four lines of [__main__]: the arrays the two [print] calls
    format, the best solutions and their fitness. *)
Definition report (eq_inputs : list T) (pop : loc) : M T (list (list T) * list T) :=
  fitness ← evaluate_fitness eq_inputs pop;
  m ← np_max fitness;
  best_match_idx ← np_where_eq fitness m;
  solutions ← getitem_rows_at pop best_match_idx;
  scores ← getitem1_at fitness best_match_idx;
  mret (solutions, scores).

(** The whole of [__main__]. *)
Definition main (eq_inputs : list T) (weights pool_size parent_donors : Z)
    (generations : Z) : M T (list (list T) * list T) :=
  pop ← main_loop eq_inputs weights pool_size parent_donors generations;
  report eq_inputs pop.

End numpy.

(** ** What the loops compute, and what a call may change *)

Section pure.
Context {T : Type} `{DType T}.

(** The index [select_one] picks in a fitness vector. *)
Definition first_max (fit : list T) : option nat :=
  match fit with
  | [] => None
  | x :: l => fst <$> list_find (λ y, deqb y (list_max x l)) fit
  end.

(** Index [i] holds a maximum of [fit] (every element is below the one at
    [i]) and is the lowest index to do so (no lower index holds an element
    equal to it). *)
Definition lowest_max (fit : list T) (i : nat) : Prop :=
  ∃ x, fit !! i = Some x
    ∧ (∀ j y, fit !! j = Some y → dleb y x = true)
    ∧ (∀ j y, fit !! j = Some y → deqb y x = true → i ≤ j).

(** The indices picked by [n] successive iterations, the first one first,
    and the fitness vector they leave behind. *)
Fixpoint chosen (n : nat) (fit : list T) : list nat :=
  match n with
  | 0 => []
  | S n' =>
      match first_max fit with
      | Some i => i :: chosen n' (<[i:=sentinel]> fit)
      | None => []
      end
  end.

Definition overwrite (fit : list T) (picked : list nat) : list T :=
  foldl (λ v i, <[i:=sentinel]> v) fit picked.

(** The crossover point [np.uint8(t_size[1]/2)] where the conversion
    returns: half the number of genes, of which the low eight bits are
    kept. *)
Definition crossover_point (t_size : Z * Z) : nat :=
  Z.to_nat ((t_size.2 ÷ 2) `mod` 256).

(** Row [i] of the offspring of a one-point crossover at column [c]. *)
Definition child (rows : list (list T)) (c i : nat) : list T :=
  take c (rows !!! (i `mod` length rows))
  ++ drop c (rows !!! ((i + 1) `mod` length rows)).

(** The rows after the mutation loop, when the generator has been used
    [k] times before: each row gets its own draw added at gene 4. *)
Fixpoint mutated (gen : nat → T → T → T) (k : nat) (rows : list (list T))
    : list (list T) :=
  match rows with
  | [] => []
  | r :: rows' =>
      <[4:=dadd (nth 4 r d0) (gen k (of_int (-1)) (of_int 1))]> r
      :: mutated gen (S k) rows'
  end.

(** The sum of the products [r j * e j] for [j < n], in index order. *)
Fixpoint dot (n : nat) (r e : list T) : T :=
  match n with
  | 0 => d0
  | S n' => dadd (dot n' r e) (dmul (nth n' r d0) (nth n' e d0))
  end.

(** [m] never changes what the store holds at [a], whether it returns or
    raises. *)
Definition preserves {A} (a : loc) (m : M T A) : Prop :=
  ∀ σ, heap (m σ).2 !! a = heap σ !! a.

(** [m] never touches the random generator or the uninitialised memory,
    whether it returns or raises. *)
Definition keeps_generator {A} (m : M T A) : Prop :=
  ∀ σ, rng_calls (m σ).2 = rng_calls σ
       ∧ rng (m σ).2 = rng σ
       ∧ uninit (m σ).2 = uninit σ.

(** [m] leaves the program on the release it runs on. *)
Definition keeps_release {A} (m : M T A) : Prop :=
  ∀ σ, release (m σ).2 = release σ.

(** The generator keeps to the bounds it is asked for. *)
Definition rng_in_bounds (σ : state T) : Prop :=
  ∀ k lo hi, dleb lo hi = true →
    dleb lo (rng σ k lo hi) = true ∧ dleb (rng σ k lo hi) hi = true.

End pure.

(** ** Concrete inputs *)

(** A state whose generator always returns the lower bound and whose
    uninitialised memory holds zeros, on NumPy 1. *)
Definition st0 (h : gmap loc (ndarray Z)) : state Z :=
  State h 0 (λ _ lo _, lo) (λ _ _, 0%Z) NumPy_1.

(** Four candidates of two genes, whose fitness vector under the equation
    [(1, 0)] is [3, 7, 1, 7]: alone at location 0, and with that vector at
    location 1. *)
Definition selection_rows : list (list Z) :=
  [[3; 10]; [7; 11]; [1; 12]; [7; 13]]%Z.

Definition candidates_heap : gmap loc (ndarray Z) :=
  {[ 0 := Arr2 2 selection_rows ]}.

Definition selection_heap : gmap loc (ndarray Z) :=
  {[ 0 := Arr2 2 selection_rows; 1 := Arr1 [3; 7; 1; 7]%Z ]}.

(** Three candidates of one gene, whose fitness vector under the equation
    [(10**9)] is [4e9, 3e9, 0]. *)
Definition large_rows : list (list Z) := [[4]; [3]; [0]]%Z.

Definition large_heap : gmap loc (ndarray Z) := {[ 0 := Arr2 1 large_rows ]}.

(** Two parents of 512 genes, all zeros and all ones. *)
Definition wide_rows : list (list Z) := [replicate 512 0%Z; replicate 512 1%Z].

Definition wide_heap : gmap loc (ndarray Z) := {[ 0 := Arr2 512 wide_rows ]}.

(** A pool without rows, of three genes. *)
Definition no_rows_heap : gmap loc (ndarray Z) := {[ 0 := Arr2 3 [] ]}.

(** An offspring pool of two rows and six genes. *)
Definition offspring_rows : list (list Z) :=
  [[1; 2; 3; 4; 5; 6]; [7; 8; 9; 10; 11; 12]]%Z.

Definition offspring_heap : gmap loc (ndarray Z) := {[ 0 := Arr2 6 offspring_rows ]}.

(** The candidate [(1, 1, 1)]. *)
Definition ones_heap : gmap loc (ndarray Z) := {[ 0 := Arr2 3 [[1; 1; 1]]%Z ]}.

(** Three candidates of six genes and the equation of [__main__], its
    coefficients rounded to integers. *)
Definition demo_rows : list (list Z) :=
  [[1; 0; 2; 1; 0; 1]; [0; 1; 0; 2; 1; 0]; [2; 2; 1; 0; 0; 1]]%Z.

Definition demo_eq : list Z := [4; -2; 3; 5; -11; -4]%Z.

Definition demo_heap : gmap loc (ndarray Z) := {[ 0 := Arr2 6 demo_rows ]}.

(** A state whose generator counts up from the lower bound. *)
Definition st1 (h : gmap loc (ndarray Z)) : state Z :=
  State h 0 (λ k lo _, lo + Z.of_nat k)%Z (λ _ _, 0%Z) NumPy_1.

(** Two clones as parents. *)
Definition clone_heap : gmap loc (ndarray Z) :=
  {[ 0 := Arr2 3 (replicate 2 [5; 6; 7]%Z) ]}.

(** A vector where a matrix is expected. *)
Definition vector_heap : gmap loc (ndarray Z) :=
  {[ 0 := Arr1 [1; 2; 3]%Z; 1 := Arr1 [3; 7; 1; 7]%Z ]}.

(** * Running the program *)

(** ** The integers are an ordered element type *)

#[export] Instance Z_dtype_order : DTypeOrder Z.
Proof.
  split; simpl.
  - intros x y. destruct (Z.leb_spec x y); [by left|right]. apply Z.leb_le. lia.
  - intros x y z ?%Z.leb_le ?%Z.leb_le. apply Z.leb_le. lia.
  - intros x y. destruct (Z.eqb_spec x y), (Z.leb_spec x y), (Z.leb_spec y x);
      simpl; try reflexivity; lia.
  - intros a b ?. by apply Z.leb_le.
Qed.

(** ** Running the primitives *)

Section run.
Context {T : Type} `{DType T}.
Implicit Types (σ : state T) (a : loc) (rows : list (list T)).

Lemma bind_run {A B} (m : M T A) (k : A → M T B) σ :
  (m ≫= k) σ = match m σ with
               | (Ok x, σ') => k x σ'
               | (Raise e, σ') => (Raise e, σ')
               end.
Proof. reflexivity. Qed.

Lemma bind_ok {A B} (m : M T A) (k : A → M T B) σ x σ' :
  m σ = (Ok x, σ') → (m ≫= k) σ = k x σ'.
Proof. intros Hm. by rewrite bind_run, Hm. Qed.

Lemma bind_raise {A B} (m : M T A) (k : A → M T B) σ e σ' :
  m σ = (Raise e, σ') → (m ≫= k) σ = (Raise e, σ').
Proof. intros Hm. by rewrite bind_run, Hm. Qed.

Lemma load_run a σ v : heap σ !! a = Some v → load a σ = (Ok v, σ).
Proof. intros Hv. unfold load. by rewrite Hv. Qed.

Lemma set_heap_id σ : set_heap (heap σ) σ = σ.
Proof. by destruct σ. Qed.

Lemma set_heap_set_heap h h' σ : set_heap h (set_heap h' σ) = set_heap h σ.
Proof. reflexivity. Qed.

Lemma insert2_absorb (h : gmap loc (ndarray T)) f s A B A0 B0 :
  s ≠ f →
  <[f:=A]> (<[s:=B]> (<[f:=A0]> (<[s:=B0]> h))) = <[f:=A]> (<[s:=B]> h).
Proof.
  intros Hsf. apply map_eq. intros k.
  destruct (decide (k = f)), (decide (k = s)); by simplify_map_eq.
Qed.

Lemma shape0_run a σ ncols rows :
  heap σ !! a = Some (Arr2 ncols rows) → shape0 a σ = (Ok (length rows), σ).
Proof. intros Hv. unfold shape0. by rewrite (bind_ok _ _ _ _ _ (load_run _ _ _ Hv)). Qed.

Lemma shape1_run a σ ncols rows :
  heap σ !! a = Some (Arr2 ncols rows) → shape1 a σ = (Ok ncols, σ).
Proof. intros Hv. unfold shape1. by rewrite (bind_ok _ _ _ _ _ (load_run _ _ _ Hv)). Qed.

Lemma broadcast_same {A} n (vals : list A) σ :
  length vals = n → broadcast n vals σ = (Ok vals, σ).
Proof. intros Hn. unfold broadcast. by rewrite decide_True. Qed.

Lemma getitem_row_slice_run a i lo hi σ ncols rows r :
  heap σ !! a = Some (Arr2 ncols rows) → rows !! i = Some r →
  getitem_row_slice a i lo hi σ = (Ok (py_slice lo hi r), σ).
Proof.
  intros Hv Hr. unfold getitem_row_slice.
  rewrite (bind_ok _ _ _ _ _ (load_run _ _ _ Hv)). by rewrite Hr.
Qed.

Lemma setitem_row_slice_run a i lo hi vals σ ncols rows r :
  heap σ !! a = Some (Arr2 ncols rows) → rows !! i = Some r →
  length vals = py_slice_len lo hi (length r) →
  setitem_row_slice a i lo hi vals σ
  = (Ok (), set_heap (<[a:=Arr2 ncols (<[i:=py_slice_set lo hi r vals]> rows)]> (heap σ)) σ).
Proof.
  intros Hv Hr Hlen. unfold setitem_row_slice.
  rewrite (bind_ok _ _ _ _ _ (load_run _ _ _ Hv)). rewrite Hr.
  by rewrite (bind_ok _ _ _ _ _ (broadcast_same _ _ _ Hlen)).
Qed.

Lemma np_empty_run (n ncols : Z) σ :
  (0 ≤ n)%Z → (0 ≤ ncols)%Z →
  np_empty (n, ncols) σ
  = (Ok (fresh (dom (heap σ))),
     set_heap (<[fresh (dom (heap σ)):=
                   Arr2 (Z.to_nat ncols) (uninit_rows σ (Z.to_nat n) (Z.to_nat ncols))]>
                 (heap σ)) σ).
Proof. intros Hn Hc. unfold np_empty; simpl. by rewrite decide_True. Qed.

Lemma uninit_rows_length σ n ncols : length (uninit_rows σ n ncols) = n.
Proof. unfold uninit_rows. by rewrite length_map, length_seq. Qed.

Lemma uninit_rows_wf σ n ncols :
  Forall (λ r, length r = ncols) (uninit_rows σ n ncols).
Proof.
  unfold uninit_rows. apply Forall_map, Forall_forall. intros i _; simpl.
  by rewrite length_map, length_seq.
Qed.

Lemma fresh_lookup σ : heap σ !! fresh (dom (heap σ)) = None.
Proof. apply not_elem_of_dom, is_fresh. Qed.

Lemma fresh_ne σ a v : heap σ !! a = Some v → a ≠ fresh (dom (heap σ)).
Proof. intros Ha ->. by rewrite fresh_lookup in Ha. Qed.

Lemma py_slice_all {A} (l : list A) : py_slice 0 None l = l.
Proof. unfold py_slice; simpl. by rewrite Nat.sub_0_r, firstn_all. Qed.

Lemma py_slice_len_all n : py_slice_len 0 None n = n.
Proof. unfold py_slice_len; simpl. lia. Qed.

Lemma py_slice_set_all {A} (l vals : list A) : py_slice_set 0 None l vals = vals.
Proof.
  unfold py_slice_set; simpl. rewrite drop_all. by rewrite app_nil_r.
Qed.

End run.

(** ** The maximum and its first occurrence *)

Section maximum.
Context {T : Type} `{DTypeOrder T}.
Implicit Types (x y m : T) (l fit : list T).

Lemma dleb_refl x : dleb x x = true.
Proof. by destruct (dleb_total x x). Qed.

Lemma deqb_refl x : deqb x x = true.
Proof. by rewrite deqb_leb, dleb_refl. Qed.

Lemma np_maximum_l x y : dleb x (np_maximum x y) = true.
Proof.
  unfold np_maximum. destruct (dleb y x) eqn:Hyx; [apply dleb_refl|].
  by destruct (dleb_total x y) as [?|Hc]; [|rewrite Hc in Hyx].
Qed.

Lemma np_maximum_r x y : dleb y (np_maximum x y) = true.
Proof. unfold np_maximum. destruct (dleb y x) eqn:Hyx; [done|apply dleb_refl]. Qed.

Lemma list_max_ge_init l x : dleb x (list_max x l) = true.
Proof.
  revert x. induction l as [|y l IH]; intros x; simpl; [apply dleb_refl|].
  eapply dleb_trans; [apply np_maximum_l|apply IH].
Qed.

Lemma list_max_ge l x y : y ∈ l → dleb y (list_max x l) = true.
Proof.
  revert x. induction l as [|z l IH]; intros x; [by inversion 1|].
  intros [->|Hy]%elem_of_cons; simpl.
  - eapply dleb_trans; [apply np_maximum_r|apply list_max_ge_init].
  - by apply IH.
Qed.

Lemma list_max_elem l x : list_max x l ∈ x :: l.
Proof.
  revert x. induction l as [|z l IH]; intros x; simpl; [set_solver|].
  specialize (IH (np_maximum x z)). apply elem_of_cons in IH as [Heq|Hin].
  - fold (list_max (np_maximum x z) l). rewrite Heq. unfold np_maximum.
    destruct (dleb z x); set_solver.
  - fold (list_max (np_maximum x z) l). set_solver.
Qed.

(** On a vector that is not empty the selection finds an index: that of an
    element which every element is below, and below which no index holds
    an element equal to it. *)
Lemma first_max_spec fit :
  fit ≠ [] →
  ∃ i x, first_max fit = Some i ∧ fit !! i = Some x
    ∧ (∀ j y, fit !! j = Some y → dleb y x = true)
    ∧ (∀ j y, fit !! j = Some y → deqb y x = true → i ≤ j).
Proof.
  destruct fit as [|x0 l]; [done|intros _]. unfold first_max.
  set (m := list_max x0 l).
  assert (Hub : ∀ y, y ∈ x0 :: l → dleb y m = true).
  { intros y [->|Hy]%elem_of_cons; [apply list_max_ge_init|by apply list_max_ge]. }
  destruct (list_find (λ y, deqb y m) (x0 :: l)) as [[i x]|] eqn:Hfind.
  - apply list_find_Some in Hfind as (Hi & Hx & Hmin).
    apply Is_true_true in Hx. rewrite deqb_leb in Hx.
    apply andb_true_iff in Hx as [Hxm Hmx].
    exists i, x. split_and!; [done|done| |].
    + intros j y Hj. eapply dleb_trans; [|exact Hmx].
      apply Hub. by eapply list_elem_of_lookup_2.
    + intros j y Hj Hyx. destruct (decide (i ≤ j)) as [|Hlt]; [done|].
      exfalso. apply (Hmin j y Hj); [lia|]. apply Is_true_true.
      rewrite deqb_leb in Hyx |- *. apply andb_true_iff in Hyx as [Hyx Hxy].
      apply andb_true_iff. split; eapply dleb_trans; eauto.
  - exfalso. apply list_find_None in Hfind.
    eapply Forall_forall in Hfind; [|apply list_max_elem].
    apply Hfind. apply Is_true_true. apply deqb_refl.
Qed.

Lemma first_max_lt fit i : first_max fit = Some i → i < length fit.
Proof.
  destruct fit as [|x0 l]; [done|]. unfold first_max.
  destruct (list_find _ _) as [[k x]|] eqn:Hfind; [|done].
  intros [= <-]. apply list_find_Some in Hfind as (Hi & _).
  by eapply lookup_lt_Some.
Qed.

Lemma chosen_length n fit : fit ≠ [] → length (chosen n fit) = n.
Proof.
  revert fit. induction n as [|n IH]; intros fit Hne; [done|]. simpl.
  destruct (first_max_spec fit Hne) as (i & x & -> & _). simpl.
  rewrite IH; [done|]. intros Heq. apply (f_equal length) in Heq.
  rewrite length_insert in Heq. by destruct fit.
Qed.

Lemma chosen_lt n fit i : i ∈ chosen n fit → i < length fit.
Proof.
  revert fit. induction n as [|n IH]; intros fit; simpl; [by inversion 1|].
  destruct (first_max fit) as [k|] eqn:Hk; [|by inversion 1].
  intros [->|Hi]%elem_of_cons; [by eapply first_max_lt|].
  apply IH in Hi. by rewrite length_insert in Hi.
Qed.

End maximum.

(** ** [make_selection] runs the selection loop *)

Section selection.
Context {T : Type} `{DTypeOrder T}.
Implicit Types (σ : state T) (rows srows : list (list T)) (fit : list T).

Lemma np_max_run f σ fit x l :
  heap σ !! f = Some (Arr1 (x :: l)) → np_max f σ = (Ok (list_max x l), σ).
Proof. intros Hf. unfold np_max. by rewrite (bind_ok _ _ _ _ _ (load_run _ _ _ Hf)). Qed.

Lemma setitem1_run f i x σ fit :
  heap σ !! f = Some (Arr1 fit) → i < length fit →
  setitem1 f i x σ = (Ok (), set_heap (<[f:=Arr1 (<[i:=x]> fit)]> (heap σ)) σ).
Proof.
  intros Hf Hi. unfold setitem1. rewrite (bind_ok _ _ _ _ _ (load_run _ _ _ Hf)).
  by rewrite decide_True.
Qed.

(** One iteration: the row at the first maximum goes to slot [idx] and the
    fitness at that index becomes the sentinel. *)
Lemma select_one_run p f s idx σ g rows srows fit i r sr :
  heap σ !! p = Some (Arr2 g rows) →
  heap σ !! f = Some (Arr1 fit) →
  heap σ !! s = Some (Arr2 g srows) →
  first_max fit = Some i →
  rows !! i = Some r →
  srows !! idx = Some sr →
  length r = length sr →
  select_one p f s idx σ
  = (Ok (), set_heap (<[f:=Arr1 (<[i:=sentinel]> fit)]>
                        (<[s:=Arr2 g (<[idx:=r]> srows)]> (heap σ))) σ).
Proof.
  intros Hp Hf Hs Hi Hr Hsr Hlen. unfold select_one.
  assert (s ≠ f) as Hsf by (intros ->; congruence).
  destruct fit as [|x0 l]; [done|].
  rewrite (bind_ok _ _ _ _ _ (np_max_run _ _ (x0 :: l) _ _ Hf)).
  unfold first_max in Hi.
  destruct (list_find _ _) as [[k y]|] eqn:Hfind; [|done].
  injection Hi as ->.
  assert (np_where_eq_first f (list_max x0 l) σ = (Ok i, σ)) as Hw.
  { unfold np_where_eq_first. rewrite (bind_ok _ _ _ _ _ (load_run _ _ _ Hf)).
    by rewrite Hfind. }
  rewrite (bind_ok _ _ _ _ _ Hw).
  rewrite (bind_ok _ _ _ _ _ (getitem_row_slice_run _ _ _ _ _ _ _ _ Hp Hr)).
  rewrite py_slice_all.
  erewrite bind_ok; last first.
  { eapply setitem_row_slice_run; [done..|]. by rewrite py_slice_len_all. }
  rewrite py_slice_set_all.
  erewrite setitem1_run; [done| |].
  - simpl. by rewrite lookup_insert_ne.
  - apply list_find_Some in Hfind as (Hk & _). by eapply lookup_lt_Some.
Qed.

(** The loop over the slots [a, a + n). *)
Lemma select_loop_run p f s g rows n : ∀ a σ fit srows,
  heap σ !! p = Some (Arr2 g rows) →
  heap σ !! f = Some (Arr1 fit) →
  heap σ !! s = Some (Arr2 g srows) →
  p ≠ s →
  Forall (λ r, length r = g) rows →
  Forall (λ r, length r = g) srows →
  length fit = length rows →
  fit ≠ [] →
  a + n ≤ length srows →
  for_each (seq a n) (select_one p f s) σ
  = (Ok (), set_heap
              (<[f:=Arr1 (overwrite fit (chosen n fit))]>
                 (<[s:=Arr2 g (take a srows
                                ++ ((rows !!!.) <$> chosen n fit)
                                ++ drop (a + n) srows)]> (heap σ))) σ).
Proof.
  induction n as [|n IH]; intros a σ fit srows Hp Hf Hs Hps Hrows Hsrows Hlen Hne Han.
  - simpl. unfold mret, M_ret. f_equal. rewrite Nat.add_0_r, take_drop.
    rewrite (insert_id _ s) by done. rewrite insert_id by done.
    by rewrite set_heap_id.
  - simpl.
    destruct (first_max_spec fit Hne) as (i & x & Hi & Hx & _).
    pose proof (first_max_lt _ _ Hi) as Hilt.
    destruct (lookup_lt_is_Some_2 rows i) as [r Hr]; [lia|].
    destruct (lookup_lt_is_Some_2 srows a) as [sr Hsr]; [lia|].
    assert (s ≠ f) as Hsf by (intros ->; congruence).
    assert (p ≠ f) as Hpf by (intros ->; congruence).
    erewrite bind_ok; last first.
    { eapply select_one_run; [done..|].
      rewrite (Forall_lookup_1 _ _ _ _ Hrows Hr).
      by rewrite (Forall_lookup_1 _ _ _ _ Hsrows Hsr). }
    rewrite Hi. simpl.
    rewrite (IH (S a) _ (<[i:=sentinel]> fit) (<[a:=r]> srows)); simpl.
    + f_equal. rewrite set_heap_set_heap. f_equal.
      rewrite insert2_absorb by done.
      rewrite (list_lookup_total_correct _ _ _ Hr).
      do 3 f_equal.
      rewrite (take_S_r _ _ r) by (by rewrite list_lookup_insert_eq by lia).
      rewrite take_insert_ge by lia.
      rewrite drop_insert_lt by lia.
      rewrite <- app_assoc. simpl. by replace (a + S n) with (S (a + n)) by lia.
    + by rewrite !lookup_insert_ne.
    + by rewrite lookup_insert_eq.
    + rewrite lookup_insert_ne by done. by rewrite lookup_insert_eq.
    + done.
    + done.
    + apply Forall_insert; [done|]. exact (Forall_lookup_1 _ _ _ _ Hrows Hr).
    + by rewrite length_insert.
    + intros Heq. apply (f_equal length) in Heq.
      rewrite length_insert in Heq. by destruct fit.
    + rewrite length_insert. lia.
Qed.

Lemma make_selection_run p f (k : Z) σ g rows fit :
  heap σ !! p = Some (Arr2 g rows) →
  heap σ !! f = Some (Arr1 fit) →
  Forall (λ r, length r = g) rows →
  length fit = length rows →
  fit ≠ [] →
  (0 ≤ k)%Z →
  make_selection p f k σ
  = (Ok (fresh (dom (heap σ))),
     set_heap (<[f:=Arr1 (overwrite fit (chosen (Z.to_nat k) fit))]>
                 (<[fresh (dom (heap σ)):=
                      Arr2 g ((rows !!!.) <$> chosen (Z.to_nat k) fit)]> (heap σ))) σ).
Proof.
  intros Hp Hf Hrows Hlen Hne Hk. unfold make_selection.
  rewrite (bind_ok _ _ _ _ _ (shape1_run _ _ _ _ Hp)).
  rewrite (bind_ok _ _ _ _ _ (np_empty_run _ _ _ Hk (Nat2Z.is_nonneg g))).
  set (s := fresh (dom (heap σ))). rewrite Nat2Z.id.
  pose proof (fresh_ne _ _ _ Hp) as Hps. pose proof (fresh_ne _ _ _ Hf) as Hfs.
  fold s in Hps, Hfs.
  unfold for_range. erewrite bind_ok; last first.
  { eapply (select_loop_run p f s g rows (Z.to_nat k) 0 _ fit
              (uninit_rows σ (Z.to_nat k) g)); simpl; try done.
    - by rewrite lookup_insert_ne.
    - by rewrite lookup_insert_ne.
    - by rewrite lookup_insert_eq.
    - apply uninit_rows_wf.
    - by rewrite uninit_rows_length. }
  unfold mret, M_ret. f_equal. rewrite set_heap_set_heap. f_equal.
  simpl. rewrite insert_insert_eq.
  rewrite drop_ge by (by rewrite uninit_rows_length).
  by rewrite app_nil_r.
Qed.

(** With no candidate to choose from, the first iteration fails in
    [np.max]. *)
Lemma make_selection_empty p f (k : Z) σ g rows :
  heap σ !! p = Some (Arr2 g rows) →
  heap σ !! f = Some (Arr1 []) →
  (1 ≤ k)%Z →
  (make_selection p f k σ).1 = Raise ValueError.
Proof.
  intros Hp Hf Hk. unfold make_selection.
  rewrite (bind_ok _ _ _ _ _ (shape1_run _ _ _ _ Hp)).
  assert (0 ≤ k)%Z as Hk0 by lia.
  rewrite (bind_ok _ _ _ _ _ (np_empty_run _ _ _ Hk0 (Nat2Z.is_nonneg g))).
  pose proof (fresh_ne _ _ _ Hf) as Hfs.
  unfold for_range. destruct (Z.to_nat k) as [|n] eqn:Hn; [lia|].
  rewrite <- cons_seq. simpl for_each.
  rewrite bind_run. rewrite (bind_run (select_one _ _ _ _)).
  unfold select_one. rewrite (bind_run (np_max f)).
  unfold np_max. erewrite bind_ok; last first.
  { apply load_run. simpl. by rewrite lookup_insert_ne. }
  done.
Qed.

End selection.

(** ** [crossover] fills the offspring row by row *)

Section crossover_run.
Context {T : Type} `{DType T}.
Implicit Types (σ : state T) (rows orows : list (list T)) (r : list T).

Lemma py_slice_prefix {A} c (l : list A) : py_slice 0 (Some c) l = take c l.
Proof.
  unfold py_slice; simpl. rewrite Nat.sub_0_r.
  destruct (decide (c ≤ length l)).
  - by rewrite Nat.min_l.
  - rewrite Nat.min_r by lia. rewrite firstn_all. by rewrite take_ge by lia.
Qed.

Lemma py_slice_suffix {A} c (l : list A) : py_slice c None l = drop c l.
Proof. unfold py_slice; simpl. apply take_ge. rewrite length_drop. lia. Qed.

Lemma py_slice_len_prefix c n : py_slice_len 0 (Some c) n = c `min` n.
Proof. unfold py_slice_len; simpl. lia. Qed.

Lemma py_slice_len_suffix c n : py_slice_len c None n = n - c.
Proof. unfold py_slice_len; simpl. lia. Qed.

Lemma py_slice_set_prefix {A} c (l vals : list A) :
  py_slice_set 0 (Some c) l vals = vals ++ drop c l.
Proof.
  unfold py_slice_set; simpl. f_equal.
  destruct (decide (c ≤ length l)).
  - by rewrite Nat.min_l.
  - rewrite Nat.min_r by lia. by rewrite !drop_ge by lia.
Qed.

Lemma py_slice_set_suffix {A} c (l vals : list A) :
  py_slice_set c None l vals = take c l ++ vals.
Proof.
  unfold py_slice_set; simpl.
  rewrite (drop_ge l) by lia. rewrite app_nil_r. f_equal.
  destruct (decide (c ≤ length l)).
  - by rewrite Nat.min_l.
  - rewrite Nat.min_r by lia. by rewrite !take_ge by lia.
Qed.

Lemma py_mod_run i k σ : k ≠ 0 → py_mod i k σ = (Ok (i `mod` k), σ).
Proof. intros Hk. unfold py_mod. by rewrite decide_False. Qed.

(** One offspring: the head of one parent up to [c], the tail of the next
    from [c] on. *)
Lemma crossover_row_run p o c i σ g rows orows orow :
  heap σ !! p = Some (Arr2 g rows) →
  heap σ !! o = Some (Arr2 g orows) →
  p ≠ o →
  rows ≠ [] →
  Forall (λ r, length r = g) rows →
  orows !! i = Some orow →
  length orow = g →
  crossover_row p o c i σ
  = (Ok (), set_heap (<[o:=Arr2 g (<[i:=child rows c i]> orows)]> (heap σ)) σ).
Proof.
  intros Hp Ho Hpo Hne Hrows Hi Hlen. unfold crossover_row.
  assert (length rows ≠ 0) as Hk by (by destruct rows).
  rewrite (bind_ok _ _ _ _ _ (shape0_run _ _ _ _ Hp)).
  rewrite (bind_ok _ _ _ _ _ (py_mod_run _ _ _ Hk)).
  rewrite (bind_ok _ _ _ _ _ (shape0_run _ _ _ _ Hp)).
  rewrite (bind_ok _ _ _ _ _ (py_mod_run _ _ _ Hk)).
  destruct (lookup_lt_is_Some_2 rows (i `mod` length rows)) as [r1 Hr1];
    [by apply Nat.mod_upper_bound|].
  destruct (lookup_lt_is_Some_2 rows ((i + 1) `mod` length rows)) as [r2 Hr2];
    [by apply Nat.mod_upper_bound|].
  pose proof (Forall_lookup_1 _ _ _ _ Hrows Hr1) as Hl1.
  pose proof (Forall_lookup_1 _ _ _ _ Hrows Hr2) as Hl2.
  simpl in Hl1, Hl2.
  rewrite (bind_ok _ _ _ _ _ (getitem_row_slice_run _ _ _ _ _ _ _ _ Hp Hr1)).
  rewrite py_slice_prefix.
  erewrite bind_ok; last first.
  { eapply setitem_row_slice_run; [done..|].
    rewrite py_slice_len_prefix, length_take. lia. }
  rewrite py_slice_set_prefix.
  erewrite bind_ok; last first.
  { eapply getitem_row_slice_run; [|done]. simpl. by rewrite lookup_insert_ne. }
  rewrite py_slice_suffix.
  rewrite (setitem_row_slice_run o i c None _ _ g
             (<[i:=take c r1 ++ drop c orow]> orows) (take c r1 ++ drop c orow)).
  - f_equal. rewrite set_heap_set_heap. f_equal. simpl.
    rewrite insert_insert_eq. do 2 f_equal.
    rewrite list_insert_insert_eq. f_equal.
    rewrite py_slice_set_suffix. unfold child.
    rewrite (list_lookup_total_correct _ _ _ Hr1).
    rewrite (list_lookup_total_correct _ _ _ Hr2).
    f_equal. destruct (decide (c ≤ g)).
    + rewrite take_app_le by (rewrite length_take; lia).
      rewrite take_take. f_equal. lia.
    + rewrite (drop_ge orow) by lia. rewrite app_nil_r.
      rewrite (take_ge r1) by lia. by rewrite take_ge by lia.
  - simpl. by rewrite lookup_insert_eq.
  - apply list_lookup_insert_eq. by eapply lookup_lt_Some.
  - rewrite py_slice_len_suffix, length_drop, length_app, length_take, length_drop. lia.
Qed.

Lemma crossover_loop_run p o c g rows n : ∀ a σ orows,
  heap σ !! p = Some (Arr2 g rows) →
  heap σ !! o = Some (Arr2 g orows) →
  p ≠ o →
  rows ≠ [] →
  Forall (λ r, length r = g) rows →
  Forall (λ r, length r = g) orows →
  a + n ≤ length orows →
  for_each (seq a n) (crossover_row p o c) σ
  = (Ok (), set_heap (<[o:=Arr2 g (take a orows
                                    ++ (child rows c <$> seq a n)
                                    ++ drop (a + n) orows)]> (heap σ)) σ).
Proof.
  induction n as [|n IH]; intros a σ orows Hp Ho Hpo Hne Hrows Horows Han.
  - simpl. unfold mret, M_ret. f_equal. rewrite Nat.add_0_r, take_drop.
    rewrite insert_id by done. by rewrite set_heap_id.
  - simpl.
    destruct (lookup_lt_is_Some_2 orows a) as [orow Horow]; [lia|].
    erewrite bind_ok; last first.
    { eapply crossover_row_run; [done..|].
      exact (Forall_lookup_1 _ _ _ _ Horows Horow). }
    rewrite (IH (S a) _ (<[a:=child rows c a]> orows)); simpl.
    + f_equal. rewrite set_heap_set_heap. f_equal.
      rewrite insert_insert_eq. do 2 f_equal.
      rewrite (take_S_r _ _ (child rows c a))
        by (by rewrite list_lookup_insert_eq by lia).
      rewrite take_insert_ge by lia.
      rewrite drop_insert_lt by lia.
      rewrite <- app_assoc. simpl. by replace (a + S n) with (S (a + n)) by lia.
    + by rewrite lookup_insert_ne.
    + by rewrite lookup_insert_eq.
    + done.
    + done.
    + done.
    + apply Forall_insert; [done|]. unfold child.
      assert (length rows ≠ 0) as Hk by (by destruct rows).
      destruct (lookup_lt_is_Some_2 rows (a `mod` length rows)) as [r1 Hr1];
        [by apply Nat.mod_upper_bound|].
      destruct (lookup_lt_is_Some_2 rows ((a + 1) `mod` length rows)) as [r2 Hr2];
        [by apply Nat.mod_upper_bound|].
      rewrite (list_lookup_total_correct _ _ _ Hr1).
      rewrite (list_lookup_total_correct _ _ _ Hr2).
      pose proof (Forall_lookup_1 _ _ _ _ Hrows Hr1) as Hl1.
      pose proof (Forall_lookup_1 _ _ _ _ Hrows Hr2) as Hl2.
      simpl in Hl1, Hl2.
      rewrite length_app, length_take, length_drop. lia.
    + rewrite length_insert. lia.
Qed.

(** [np.uint8] returns on every release up to 255, and above it on a
    release that wraps; on the others it raises. *)
Lemma np_uint8_run (x : Z) σ :
  (0 ≤ x)%Z →
  (x < 256)%Z ∨ uint8_wraps (release σ) = true →
  np_uint8 x σ = (Ok (x `mod` 256)%Z, σ).
Proof.
  intros Hx Hok. unfold np_uint8. case_decide as Hin.
  - by rewrite Z.mod_small.
  - destruct Hok as [?|Hw]; [lia|].
    unfold mbind, M_bind, np_release. by rewrite Hw.
Qed.


Lemma crossover_run p (m ncols : Z) σ rows :
  heap σ !! p = Some (Arr2 (Z.to_nat ncols) rows) →
  rows ≠ [] →
  Forall (λ r, length r = Z.to_nat ncols) rows →
  (0 ≤ m)%Z → (0 ≤ ncols)%Z →
  (ncols < 512)%Z ∨ uint8_wraps (release σ) = true →
  crossover p (m, ncols) σ
  = (Ok (fresh (dom (heap σ))),
     set_heap (<[fresh (dom (heap σ)):=
                  Arr2 (Z.to_nat ncols)
                    (child rows (crossover_point (m, ncols)) <$> seq 0 (Z.to_nat m))]>
                 (heap σ)) σ).
Proof.
  intros Hp Hne Hrows Hm Hc Hcut. unfold crossover.
  rewrite (bind_ok _ _ _ _ _ (np_empty_run _ _ _ Hm Hc)).
  set (o := fresh (dom (heap σ))).
  pose proof (fresh_ne _ _ _ Hp) as Hpo. fold o in Hpo.
  erewrite bind_ok; last first.
  { apply np_uint8_run; simpl snd.
    - apply Z.quot_pos; lia.
    - destruct Hcut as [?|?]; [left|by right].
      apply Z.quot_lt_upper_bound; lia. }
  change (Z.to_nat (((m, ncols).2 ÷ 2) `mod` 256)) with (crossover_point (m, ncols)).
  unfold for_range. simpl fst. erewrite bind_ok; last first.
  { eapply (crossover_loop_run p o _ _ rows (Z.to_nat m) 0 _
              (uninit_rows σ (Z.to_nat m) (Z.to_nat ncols))); simpl; try done.
    - by rewrite lookup_insert_ne.
    - by rewrite lookup_insert_eq.
    - apply uninit_rows_wf.
    - by rewrite uninit_rows_length. }
  unfold mret, M_ret. f_equal. rewrite set_heap_set_heap. f_equal.
  simpl. rewrite insert_insert_eq.
  rewrite drop_ge by (by rewrite uninit_rows_length).
  by rewrite app_nil_r.
Qed.

End crossover_run.

(** ** [mutate] walks the rows *)

Section mutate_run.
Context {T : Type} `{DType T}.
Implicit Types (σ : state T) (rows : list (list T)) (r : list T).

Lemma list_alter_lookup {A} (f : A → A) (l : list A) i x :
  l !! i = Some x → alter f i l = <[i:=f x]> l.
Proof.
  intros Hx. apply list_eq. intros j. destruct (decide (i = j)) as [->|].
  - rewrite list_lookup_alter_eq, Hx, list_lookup_insert_eq; [done|].
    by eapply lookup_lt_Some.
  - by rewrite list_lookup_alter_ne, list_lookup_insert_ne.
Qed.

Lemma mutate_row_run o idx σ g rows r :
  heap σ !! o = Some (Arr2 g rows) →
  rows !! idx = Some r →
  length r = g →
  4 < g →
  assigns_one_element (release σ) = true →
  mutate_row o idx σ
  = (Ok (), State (<[o:=Arr2 g (<[idx:=<[4:=dadd (nth 4 r d0)
                                            (rng σ (rng_calls σ) (of_int (-1)) (of_int 1))]> r]>
                                  rows)]> (heap σ))
              (rng_calls σ + 1) (rng σ) (uninit σ) (release σ)).
Proof.
  intros Ho Hr Hlen Hg Hnp. unfold mutate_row.
  rewrite bind_run. unfold np_random_uniform at 1. simpl.
  rewrite Nat.add_0_r.
  destruct (lookup_lt_is_Some_2 r 4) as [x Hx]; [lia|].
  assert (getitem2 o idx 4 (State (heap σ) (rng_calls σ + 1) (rng σ) (uninit σ) (release σ))
          = (Ok x, State (heap σ) (rng_calls σ + 1) (rng σ) (uninit σ) (release σ))) as Hget.
  { unfold getitem2. erewrite bind_ok; [|by apply load_run].
    cbv beta iota. rewrite decide_True by (split; [by eapply lookup_lt_Some|done]).
    rewrite Hr. simpl. by rewrite Hx. }
  rewrite (bind_ok _ _ _ _ _ Hget).
  unfold setitem2. erewrite bind_ok; [|by apply load_run].
  cbv beta iota. rewrite decide_True by (split; [by eapply lookup_lt_Some|done]).
  unfold mbind, M_bind, np_release. simpl. rewrite Hnp.
  unfold store, set_heap. simpl.
  rewrite (list_alter_lookup _ _ _ _ Hr).
  by rewrite (nth_lookup_Some _ _ _ _ Hx).
Qed.

Lemma mutated_length gen k rows : length (mutated gen k rows) = length rows.
Proof. revert k. induction rows as [|r rows IH]; intros k; simpl; [done|]. by rewrite IH. Qed.

Lemma mutate_loop_run o g n : ∀ a σ rows,
  heap σ !! o = Some (Arr2 g rows) →
  Forall (λ r, length r = g) rows →
  (n ≠ 0 → 4 < g ∧ assigns_one_element (release σ) = true) →
  a + n ≤ length rows →
  for_each (seq a n) (mutate_row o) σ
  = (Ok (), State (<[o:=Arr2 g (take a rows
                                 ++ mutated (rng σ) (rng_calls σ) (take n (drop a rows))
                                 ++ drop (a + n) rows)]> (heap σ))
              (rng_calls σ + n) (rng σ) (uninit σ) (release σ)).
Proof.
  induction n as [|n IH]; intros a σ rows Ho Hrows Hg Han.
  - simpl. unfold mret, M_ret. f_equal. rewrite !Nat.add_0_r, take_drop.
    rewrite insert_id by done. by destruct σ.
  - simpl.
    destruct (lookup_lt_is_Some_2 rows a) as [r Hr]; [lia|].
    pose proof (Forall_lookup_1 _ _ _ _ Hrows Hr) as Hlen. simpl in Hlen.
    erewrite bind_ok; last first.
    { eapply mutate_row_run; [done..| |]; by apply Hg. }
    set (r' := <[4:=_]> r).
    rewrite (IH (S a) _ (<[a:=r']> rows)); simpl.
    + f_equal. f_equal; [|lia].
      rewrite insert_insert_eq. do 2 f_equal.
      rewrite (take_S_r _ _ r') by (by rewrite list_lookup_insert_eq by lia).
      rewrite take_insert_ge by lia.
      rewrite !drop_insert_lt by lia.
      rewrite <- app_assoc. simpl.
      rewrite (drop_S _ _ _ Hr). simpl.
      replace (rng_calls σ + 1) with (S (rng_calls σ)) by lia.
      by replace (a + S n) with (S (a + n)) by lia.
    + by rewrite lookup_insert_eq.
    + apply Forall_insert; [done|]. unfold r'. by rewrite length_insert.
    + intros _. by apply Hg.
    + rewrite length_insert. lia.
Qed.

(** The whole mutation: the same array, every row with its own draw added
    at gene 4, one draw consumed per row.  A pool with a row needs a gene 4
    and a release that stores the one-element array. *)
Lemma mutate_run o σ g rows :
  heap σ !! o = Some (Arr2 g rows) →
  Forall (λ r, length r = g) rows →
  (rows ≠ [] → 4 < g ∧ assigns_one_element (release σ) = true) →
  mutate o σ
  = (Ok o, State (<[o:=Arr2 g (mutated (rng σ) (rng_calls σ) rows)]> (heap σ))
             (rng_calls σ + length rows) (rng σ) (uninit σ) (release σ)).
Proof.
  intros Ho Hrows Hg. unfold mutate.
  rewrite (bind_ok _ _ _ _ _ (shape0_run _ _ _ _ Ho)).
  unfold for_range. rewrite Nat2Z.id.
  erewrite bind_ok; last first.
  { eapply (mutate_loop_run o g (length rows) 0); [done..| |simpl; lia].
    intros Hn. apply Hg. by destruct rows. }
  unfold mret, M_ret. simpl. rewrite firstn_all, drop_all. by rewrite app_nil_r.
Qed.

(** On a release that refuses the one-element array, the assignment of the
    first row fails, after the draw and the read. *)
Lemma mutate_row_refused o idx σ g rows r :
  heap σ !! o = Some (Arr2 g rows) →
  rows !! idx = Some r →
  length r = g →
  4 < g →
  assigns_one_element (release σ) = false →
  mutate_row o idx σ
  = (Raise ValueError,
     State (heap σ) (rng_calls σ + 1) (rng σ) (uninit σ) (release σ)).
Proof.
  intros Ho Hr Hlen Hg Hnp. unfold mutate_row.
  rewrite bind_run. unfold np_random_uniform at 1. simpl.
  destruct (lookup_lt_is_Some_2 r 4) as [x Hx]; [lia|].
  assert (getitem2 o idx 4
            (State (heap σ) (rng_calls σ + 1) (rng σ) (uninit σ) (release σ))
          = (Ok x, State (heap σ) (rng_calls σ + 1) (rng σ) (uninit σ) (release σ)))
    as Hget.
  { unfold getitem2. erewrite bind_ok; [|by apply load_run].
    cbv beta iota. rewrite decide_True by (split; [by eapply lookup_lt_Some|done]).
    rewrite Hr. simpl. by rewrite Hx. }
  rewrite (bind_ok _ _ _ _ _ Hget).
  unfold setitem2. erewrite bind_ok; [|by apply load_run].
  cbv beta iota. rewrite decide_True by (split; [by eapply lookup_lt_Some|done]).
  unfold mbind, M_bind, np_release. simpl. by rewrite Hnp.
Qed.

Lemma mutate_refused_state o σ g rows :
  heap σ !! o = Some (Arr2 g rows) →
  Forall (λ r, length r = g) rows →
  rows ≠ [] →
  4 < g →
  assigns_one_element (release σ) = false →
  mutate o σ
  = (Raise ValueError,
     State (heap σ) (rng_calls σ + 1) (rng σ) (uninit σ) (release σ)).
Proof.
  intros Ho Hrows Hne Hg Hnp. unfold mutate.
  rewrite (bind_ok _ _ _ _ _ (shape0_run _ _ _ _ Ho)).
  unfold for_range. rewrite Nat2Z.id.
  destruct rows as [|r rows]; [done|]. simpl length. rewrite <- cons_seq.
  simpl for_each. rewrite bind_run, (bind_run (mutate_row o 0)).
  rewrite (mutate_row_refused o 0 σ g (r :: rows) r); try done.
  by inversion Hrows.
Qed.

Lemma mutate_oob_state o σ g rows :
  heap σ !! o = Some (Arr2 g rows) →
  rows ≠ [] →
  g ≤ 4 →
  mutate o σ
  = (Raise IndexError, State (heap σ) (rng_calls σ + 1) (rng σ) (uninit σ) (release σ)).
Proof.
  intros Ho Hne Hg. unfold mutate.
  rewrite (bind_ok _ _ _ _ _ (shape0_run _ _ _ _ Ho)).
  unfold for_range. rewrite Nat2Z.id.
  destruct rows as [|r rows]; [done|]. simpl length. rewrite <- cons_seq.
  simpl for_each. rewrite bind_run, (bind_run (mutate_row o 0)).
  unfold mutate_row. rewrite bind_run. unfold np_random_uniform at 1.
  rewrite bind_run. unfold getitem2 at 1.
  erewrite bind_ok; [|by apply load_run].
  cbv beta iota. rewrite decide_False by lia. reflexivity.
Qed.

(** With a row to mutate and no gene 4, the first iteration fails. *)
Lemma mutate_oob o σ g rows :
  heap σ !! o = Some (Arr2 g rows) →
  rows ≠ [] →
  g ≤ 4 →
  (mutate o σ).1 = Raise IndexError.
Proof.
  intros Ho Hne Hg. unfold mutate.
  rewrite (bind_ok _ _ _ _ _ (shape0_run _ _ _ _ Ho)).
  unfold for_range. rewrite Nat2Z.id.
  destruct rows as [|r rows]; [done|]. simpl length. rewrite <- cons_seq.
  simpl for_each. rewrite bind_run, (bind_run (mutate_row o 0)).
  unfold mutate_row. rewrite bind_run. unfold np_random_uniform at 1.
  rewrite bind_run. unfold getitem2 at 1.
  erewrite bind_ok; [|by apply load_run].
  cbv beta iota. rewrite decide_False by lia. done.
Qed.

End mutate_run.

(** ** [evaluate_fitness] and the assignment of row blocks *)

Section fitness_run.
Context {T : Type} `{DType T}.
Implicit Types (σ : state T) (rows : list (list T)) (r e : list T).

Lemma np_sum_take_dot n : ∀ r e,
  n ≤ length r → n ≤ length e →
  np_sum (zip_with dmul (take n r) (take n e)) = dot n r e.
Proof.
  induction n as [|n IH]; intros r e Hr He; [done|].
  destruct (lookup_lt_is_Some_2 r n) as [x Hx]; [lia|].
  destruct (lookup_lt_is_Some_2 e n) as [y Hy]; [lia|].
  rewrite (take_S_r _ _ _ Hx), (take_S_r _ _ _ Hy).
  rewrite zip_with_app by (rewrite !length_take; lia).
  unfold np_sum in *. rewrite foldl_app. simpl.
  rewrite IH by lia.
  by rewrite (nth_lookup_Some _ _ _ _ Hx), (nth_lookup_Some _ _ _ _ Hy).
Qed.

(** Multiply-then-sum over a row is the dot product. *)
Lemma np_sum_dot r e :
  length r = length e → np_sum (zip_with dmul r e) = dot (length e) r e.
Proof.
  intros Hlen. rewrite <- (np_sum_take_dot (length e) r e) by lia.
  rewrite <- Hlen at 1. by rewrite !firstn_all.
Qed.

Lemma evaluate_fitness_run t_eq p σ rows :
  heap σ !! p = Some (Arr2 (length t_eq) rows) →
  evaluate_fitness t_eq p σ
  = (Ok (fresh (dom (heap σ))),
     set_heap (<[fresh (dom (heap σ)):=
                   Arr1 ((λ r, np_sum (zip_with dmul r t_eq)) <$> rows)]> (heap σ)) σ).
Proof.
  intros Hp. unfold evaluate_fitness.
  rewrite (bind_ok _ _ _ _ _ (load_run _ _ _ Hp)). cbv beta iota.
  unfold np_multiply. rewrite decide_True by done.
  rewrite bind_run. unfold mret at 1, M_ret at 1. unfold alloc.
  by rewrite map_map.
Qed.

Lemma setitem_rows_run a lo hi src σ g rows srows :
  heap σ !! a = Some (Arr2 g rows) →
  heap σ !! src = Some (Arr2 g srows) →
  length srows = py_slice_len lo hi (length rows) →
  setitem_rows a lo hi src σ
  = (Ok (), set_heap (<[a:=Arr2 g (py_slice_set lo hi rows srows)]> (heap σ)) σ).
Proof.
  intros Ha Hs Hlen. unfold setitem_rows.
  rewrite (bind_ok _ _ _ _ _ (load_run _ _ _ Ha)).
  rewrite (bind_ok _ _ _ _ _ (load_run _ _ _ Hs)).
  unfold broadcast2. rewrite decide_True by done.
  rewrite bind_run. rewrite (bind_run (mret srows)).
  unfold mret at 1, M_ret at 1. by rewrite (broadcast_same _ _ _ Hlen).
Qed.

End fitness_run.

(** ** Which arrays a computation leaves alone *)

Section frame.
Context {T : Type} `{DType T}.
Implicit Types (σ : state T) (a b : loc).


Lemma preserves_mret {A} a (x : A) : preserves a (mret x : M T A).
Proof. by intros σ. Qed.

Lemma preserves_raise {A} a e : preserves a (raise e : M T A).
Proof. by intros σ. Qed.

Lemma preserves_bind {A B} a (m : M T A) (k : A → M T B) :
  preserves a m → (∀ x, preserves a (k x)) → preserves a (m ≫= k).
Proof.
  intros Hm Hk σ. rewrite bind_run. specialize (Hm σ).
  destruct (m σ) as [[x|e] σ']; simpl in *; [|done].
  by rewrite Hk.
Qed.

Lemma preserves_load a b : preserves a (load b : M T (ndarray T)).
Proof. intros σ. unfold load. by destruct (heap σ !! b). Qed.

Lemma preserves_store a b (v : ndarray T) : a ≠ b → preserves a (store b v).
Proof. intros Hab σ. unfold store; simpl. by rewrite lookup_insert_ne. Qed.

Lemma preserves_for_each a l (body : nat → M T ()) :
  (∀ i, preserves a (body i)) → preserves a (for_each l body).
Proof.
  intros Hbody. induction l as [|i l IH]; simpl.
  - apply preserves_mret.
  - apply preserves_bind; [apply Hbody|by intros _].
Qed.

Lemma preserves_shape0 a b : preserves a (shape0 b : M T nat).
Proof.
  apply preserves_bind; [apply preserves_load|].
  intros [?|? ?]; apply preserves_mret.
Qed.

Lemma preserves_py_mod a i k : preserves a (py_mod i k : M T nat).
Proof.
  unfold py_mod. destruct (decide (k = 0));
    [apply preserves_raise|apply preserves_mret].
Qed.

Lemma preserves_broadcast {A} a n (vals : list A) :
  preserves a (broadcast n vals : M T (list A)).
Proof.
  unfold broadcast. destruct (decide _); [apply preserves_mret|].
  destruct vals as [|x [|??]];
    [apply preserves_raise|apply preserves_mret|apply preserves_raise].
Qed.

Lemma preserves_getitem_row_slice a b i lo hi :
  preserves a (getitem_row_slice b i lo hi : M T (list T)).
Proof.
  apply preserves_bind; [apply preserves_load|].
  intros [?|? rows]; [apply preserves_raise|].
  destruct (rows !! i); [apply preserves_mret|apply preserves_raise].
Qed.

Lemma preserves_setitem_row_slice a b i lo hi (vals : list T) :
  a ≠ b → preserves a (setitem_row_slice b i lo hi vals).
Proof.
  intros Hab. apply preserves_bind; [apply preserves_load|].
  intros [?|? rows]; [apply preserves_raise|].
  destruct (rows !! i); [|apply preserves_raise].
  apply preserves_bind; [apply preserves_broadcast|].
  intros ?. by apply preserves_store.
Qed.

Lemma preserves_np_uint8 a x : preserves a (np_uint8 x : M T Z).
Proof.
  unfold np_uint8. case_decide; [apply preserves_mret|].
  apply preserves_bind; [by intros σ|].
  intros v. destruct (uint8_wraps v); [apply preserves_mret|apply preserves_raise].
Qed.

(** Filling one offspring row writes to the offspring array only. *)
Lemma preserves_crossover_row a p o c i :
  a ≠ o → preserves a (crossover_row p o c i : M T ()).
Proof.
  intros Hao. unfold crossover_row.
  repeat first
    [ apply preserves_shape0
    | apply preserves_py_mod
    | apply preserves_getitem_row_slice
    | by apply preserves_setitem_row_slice
    | apply preserves_bind; [|intros ?] ].
Qed.

(** Every array that exists before the call is the same after it. *)
Lemma crossover_frame p t_size σ a :
  a ∈ dom (heap σ) → heap (crossover p t_size σ).2 !! a = heap σ !! a.
Proof.
  intros Ha. unfold crossover. rewrite bind_run.
  unfold np_empty. destruct (decide _) as [Hsz|Hsz]; [|done].
  unfold alloc. set (o := fresh (dom (heap σ))).
  assert (a ≠ o) as Hao by (intros ->; by apply (is_fresh (dom (heap σ)))).
  assert (preserves a (c ← np_uint8 (t_size.2 ÷ 2);
                       for_range t_size.1 (crossover_row p o (Z.to_nat c));;
                       (mret o : M T loc))) as Hrest.
  { apply preserves_bind; [apply preserves_np_uint8|intros c].
    apply preserves_bind; [|intros []; apply preserves_mret].
    apply preserves_for_each. intros i. by apply preserves_crossover_row. }
  cbv beta iota. rewrite Hrest. simpl. by rewrite lookup_insert_ne.
Qed.

(** The array returned is one that did not exist before. *)
Lemma crossover_fresh p t_size σ l :
  (crossover p t_size σ).1 = Ok l → l ∉ dom (heap σ).
Proof.
  unfold crossover. rewrite bind_run.
  unfold np_empty. destruct (decide _) as [Hsz|Hsz]; [|done].
  unfold alloc. cbv beta iota. rewrite bind_run.
  match goal with |- context [np_uint8 ?x ?s] =>
    destruct (np_uint8 x s) as [[c|e] σ1] end; [|done].
  rewrite bind_run.
  match goal with |- context [for_range ?n ?b ?s] =>
    destruct (for_range n b s) as [[[]|e] σ'] end; simpl; [|done].
  intros [= <-]. apply is_fresh.
Qed.

End frame.

(** ** The release stays the same *)

Section release.
Context {T : Type} `{DType T}.
Implicit Types (σ : state T).

Lemma keeps_release_bind {A B} (m : M T A) (k : A → M T B) :
  keeps_release m → (∀ x, keeps_release (k x)) → keeps_release (m ≫= k).
Proof.
  intros Hm Hk σ. rewrite bind_run. specialize (Hm σ).
  destruct (m σ) as [[x|e] σ']; simpl in *; [|done].
  by rewrite Hk.
Qed.

Lemma keeps_release_for_each l (body : nat → M T ()) :
  (∀ i, keeps_release (body i)) → keeps_release (for_each l body).
Proof.
  intros Hbody. induction l as [|i l IH]; simpl.
  - by intros ?.
  - apply keeps_release_bind; [apply Hbody|by intros _].
Qed.

End release.

Ltac keeps_release_step :=
  first
    [ match goal with
      | |- keeps_release (mret _) => by intros ?
      | |- keeps_release (raise _) => by intros ?
      | |- keeps_release np_release => by intros ?
      | |- keeps_release (load _) => intros ?; unfold load; by case_match
      | |- keeps_release (store _ _) => by intros ?
      | |- keeps_release (alloc _) => by intros ?
      | |- keeps_release (np_random_uniform _ _ _) => by intros ?
      | |- keeps_release (np_empty _) => intros ?; unfold np_empty; by case_decide
      | |- keeps_release (for_each _ _) => apply keeps_release_for_each; intros ?
      | |- keeps_release (match ?x with _ => _ end) => destruct x
      | |- keeps_release (if ?x then _ else _) => destruct x
      end
    | apply keeps_release_bind; [|intros ?] ].

Section release_program.
Context {T : Type} `{DType T}.
Implicit Types (σ : state T).

Lemma keeps_release_evaluate_fitness (t_eq : list T) p :
  keeps_release (evaluate_fitness t_eq p).
Proof. unfold evaluate_fitness, np_multiply. repeat keeps_release_step. Qed.

Lemma keeps_release_make_selection p f (k : Z) :
  keeps_release (make_selection p f k : M T loc).
Proof.
  unfold make_selection, shape1, for_range, select_one, np_max,
    np_where_eq_first, getitem_row_slice, setitem_row_slice, setitem1, broadcast.
  repeat keeps_release_step.
Qed.

Lemma keeps_release_crossover p (t_size : Z * Z) :
  keeps_release (crossover p t_size : M T loc).
Proof.
  unfold crossover, np_uint8, for_range, crossover_row, shape0, py_mod,
    getitem_row_slice, setitem_row_slice, broadcast.
  repeat keeps_release_step.
Qed.

Lemma keeps_release_mutate o : keeps_release (mutate o : M T loc).
Proof.
  unfold mutate, shape0, for_range, mutate_row, getitem2, setitem2.
  repeat keeps_release_step.
Qed.

Lemma keeps_release_make_initial_population t_size (lo hi : T) :
  keeps_release (make_initial_population t_size lo hi).
Proof. unfold make_initial_population. repeat keeps_release_step. Qed.

Lemma keeps_release_setitem_rows a lo hi src :
  keeps_release (setitem_rows a lo hi src : M T ()).
Proof. unfold setitem_rows, broadcast2, broadcast. repeat keeps_release_step. Qed.

Lemma keeps_release_generation (t_eq : list T) weights pop_size k pop :
  keeps_release (generation t_eq weights pop_size k pop).
Proof.
  unfold generation.
  repeat first
    [ apply keeps_release_evaluate_fitness
    | apply keeps_release_make_selection
    | apply keeps_release_crossover
    | apply keeps_release_mutate
    | apply keeps_release_setitem_rows
    | apply keeps_release_bind; [|intros ?] ];
    unfold shape0; repeat keeps_release_step.
Qed.

End release_program.

(** ** One generation *)

Section generation_run.
Context {T : Type} `{DTypeOrder T}.
Implicit Types (σ : state T) (rows : list (list T)) (r : list T).

Lemma child_length rows c i g :
  rows ≠ [] → Forall (λ r, length r = g) rows → length (child rows c i) = g.
Proof.
  intros Hne Hrows. unfold child.
  assert (length rows ≠ 0) as Hk by (by destruct rows).
  destruct (lookup_lt_is_Some_2 rows (i `mod` length rows)) as [r1 Hr1];
    [by apply Nat.mod_upper_bound|].
  destruct (lookup_lt_is_Some_2 rows ((i + 1) `mod` length rows)) as [r2 Hr2];
    [by apply Nat.mod_upper_bound|].
  rewrite (list_lookup_total_correct _ _ _ Hr1).
  rewrite (list_lookup_total_correct _ _ _ Hr2).
  pose proof (Forall_lookup_1 _ _ _ _ Hrows Hr1) as Hl1.
  pose proof (Forall_lookup_1 _ _ _ _ Hrows Hr2) as Hl2.
  simpl in Hl1, Hl2.
  rewrite length_app, length_take, length_drop. lia.
Qed.

(** Each selected row is a row of the population. *)
Lemma chosen_rows_elem rows (fit : list T) n r :
  length fit = length rows →
  r ∈ (rows !!!.) <$> chosen n fit → r ∈ rows.
Proof.
  intros Hlen (i & -> & Hi)%list_elem_of_fmap.
  apply chosen_lt in Hi. apply list_elem_of_lookup. exists i.
  apply list_lookup_lookup_total_lt. lia.
Qed.

Lemma chosen_rows_wf rows (fit : list T) n g :
  length fit = length rows →
  Forall (λ r, length r = g) rows →
  Forall (λ r, length r = g) ((rows !!!.) <$> chosen n fit).
Proof.
  intros Hlen Hrows. apply Forall_forall. intros r Hr.
  apply (proj1 (Forall_forall _ _) Hrows). by eapply chosen_rows_elem.
Qed.

Lemma mutated_wf gen k rows g :
  Forall (λ r, length r = g) rows →
  Forall (λ r, length r = g) (mutated gen k rows).
Proof.
  intros Hrows. revert k. induction Hrows as [|r rows Hr _ IH]; intros k; simpl.
  - constructor.
  - constructor; [by rewrite length_insert|apply IH].
Qed.

Lemma generation_run t_eq (k : nat) pop σ rows :
  let g := length t_eq in
  let fit := (λ r, np_sum (zip_with dmul r t_eq)) <$> rows in
  let prows := (rows !!!.) <$> chosen k fit in
  let t_size := (Z.of_nat (length rows) - Z.of_nat k, Z.of_nat g)%Z in
  let orows := child prows (crossover_point t_size) <$> seq 0 (length rows - k) in
  heap σ !! pop = Some (Arr2 g rows) →
  Forall (λ r, length r = g) rows →
  1 ≤ k ≤ length rows →
  (k < length rows → 4 < g) →
  (k < length rows → assigns_one_element (release σ) = true) →
  g < 512 ∨ uint8_wraps (release σ) = true →
  ∃ σ1 σ2 σ3 σ4 σ' fitness parents offspring,
    evaluate_fitness t_eq pop σ = (Ok fitness, σ1)
    ∧ make_selection pop fitness (Z.of_nat k) σ1 = (Ok parents, σ2)
    ∧ heap σ2 !! parents = Some (Arr2 g prows)
    ∧ crossover parents t_size σ2 = (Ok offspring, σ3)
    ∧ heap σ3 !! offspring = Some (Arr2 g orows)
    ∧ mutate offspring σ3 = (Ok offspring, σ4)
    ∧ heap σ4 !! offspring = Some (Arr2 g (mutated (rng σ) (rng_calls σ) orows))
    ∧ generation t_eq (Z.of_nat g) (Z.of_nat (length rows), Z.of_nat g)
        (Z.of_nat k) pop σ = (Ok (), σ')
    ∧ heap σ' !! pop = Some (Arr2 g (prows ++ mutated (rng σ) (rng_calls σ) orows))
    ∧ heap σ' !! parents = Some (Arr2 g prows)
    ∧ heap σ' !! offspring = Some (Arr2 g (mutated (rng σ) (rng_calls σ) orows)).
Proof.
  intros g fit prows t_size orows Hpop Hrows Hk Hg Hnp Hcut.
  assert (length fit = length rows) as Hfit by (unfold fit; by rewrite length_fmap).
  assert (fit ≠ []) as Hfne by (intros Hnil; rewrite Hnil in Hfit; simpl in Hfit; lia).
  assert (length prows = k) as Hprows.
  { unfold prows. by rewrite length_fmap, chosen_length. }
  assert (prows ≠ []) as Hpne by (intros Hnil; rewrite Hnil in Hprows; simpl in Hprows; lia).
  pose proof (chosen_rows_wf rows fit k g Hfit Hrows) as Hpwf. fold prows in Hpwf.
  assert (length orows = length rows - k) as Horows.
  { unfold orows. by rewrite length_fmap, length_seq. }
  assert (Forall (λ r, length r = g) orows) as Howf.
  { unfold orows. apply Forall_fmap, Forall_forall. intros i _.
    by apply child_length. }
  (* the fitness vector *)
  pose proof (evaluate_fitness_run t_eq pop σ rows Hpop) as E1.
  set (l1 := fresh (dom (heap σ))) in E1. fold fit in E1.
  set (σ1 := set_heap _ σ) in E1.
  assert (pop ≠ l1) as Hp1 by (by eapply fresh_ne).
  assert (heap σ1 !! pop = Some (Arr2 g rows)) as Hpop1
    by (simpl; by rewrite lookup_insert_ne).
  assert (heap σ1 !! l1 = Some (Arr1 fit)) as Hfit1
    by (simpl; by rewrite lookup_insert_eq).
  (* the parents *)
  pose proof (make_selection_run pop l1 (Z.of_nat k) σ1 g rows fit
                Hpop1 Hfit1 Hrows Hfit Hfne (Nat2Z.is_nonneg k)) as E2.
  rewrite Nat2Z.id in E2. fold prows in E2.
  set (l2 := fresh (dom (heap σ1))) in E2.
  set (σ2 := set_heap _ σ1) in E2.
  assert (pop ≠ l2) as Hp2 by (by eapply fresh_ne).
  assert (l1 ≠ l2) as H12 by (by eapply fresh_ne).
  assert (heap σ2 !! pop = Some (Arr2 g rows)) as Hpop2
    by (simpl; by rewrite !lookup_insert_ne).
  assert (heap σ2 !! l2 = Some (Arr2 g prows)) as Hpar2.
  { simpl. rewrite lookup_insert_ne by done. by rewrite lookup_insert_eq. }
  (* the offspring *)
  assert (heap σ2 !! l2 = Some (Arr2 (Z.to_nat (Z.of_nat g)) prows)) as Hpar2'
    by (by rewrite Nat2Z.id).
  pose proof (crossover_run l2 (Z.of_nat (length rows) - Z.of_nat k) (Z.of_nat g)
                σ2 prows Hpar2' Hpne) as E3.
  rewrite Nat2Z.id in E3.
  specialize (E3 Hpwf ltac:(lia) ltac:(lia)
                ltac:(destruct Hcut; [left; lia|by right])).
  fold t_size in E3.
  replace (Z.to_nat (Z.of_nat (length rows) - Z.of_nat k)) with (length rows - k)
    in E3 by lia.
  fold orows in E3.
  set (l3 := fresh (dom (heap σ2))) in E3.
  set (σ3 := set_heap _ σ2) in E3.
  assert (pop ≠ l3) as Hp3 by (by eapply fresh_ne).
  assert (l2 ≠ l3) as H23 by (by eapply fresh_ne).
  assert (heap σ3 !! l3 = Some (Arr2 g orows)) as Hoff3
    by (simpl; by rewrite lookup_insert_eq).
  (* the mutation *)
  pose proof (mutate_run l3 σ3 g orows Hoff3 Howf) as E4.
  assert (orows ≠ [] → 4 < g ∧ assigns_one_element (release σ3) = true) as Hg'.
  { intros Hone.
    assert (k < length rows) by (destruct orows; [done|]; simpl in Horows; lia).
    split; [by apply Hg|by apply Hnp]. }
  specialize (E4 Hg'). simpl rng in E4. simpl rng_calls in E4.
  set (mrows := mutated (rng σ) (rng_calls σ) orows) in *.
  set (σ4 := State _ _ _ _ _) in E4.
  assert (length mrows = length rows - k) as Hmrows
    by (unfold mrows; by rewrite mutated_length).
  assert (heap σ4 !! pop = Some (Arr2 g rows)) as Hpop4
    by (simpl; by rewrite !lookup_insert_ne).
  assert (heap σ4 !! l2 = Some (Arr2 g prows)) as Hpar4.
  { simpl. rewrite !(lookup_insert_ne _ l3) by done.
    rewrite lookup_insert_ne by done. by rewrite lookup_insert_eq. }
  assert (heap σ4 !! l3 = Some (Arr2 g mrows)) as Hoff4
    by (simpl; by rewrite lookup_insert_eq).
  (* the two block assignments *)
  pose proof (setitem_rows_run pop 0 (Some k) l2 σ4 g rows prows Hpop4 Hpar4) as E5.
  rewrite py_slice_len_prefix, py_slice_set_prefix in E5.
  specialize (E5 ltac:(lia)).
  set (σ5 := set_heap _ σ4) in E5.
  assert (heap σ5 !! pop = Some (Arr2 g (prows ++ drop k rows))) as Hpop5
    by (simpl; by rewrite lookup_insert_eq).
  assert (heap σ5 !! l2 = Some (Arr2 g prows)) as Hpar5
    by (simpl; by rewrite lookup_insert_ne).
  assert (heap σ5 !! l3 = Some (Arr2 g mrows)) as Hoff5
    by (simpl; by rewrite lookup_insert_ne).
  pose proof (setitem_rows_run pop k None l3 σ5 g _ mrows Hpop5 Hoff5) as E6.
  rewrite py_slice_len_suffix, py_slice_set_suffix in E6.
  rewrite length_app, length_drop in E6. specialize (E6 ltac:(lia)).
  rewrite take_app_length' in E6 by done.
  exists σ1, σ2, σ3, σ4, (set_heap (<[pop:=Arr2 g (prows ++ mrows)]> (heap σ5)) σ5),
    l1, l2, l3.
  split_and!; try done.
  - unfold generation.
    rewrite (bind_ok _ _ _ _ _ E1), (bind_ok _ _ _ _ _ E2).
    rewrite (bind_ok _ _ _ _ _ (shape0_run _ _ _ _ Hpar2)).
    simpl fst. rewrite Hprows.
    rewrite (bind_ok _ _ _ _ _ E3), (bind_ok _ _ _ _ _ E4).
    rewrite (bind_ok _ _ _ _ _ (shape0_run _ _ _ _ Hpar4)). rewrite Hprows.
    rewrite (bind_ok _ _ _ _ _ E5).
    rewrite (bind_ok _ _ _ _ _ (shape0_run _ _ _ _ Hpar5)). rewrite Hprows.
    exact E6.
  - simpl. by rewrite lookup_insert_eq.
  - simpl heap at 1. by rewrite lookup_insert_ne.
  - simpl heap at 1. by rewrite lookup_insert_ne.
Qed.

End generation_run.

(** * The selector *)

Section selection_claims.
Context {T : Type} `{DTypeOrder T}.
Implicit Types (σ : state T) (rows : list (list T)) (fit : list T).

Lemma overwrite_length fit picked : length (overwrite fit picked) = length fit.
Proof.
  revert fit. induction picked as [|i picked IH]; intros fit; simpl; [done|].
  unfold overwrite in *. simpl. by rewrite IH, length_insert.
Qed.

(** The [m]-th pick is the first maximum of the vector as the [m] picks
    before it left it. *)
Lemma chosen_lookup n : ∀ fit m i,
  chosen n fit !! m = Some i →
  first_max (overwrite fit (take m (chosen n fit))) = Some i.
Proof.
  induction n as [|n IH]; intros fit m i; simpl; [done|].
  destruct (first_max fit) as [i0|] eqn:Hi0; [|done].
  destruct m as [|m]; simpl.
  - by intros [= <-].
  - intros Hm. by apply IH.
Qed.

(** C3. In every iteration of [make_selection] the index chosen is the
    lowest index at which the current fitness vector holds its maximum.
    The call as a whole: [picked] lists the indices in the order chosen; the
    vector iteration [n] works on is the given one with the sentinel written
    at the [n] indices picked before; the index picked then is the lowest
    maximum of that vector; its row fills slot [n] of the parents.  And the
    body of the loop, in any state in which it may run: the index whose row
    it copies to its slot and whose fitness it overwrites is the lowest
    maximum of the fitness vector found in the store. *)
Theorem make_selection_first_max p f (k : Z) σ g rows fit :
  heap σ !! p = Some (Arr2 g rows) →
  heap σ !! f = Some (Arr1 fit) →
  Forall (λ r, length r = g) rows →
  length fit = length rows →
  fit ≠ [] →
  (0 ≤ k)%Z →
  (∃ s σ' picked,
     make_selection p f k σ = (Ok s, σ')
     ∧ length picked = Z.to_nat k
     ∧ heap σ' !! s = Some (Arr2 g ((rows !!!.) <$> picked))
     ∧ heap σ' !! f = Some (Arr1 (overwrite fit picked))
     ∧ ∀ n i, picked !! n = Some i → lowest_max (overwrite fit (take n picked)) i)
  ∧ (∀ s idx σi cur srows sr,
       heap σi !! p = Some (Arr2 g rows) →
       heap σi !! f = Some (Arr1 cur) →
       heap σi !! s = Some (Arr2 g srows) →
       srows !! idx = Some sr →
       length sr = g →
       length cur = length rows →
       ∃ i r σi',
         lowest_max cur i
         ∧ rows !! i = Some r
         ∧ select_one p f s idx σi = (Ok (), σi')
         ∧ heap σi' !! s = Some (Arr2 g (<[idx:=r]> srows))
         ∧ heap σi' !! f = Some (Arr1 (<[i:=sentinel]> cur))).
Proof.
  intros Hp Hf Hrows Hlen Hne Hk. split.
  - eexists _, _, (chosen (Z.to_nat k) fit). split_and!.
    + by eapply make_selection_run.
    + by apply chosen_length.
    + simpl. rewrite lookup_insert_ne by exact (fresh_ne _ _ _ Hf).
      by rewrite lookup_insert_eq.
    + simpl. by rewrite lookup_insert_eq.
    + intros n i Hn. apply chosen_lookup in Hn.
      destruct (first_max_spec (overwrite fit (take n (chosen (Z.to_nat k) fit))))
        as (i' & x & Hi' & Hx & Hub & Hlow).
      { intros Hnil. apply (f_equal length) in Hnil.
        rewrite overwrite_length in Hnil. by destruct fit. }
      rewrite Hn in Hi'. injection Hi' as <-. by exists x.
  - intros s idx σi cur srows sr Hpi Hfi Hsi Hsr Hsrlen Hcur.
    assert (cur ≠ []) as Hcne by (intros ->; by destruct fit, rows).
    destruct (first_max_spec cur Hcne) as (i & x & Hi & Hx & Hub & Hlow).
    pose proof (first_max_lt _ _ Hi) as Hilt.
    destruct (lookup_lt_is_Some_2 rows i) as [r Hr]; [lia|].
    pose proof (Forall_lookup_1 _ _ _ _ Hrows Hr) as Hrlen. simpl in Hrlen.
    eexists i, r, _. split_and!.
    + by exists x.
    + done.
    + eapply select_one_run; [done..|lia].
    + simpl. rewrite lookup_insert_ne by (intros ->; congruence).
      by rewrite lookup_insert_eq.
    + simpl. by rewrite lookup_insert_eq.
Qed.

(** C9. Every row of the array [make_selection] returns is a row of the
    population it was given, however many parents are asked for; the call
    returns whenever the population has a row, and fails in [np.max] when
    it has none. *)
Theorem make_selection_rows_from_population p f (k : Z) σ g rows fit :
  heap σ !! p = Some (Arr2 g rows) →
  heap σ !! f = Some (Arr1 fit) →
  Forall (λ r, length r = g) rows →
  length fit = length rows →
  (1 ≤ k)%Z →
  (rows ≠ [] →
     ∃ s σ' srows,
       make_selection p f k σ = (Ok s, σ')
       ∧ heap σ' !! s = Some (Arr2 g srows)
       ∧ length srows = Z.to_nat k
       ∧ ∀ r, r ∈ srows → r ∈ rows)
  ∧ (rows = [] → (make_selection p f k σ).1 = Raise ValueError).
Proof.
  intros Hp Hf Hrows Hlen Hk. split.
  - intros Hne.
    assert (fit ≠ []) as Hfne by (intros ->; by destruct rows).
    eexists _, _, _. split_and!.
    + eapply make_selection_run; [done..|lia].
    + simpl. rewrite lookup_insert_ne by exact (fresh_ne _ _ _ Hf).
      by rewrite lookup_insert_eq.
    + by rewrite length_fmap, chosen_length.
    + intros r Hr. by eapply chosen_rows_elem.
  - intros ->. destruct fit; [|done]. by eapply make_selection_empty.
Qed.

End selection_claims.

(** * The crossover operator *)

Section crossover_claims.
Context {T : Type} `{DType T}.
Implicit Types (σ : state T) (rows orows : list (list T)).

(** Below 512 genes the eight bits hold the half of the gene count. *)
Lemma crossover_point_half (m : Z) (g : nat) :
  g < 512 → crossover_point (m, Z.of_nat g) = g / 2.
Proof.
  intros Hg. unfold crossover_point. simpl.
  rewrite Z.quot_div_nonneg by lia.
  rewrite Z.mod_small.
  - change 2%Z with (Z.of_nat 2). rewrite <- (Nat2Z.inj_div g 2). apply Nat2Z.id.
  - split; [apply Z.div_pos; lia|]. apply Z.div_lt_upper_bound; lia.
Qed.

Lemma crossover_result p (m g : nat) σ rows :
  heap σ !! p = Some (Arr2 g rows) →
  rows ≠ [] →
  Forall (λ r, length r = g) rows →
  g < 512 ∨ uint8_wraps (release σ) = true →
  ∃ l σ',
    crossover p (Z.of_nat m, Z.of_nat g) σ = (Ok l, σ')
    ∧ heap σ' !! l
      = Some (Arr2 g (child rows (crossover_point (Z.of_nat m, Z.of_nat g))
                        <$> seq 0 m)).
Proof.
  intros Hp Hne Hrows Hcut.
  pose proof (crossover_run p (Z.of_nat m) (Z.of_nat g) σ rows) as E.
  rewrite !Nat2Z.id in E.
  specialize (E Hp Hne Hrows (Nat2Z.is_nonneg m) (Nat2Z.is_nonneg g)
                ltac:(destruct Hcut; [left; lia|by right])).
  eexists _, _. split; [exact E|]. simpl. by rewrite lookup_insert_eq.
Qed.

(** X22.  Below 512 genes, where eight bits hold [g / 2], and on every
    release, the crossover is the one-point crossover at the middle: for a
    parent pool that is not empty, [crossover] returns [m] offspring of [g]
    genes; offspring [i] has the genes of parent [i mod K] below [g / 2]
    and the genes of parent [(i + 1) mod K] from [g / 2] on; and any other
    call on a parent pool of the same contents, in whatever state, returns
    the same offspring. *)
Theorem crossover_one_point p (m g : nat) σ rows :
  heap σ !! p = Some (Arr2 g rows) →
  rows ≠ [] →
  Forall (λ r, length r = g) rows →
  g < 512 →
  ∃ l σ' orows,
    crossover p (Z.of_nat m, Z.of_nat g) σ = (Ok l, σ')
    ∧ heap σ' !! l = Some (Arr2 g orows)
    ∧ length orows = m
    ∧ (∀ i orow, orows !! i = Some orow →
         length orow = g
         ∧ (∀ j, j < g / 2 →
              orow !! j = (rows !!! (i `mod` length rows)) !! j)
         ∧ (∀ j, g / 2 ≤ j < g →
              orow !! j = (rows !!! ((i + 1) `mod` length rows)) !! j))
    ∧ (∀ σ2 p2, heap σ2 !! p2 = Some (Arr2 g rows) →
         ∃ l2 σ2',
           crossover p2 (Z.of_nat m, Z.of_nat g) σ2 = (Ok l2, σ2')
           ∧ heap σ2' !! l2 = Some (Arr2 g orows)).
Proof.
  intros Hp Hne Hrows Hg.
  destruct (crossover_result p m g σ rows Hp Hne Hrows (or_introl Hg))
    as (l & σ' & E & Hl).
  rewrite crossover_point_half in Hl by done.
  exists l, σ', (child rows (g / 2) <$> seq 0 m). split_and!; [done..| | |].
  - by rewrite length_fmap, length_seq.
  - intros i orow Hi. apply list_lookup_fmap_Some in Hi as (i' & -> & Hi').
    apply lookup_seq in Hi' as [-> Him]. change (0 + i) with i.
    assert (length rows ≠ 0) as Hk by (by destruct rows).
    destruct (lookup_lt_is_Some_2 rows (i `mod` length rows)) as [r1 Hr1];
      [by apply Nat.mod_upper_bound|].
    destruct (lookup_lt_is_Some_2 rows ((i + 1) `mod` length rows)) as [r2 Hr2];
      [by apply Nat.mod_upper_bound|].
    pose proof (Forall_lookup_1 _ _ _ _ Hrows Hr1) as Hl1.
    pose proof (Forall_lookup_1 _ _ _ _ Hrows Hr2) as Hl2.
    simpl in Hl1, Hl2.
    assert (g / 2 ≤ g) as Hc by (apply Nat.Div0.div_le_upper_bound; lia).
    split_and!.
    + unfold child. rewrite (list_lookup_total_correct _ _ _ Hr1).
      rewrite (list_lookup_total_correct _ _ _ Hr2).
      rewrite length_app, length_take, length_drop. lia.
    + intros j Hj. unfold child.
      rewrite (list_lookup_total_correct _ _ _ Hr1).
      rewrite lookup_app_l by (rewrite length_take; lia).
      by rewrite lookup_take_lt.
    + intros j Hj. unfold child.
      rewrite (list_lookup_total_correct _ _ _ Hr1).
      rewrite (list_lookup_total_correct _ _ _ Hr2).
      rewrite lookup_app_r by (rewrite length_take; lia).
      rewrite length_take, lookup_drop. f_equal. lia.
  - intros σ2 p2 Hp2.
    destruct (crossover_result p2 m g σ2 rows Hp2 Hne Hrows (or_introl Hg))
      as (l2 & σ2' & E2 & Hl2).
    rewrite crossover_point_half in Hl2 by done. eauto.
Qed.

(** C10. [crossover] never writes to the parent pool: whatever the pool
    and the shape asked for, and whether the call returns or raises, the
    parent array (like every array that exists before the call) is the
    same after it, and the array returned is a new one. *)
Theorem crossover_preserves_parents p t_size σ v :
  heap σ !! p = Some v →
  heap (crossover p t_size σ).2 !! p = Some v
  ∧ (∀ a, a ∈ dom (heap σ) → heap (crossover p t_size σ).2 !! a = heap σ !! a)
  ∧ (∀ l, (crossover p t_size σ).1 = Ok l → (l ∉ dom (heap σ)) ∧ l ≠ p).
Proof.
  intros Hp.
  assert (p ∈ dom (heap σ)) as Hdom by (apply elem_of_dom; eauto).
  split_and!.
  - by rewrite crossover_frame.
  - intros a Ha. by apply crossover_frame.
  - intros l Hl. pose proof (crossover_fresh _ _ _ _ Hl) as Hfresh.
    split; [done|]. by intros ->.
Qed.

End crossover_claims.

(** * The mutation operator *)

Section mutate_claims.
Context {T : Type} `{DTypeOrder T}.
Implicit Types (σ : state T) (rows : list (list T)) (r : list T).

Lemma mutated_lookup gen rows : ∀ k i,
  mutated gen k rows !! i
  = (λ r, <[4:=dadd (nth 4 r d0) (gen (k + i) (of_int (-1)) (of_int 1))]> r)
      <$> rows !! i.
Proof.
  induction rows as [|r rows IH]; intros k i; [done|].
  destruct i as [|i]; simpl.
  - by rewrite Nat.add_0_r.
  - rewrite IH. by replace (S k + i) with (k + S i) by lia.
Qed.


(** C5. On an offspring pool with at least five genes, and on a NumPy
    release that stores the one-element array of line 33 (up to 2.3; from
    2.4 on the assignment raises a value error), [mutate] returns the
    array it was given, updated in place: every row [i] gets
    gene 4 replaced by its old value plus the draw made for that row (draw
    number [i] after those made before the call, asked for the bounds -1
    and 1, so within them), every other gene of the row is what it was, and
    no other array changes. *)
Theorem mutate_gene_4_only o σ g rows :
  heap σ !! o = Some (Arr2 g rows) →
  Forall (λ r, length r = g) rows →
  5 ≤ g →
  rng_in_bounds σ →
  assigns_one_element (release σ) = true →
  ∃ σ' rows',
    mutate o σ = (Ok o, σ')
    ∧ heap σ' !! o = Some (Arr2 g rows')
    ∧ (∀ a, a ≠ o → heap σ' !! a = heap σ !! a)
    ∧ length rows' = length rows
    ∧ rng_calls σ' = rng_calls σ + length rows
    ∧ ∀ i r, rows !! i = Some r →
        ∃ r' x d,
          rows' !! i = Some r'
          ∧ length r' = g
          ∧ d = rng σ (rng_calls σ + i) (of_int (-1)) (of_int 1)
          ∧ dleb (of_int (-1)) d = true ∧ dleb d (of_int 1) = true
          ∧ r !! 4 = Some x
          ∧ r' !! 4 = Some (dadd x d)
          ∧ ∀ j, j ≠ 4 → r' !! j = r !! j.
Proof.
  intros Ho Hrows Hg Hrng Hnp.
  eexists _, _. split_and!.
  - apply (mutate_run o σ g rows Ho Hrows). intros _. split; [lia|done].
  - simpl. by rewrite lookup_insert_eq.
  - intros a Ha. simpl. by rewrite lookup_insert_ne.
  - apply mutated_length.
  - done.
  - intros i r Hr.
    pose proof (Forall_lookup_1 _ _ _ _ Hrows Hr) as Hlen. simpl in Hlen.
    destruct (lookup_lt_is_Some_2 r 4) as [x Hx]; [lia|].
    destruct (Hrng (rng_calls σ + i) (of_int (-1)) (of_int 1)) as [Hlo Hhi];
      [by apply of_int_mono|].
    eexists _, x, _. split_and!.
    + rewrite mutated_lookup, Hr. reflexivity.
    + by rewrite length_insert.
    + reflexivity.
    + done.
    + done.
    + done.
    + rewrite (nth_lookup_Some _ _ _ _ Hx). apply list_lookup_insert_eq. lia.
    + intros j Hj. by apply list_lookup_insert_ne.
Qed.

(** C6, for an offspring pool that has a row.  On every release [mutate]
    fails with an index error exactly when there are at most four genes.
    With at least five genes it returns (the array it was given) exactly on
    a release that stores the one-element array of line 33 (up to NumPy
    2.3), and raises a value error, which is no out-of-bounds error,
    exactly on a release that refuses it (from NumPy 2.4 on). *)
Theorem mutate_out_of_bounds_iff o σ g rows :
  heap σ !! o = Some (Arr2 g rows) →
  Forall (λ r, length r = g) rows →
  rows ≠ [] →
  ((mutate o σ).1 = Raise IndexError ↔ g ≤ 4)
  ∧ ((mutate o σ).1 = Ok o
     ↔ 5 ≤ g ∧ assigns_one_element (release σ) = true)
  ∧ ((mutate o σ).1 = Raise ValueError
     ↔ 5 ≤ g ∧ assigns_one_element (release σ) = false).
Proof.
  intros Ho Hrows Hne. destruct (decide (g ≤ 4)) as [Hg|Hg].
  - pose proof (mutate_oob o σ g rows Ho Hne Hg) as E. rewrite E.
    split_and!; split; try done; lia.
  - destruct (assigns_one_element (release σ)) eqn:Hnp.
    + rewrite (mutate_run o σ g rows Ho Hrows)
        by (intros _; split; [lia|done]).
      simpl. split_and!; split; try done; try lia; by intros [_ ?].
    + rewrite (mutate_refused_state o σ g rows Ho Hrows Hne) by (lia || done).
      simpl. split_and!; split; try done; try lia; by intros [_ ?].
Qed.

End mutate_claims.

(** * The fitness evaluator *)

Section fitness_claims.
Context {T : Type} `{DType T}.
Implicit Types (σ : state T) (rows : list (list T)).

(** For an equation as long as the rows, [evaluate_fitness] returns a new
    vector with one entry per row, the dot product of the row with the
    equation, and leaves every array that existed as it was. *)
Lemma evaluate_fitness_spec (t_eq : list T) p σ rows :
  heap σ !! p = Some (Arr2 (length t_eq) rows) →
  Forall (λ r, length r = length t_eq) rows →
  ∃ l σ' fit,
    evaluate_fitness t_eq p σ = (Ok l, σ')
    ∧ (l ∉ dom (heap σ))
    ∧ heap σ' !! l = Some (Arr1 fit)
    ∧ length fit = length rows
    ∧ (∀ i r, rows !! i = Some r → fit !! i = Some (dot (length t_eq) r t_eq))
    ∧ heap σ' !! p = Some (Arr2 (length t_eq) rows)
    ∧ (∀ a, a ∈ dom (heap σ) → heap σ' !! a = heap σ !! a).
Proof.
  intros Hp Hrows. eexists _, _, _. split_and!.
  - by apply evaluate_fitness_run.
  - apply is_fresh.
  - simpl. by rewrite lookup_insert_eq.
  - by rewrite length_fmap.
  - intros i r Hr. rewrite list_lookup_fmap, Hr. simpl. f_equal.
    apply np_sum_dot. exact (Forall_lookup_1 _ _ _ _ Hrows Hr).
  - simpl. rewrite lookup_insert_ne; [done|].
    intros Heq. by rewrite <- Heq, fresh_lookup in Hp.
  - intros a Ha. simpl. rewrite lookup_insert_ne; [done|].
    intros <-. by apply (is_fresh (dom (heap σ))).
Qed.

End fitness_claims.

(** * The generational loop *)

Section loop_claims.
Context {T : Type} `{DTypeOrder T}.
Implicit Types (σ : state T) (rows : list (list T)).

(** Any number of generations keeps a well-formed population of the same
    shape at the same location. *)
Lemma generations_run t_eq (k P : nat) pop n : ∀ a σ rows,
  heap σ !! pop = Some (Arr2 (length t_eq) rows) →
  Forall (λ r, length r = length t_eq) rows →
  length rows = P →
  1 ≤ k ≤ P →
  (k < P → 5 ≤ length t_eq) →
  (k < P → assigns_one_element (release σ) = true) →
  length t_eq < 512 ∨ uint8_wraps (release σ) = true →
  ∃ σ' rows',
    for_each (seq a n)
      (λ gen, generation t_eq (Z.of_nat (length t_eq))
                (Z.of_nat P, Z.of_nat (length t_eq)) (Z.of_nat k) pop) σ
    = (Ok (), σ')
    ∧ heap σ' !! pop = Some (Arr2 (length t_eq) rows')
    ∧ length rows' = P
    ∧ Forall (λ r, length r = length t_eq) rows'.
Proof.
  induction n as [|n IH]; intros a σ rows Hpop Hrows HP Hk Hg Hnp Hcut.
  - exists σ, rows. by split_and!.
  - simpl. subst P.
    destruct (generation_run t_eq k pop σ rows Hpop Hrows Hk ltac:(lia) Hnp Hcut)
      as (σ1 & σ2 & σ3 & σ4 & σ' & l1 & l2 & l3
          & _ & _ & _ & _ & _ & _ & _ & E & Hpop' & _).
    rewrite (bind_ok _ _ _ _ _ E).
    pose proof (keeps_release_generation t_eq (Z.of_nat (length t_eq))
                  (Z.of_nat (length rows), Z.of_nat (length t_eq)) (Z.of_nat k)
                  pop σ) as Hrel.
    rewrite E in Hrel. simpl in Hrel. rewrite <- Hrel in Hnp, Hcut.
    set (fit := (λ r, np_sum (zip_with dmul r t_eq)) <$> rows) in *.
    set (prows := (rows !!!.) <$> chosen k fit) in *.
    set (orows := child prows _ <$> seq 0 (length rows - k)) in *.
    assert (length fit = length rows) as Hfit by (unfold fit; by rewrite length_fmap).
    assert (fit ≠ []) as Hfne
      by (intros Hnil; rewrite Hnil in Hfit; simpl in Hfit; lia).
    assert (length prows = k) as Hprows
      by (unfold prows; by rewrite length_fmap, chosen_length).
    assert (prows ≠ []) as Hpne
      by (intros Hnil; rewrite Hnil in Hprows; simpl in Hprows; lia).
    pose proof (chosen_rows_wf rows fit k _ Hfit Hrows) as Hpwf. fold prows in Hpwf.
    apply (IH (S a) σ' _ Hpop').
    + apply Forall_app. split; [done|]. apply mutated_wf.
      unfold orows. apply Forall_fmap, Forall_forall. intros i _.
      by apply child_length.
    + rewrite length_app, mutated_length. unfold orows.
      rewrite length_fmap, length_seq. lia.
    + done.
    + done.
    + done.
    + done.
Qed.

(** C8. In a generation started on a well-formed population of [P] rows
    and [g] genes, with [1 ≤ k ≤ P] parents (and at least five genes when
    there is an offspring to mutate), on a NumPy release on which the
    generation can run at all (one that stores the one-element array of
    line 33 when there is an offspring to mutate, and on which
    [np.uint8(g / 2)] returns: fewer than 512 genes, or NumPy 1): the
    parent pool selected has shape [k × g], the mutated offspring pool has
    shape [(P - k) × g], and the generation leaves, at the location of the
    population, the parents in rows [0..k-1] followed by the mutated
    offspring in rows [k..P-1]; and after any number of generations the
    population is still there with shape [P × g]. *)
Theorem generations_keep_shapes t_eq (k : nat) pop σ rows (generations : Z) :
  let g := length t_eq in
  let P := length rows in
  heap σ !! pop = Some (Arr2 g rows) →
  Forall (λ r, length r = g) rows →
  1 ≤ k ≤ P →
  (k < P → 5 ≤ g) →
  (k < P → assigns_one_element (release σ) = true) →
  g < 512 ∨ uint8_wraps (release σ) = true →
  (∃ σ1 σ2 σ3 σ4 σ' fitness parents offspring prows orows,
     evaluate_fitness t_eq pop σ = (Ok fitness, σ1)
     ∧ make_selection pop fitness (Z.of_nat k) σ1 = (Ok parents, σ2)
     ∧ heap σ2 !! parents = Some (Arr2 g prows)
     ∧ length prows = k
     ∧ Forall (λ r, length r = g) prows
     ∧ crossover parents (Z.of_nat P - Z.of_nat k, Z.of_nat g)%Z σ2
       = (Ok offspring, σ3)
     ∧ mutate offspring σ3 = (Ok offspring, σ4)
     ∧ heap σ4 !! offspring = Some (Arr2 g orows)
     ∧ length orows = P - k
     ∧ Forall (λ r, length r = g) orows
     ∧ generation t_eq (Z.of_nat g) (Z.of_nat P, Z.of_nat g) (Z.of_nat k) pop σ
       = (Ok (), σ')
     ∧ heap σ' !! pop = Some (Arr2 g (prows ++ orows))
     ∧ heap σ' !! parents = Some (Arr2 g prows)
     ∧ heap σ' !! offspring = Some (Arr2 g orows))
  ∧ (∃ σn rowsn,
       for_range generations
         (λ gen, generation t_eq (Z.of_nat g) (Z.of_nat P, Z.of_nat g)
                   (Z.of_nat k) pop) σ
       = (Ok (), σn)
       ∧ heap σn !! pop = Some (Arr2 g rowsn)
       ∧ length rowsn = P
       ∧ Forall (λ r, length r = g) rowsn).
Proof.
  intros g P Hpop Hrows Hk Hg Hnp Hcut. split.
  - destruct (generation_run t_eq k pop σ rows Hpop Hrows Hk ltac:(lia) Hnp Hcut)
      as (σ1 & σ2 & σ3 & σ4 & σ' & l1 & l2 & l3
          & E1 & E2 & Hpar & E3 & Hoff & E4 & Hmut & E & Hpop' & Hpar' & Hoff').
    set (fit := (λ r, np_sum (zip_with dmul r t_eq)) <$> rows) in *.
    set (prows := (rows !!!.) <$> chosen k fit) in *.
    set (orows := child prows _ <$> seq 0 (length rows - k)) in *.
    assert (length fit = length rows) as Hfit by (unfold fit; by rewrite length_fmap).
    assert (fit ≠ []) as Hfne
      by (intros Hnil; rewrite Hnil in Hfit; simpl in Hfit; unfold P in Hk; lia).
    assert (length prows = k) as Hprows
      by (unfold prows; by rewrite length_fmap, chosen_length).
    assert (prows ≠ []) as Hpne
      by (intros Hnil; rewrite Hnil in Hprows; simpl in Hprows; lia).
    pose proof (chosen_rows_wf rows fit k _ Hfit Hrows) as Hpwf. fold prows in Hpwf.
    exists σ1, σ2, σ3, σ4, σ', l1, l2, l3, prows,
      (mutated (rng σ) (rng_calls σ) orows).
    split_and!; try done.
    + rewrite mutated_length. unfold orows. by rewrite length_fmap, length_seq.
    + apply mutated_wf. unfold orows. apply Forall_fmap, Forall_forall.
      intros i _. by apply child_length.
  - unfold for_range. by eapply generations_run.
Qed.

(** The first population has the shape asked for. *)
Lemma make_initial_population_run (P g : nat) (lo hi : T) σ :
  ∃ l σ' rows,
    make_initial_population (Z.of_nat P, Z.of_nat g) lo hi σ = (Ok l, σ')
    ∧ heap σ' !! l = Some (Arr2 g rows)
    ∧ length rows = P
    ∧ Forall (λ r, length r = g) rows.
Proof.
  unfold make_initial_population. cbn [fst snd].
  rewrite decide_True by lia. rewrite !Nat2Z.id.
  rewrite bind_run. unfold np_random_uniform at 1. unfold alloc.
  eexists _, _, _. split_and!.
  - reflexivity.
  - simpl. by rewrite lookup_insert_eq.
  - by rewrite length_map, length_seq.
  - apply Forall_map, Forall_forall. intros i Hi%elem_of_seq. simpl.
    rewrite length_take, length_drop, length_map, length_seq. nia.
Qed.

(** The whole of [__main__] up to the report: the population it ends with
    has the shape it started with. *)
Lemma main_loop_shape t_eq (k P : nat) (generations : Z) σ :
  1 ≤ k ≤ P →
  (k < P → 5 ≤ length t_eq) →
  (k < P → assigns_one_element (release σ) = true) →
  length t_eq < 512 ∨ uint8_wraps (release σ) = true →
  ∃ pop σ' rows,
    main_loop t_eq (Z.of_nat (length t_eq)) (Z.of_nat P) (Z.of_nat k) generations σ
    = (Ok pop, σ')
    ∧ heap σ' !! pop = Some (Arr2 (length t_eq) rows)
    ∧ length rows = P
    ∧ Forall (λ r, length r = length t_eq) rows.
Proof.
  intros Hk Hg Hnp Hcut. unfold main_loop.
  destruct (make_initial_population_run P (length t_eq) (of_int (-4)) (of_int 4) σ)
    as (pop & σ0 & rows & E0 & Hpop & HP & Hrows).
  rewrite (bind_ok _ _ _ _ _ E0).
  pose proof (keeps_release_make_initial_population
                (Z.of_nat P, Z.of_nat (length t_eq)) (of_int (-4)) (of_int 4) σ)
    as Hrel.
  rewrite E0 in Hrel. simpl in Hrel. rewrite <- Hrel in Hnp, Hcut.
  destruct (generations_run t_eq k P pop (Z.to_nat generations) 0 σ0 rows
              Hpop Hrows HP Hk Hg Hnp Hcut)
    as (σ' & rows' & E & Hpop' & HP' & Hrows').
  unfold for_range. rewrite (bind_ok _ _ _ _ _ E).
  exists pop, σ', rows'. by split_and!.
Qed.

End loop_claims.

(** * Concrete runs on integer arrays *)

(** On integers: once the sentinel [2 ** 31] stands at index [i] and every
    other value is below it, index [i] is the first maximum, and stays so. *)
Lemma first_max_at_sentinel (fit : list Z) i :
  fit !! i = Some sentinel →
  (∀ j y, fit !! j = Some y → j ≠ i → (y < sentinel)%Z) →
  first_max fit = Some i.
Proof.
  intros Hi Hothers.
  destruct (first_max_spec fit) as (i' & x & Hi' & Hx & Hub & _).
  { intros ->. done. }
  destruct (decide (i' = i)) as [->|Hne]; [done|].
  specialize (Hub i _ Hi). specialize (Hothers i' x Hx Hne).
  apply Z.leb_le in Hub. lia.
Qed.

(** So on a fitness vector whose values are all below [2 ** 31] every
    iteration of the selection picks the index the first one picked. *)
Lemma chosen_repeats (fit : list Z) n i :
  first_max fit = Some i →
  (∀ y, y ∈ fit → (y < sentinel)%Z) →
  chosen n fit = replicate n i.
Proof.
  intros Hi Hlt.
  assert (∀ j y, fit !! j = Some y → j ≠ i → (y < sentinel)%Z) as Hothers.
  { intros j y Hj _. apply Hlt. by eapply list_elem_of_lookup_2. }
  clear Hlt. revert fit Hi Hothers.
  induction n as [|n IH]; intros fit Hi Hothers; [done|].
  simpl. rewrite Hi. f_equal.
  pose proof (first_max_lt _ _ Hi) as Hlt.
  apply IH.
  - apply first_max_at_sentinel.
    + by apply list_lookup_insert_eq.
    + intros j y Hj Hne. rewrite list_lookup_insert_ne in Hj by done. eauto.
  - intros j y Hj Hne. rewrite list_lookup_insert_ne in Hj by done. eauto.
Qed.

(** C1. The value written over a chosen fitness is [2 ** 31], the largest
    value of the vector from then on: on the fitness vector [3, 7, 1, 7]
    with two parents asked for, index 1 is chosen in both iterations, the
    vector ends as [3, 2 ** 31, 1, 7], and the two indices chosen are the
    same. *)
Theorem make_selection_sentinel_reselects :
  (sentinel : Z) = 2147483648%Z
  ∧ chosen 2 [3; 7; 1; 7]%Z = [1; 1]
  ∧ chosen 2 [3; 7; 1; 7]%Z !! 0 = chosen 2 [3; 7; 1; 7]%Z !! 1
  ∧ ∃ σ', make_selection 0 1 2 (st0 selection_heap) = (Ok 2, σ')
          ∧ heap σ' !! 1 = Some (Arr1 [3; 2147483648; 1; 7]%Z).
Proof.
  split_and!.
  - reflexivity.
  - reflexivity.
  - reflexivity.
  - eexists. split; [vm_compute; reflexivity|]. vm_compute. reflexivity.
Qed.

(** C2. On the four candidates with fitness vector [3, 7, 1, 7] and two
    parents asked for, the parents returned are candidate 1 twice, not
    candidates 1 and 3; and on the three candidates with fitness vector
    [4e9, 3e9, 0] and three parents asked for, the parents returned are
    candidates 0, 1, 0, whose fitness values, evaluated again, are
    4e9, 3e9, 4e9: not a non-increasing sequence. *)
Theorem make_selection_tie_example :
  (∃ f σ1 σ',
     evaluate_fitness [1; 0]%Z 0 (st0 candidates_heap) = (Ok f, σ1)
     ∧ heap σ1 !! f = Some (Arr1 [3; 7; 1; 7]%Z)
     ∧ make_selection 0 f 2 σ1 = (Ok 2, σ')
     ∧ heap σ' !! 2 = Some (Arr2 2 [[7; 11]; [7; 11]]%Z)
     ∧ selection_rows !! 1 = Some [7; 11]%Z
     ∧ selection_rows !! 3 = Some [7; 13]%Z)
  ∧ (∃ f σ1 σ' l σ'',
       evaluate_fitness [1000000000]%Z 0 (st0 large_heap) = (Ok f, σ1)
       ∧ heap σ1 !! f = Some (Arr1 [4000000000; 3000000000; 0]%Z)
       ∧ make_selection 0 f 3 σ1 = (Ok 2, σ')
       ∧ heap σ' !! 2 = Some (Arr2 1 [[4]; [3]; [4]]%Z)
       ∧ evaluate_fitness [1000000000]%Z 2 σ' = (Ok l, σ'')
       ∧ heap σ'' !! l = Some (Arr1 [4000000000; 3000000000; 4000000000]%Z)).
Proof.
  split.
  - eexists _, _, _. split; [vm_compute; reflexivity|].
    split; [vm_compute; reflexivity|].
    split; [vm_compute; reflexivity|]. by vm_compute.
  - eexists _, _, _, _, _. split; [vm_compute; reflexivity|].
    split; [vm_compute; reflexivity|].
    split; [vm_compute; reflexivity|].
    split; [vm_compute; reflexivity|].
    split; [vm_compute; reflexivity|]. by vm_compute.
Qed.

(** C4. With 512 genes the crossover point [np.uint8(512 / 2)] is not the
    256 of the claim and of the docstring (half of each parent), since
    eight bits do not hold 256.  On NumPy 1 it is 0: asked for two
    offspring of the two parents (all zeros, all ones), [crossover] returns
    parent 1 as offspring 0 and parent 0 as offspring 1, so gene 0 of
    offspring 0 is the 1 of parent 1 where parent 0 has 0.  From NumPy 2.0
    on the conversion raises and there is no offspring at all. *)
Theorem crossover_512_genes :
  crossover_point (2, 512)%Z = 0
  ∧ (∃ σ',
       crossover 0 (2, 512)%Z (st0 wide_heap) = (Ok 1, σ')
       ∧ heap σ' !! 1 = Some (Arr2 512 [replicate 512 1; replicate 512 0]%Z)
       ∧ (wide_rows !!! (0 `mod` length wide_rows)) !! 0 = Some 0%Z)
  ∧ (crossover 0 (2, 512)%Z (on_release NumPy_2 (st0 wide_heap))).1
    = Raise OverflowError
  ∧ (crossover 0 (2, 512)%Z (on_release NumPy_2_4 (st0 wide_heap))).1
    = Raise OverflowError.
Proof.
  split; [reflexivity|]. split.
  - eexists. split; [vm_compute; reflexivity|].
    split; [vm_compute; reflexivity|reflexivity].
  - split; vm_compute; reflexivity.
Qed.

(** C6 fails on a pool without rows: with three genes [mutate] returns. *)
Lemma mutate_no_rows_returns :
  heap (st0 no_rows_heap) !! 0 = Some (Arr2 3 [])
  ∧ (mutate 0 (st0 no_rows_heap)).1 = Ok 0
  ∧ ¬ ((mutate 0 (st0 no_rows_heap)).1 = Raise IndexError ↔ 3 ≤ 4).
Proof.
  split; [reflexivity|]. split; [reflexivity|].
  intros [_ Hfail]. specialize (Hfail ltac:(lia)). vm_compute in Hfail. discriminate.
Qed.

(** C7. For every equation and every well-formed population whose rows are
    as long as the equation, [evaluate_fitness] returns a new vector with
    one entry per candidate, the dot product of the candidate with the
    equation, and changes no array that existed, the population included;
    for the equation [(1, 2, 3)] and the candidate [(1, 1, 1)] the fitness
    is 6. *)
Theorem evaluate_fitness_dot :
  (∀ (T : Type) (D : DType T) (t_eq : list T) (p : loc) (σ : state T)
     (rows : list (list T)),
     heap σ !! p = Some (Arr2 (length t_eq) rows) →
     Forall (λ r, length r = length t_eq) rows →
     ∃ l σ' fit,
       evaluate_fitness t_eq p σ = (Ok l, σ')
       ∧ (l ∉ dom (heap σ))
       ∧ heap σ' !! l = Some (Arr1 fit)
       ∧ length fit = length rows
       ∧ (∀ i r, rows !! i = Some r → fit !! i = Some (dot (length t_eq) r t_eq))
       ∧ heap σ' !! p = Some (Arr2 (length t_eq) rows)
       ∧ (∀ a, a ∈ dom (heap σ) → heap σ' !! a = heap σ !! a))
  ∧ (∃ l σ',
       evaluate_fitness [1; 2; 3]%Z 0 (st0 ones_heap) = (Ok l, σ')
       ∧ heap σ' !! l = Some (Arr1 [6]%Z)
       ∧ dot 3 [1; 1; 1]%Z [1; 2; 3]%Z = 6%Z).
Proof.
  split.
  - intros T D t_eq p σ rows. apply evaluate_fitness_spec.
  - eexists _, _. split; [vm_compute; reflexivity|]. by vm_compute.
Qed.

(** ** The theorems at concrete inputs *)

Lemma make_selection_first_max_witness :
  heap (st0 selection_heap) !! 0 = Some (Arr2 2 selection_rows)
  ∧ heap (st0 selection_heap) !! 1 = Some (Arr1 [3; 7; 1; 7]%Z)
  ∧ ∃ s σ' picked,
      make_selection 0 1 2 (st0 selection_heap) = (Ok s, σ')
      ∧ length picked = Z.to_nat 2
      ∧ heap σ' !! s = Some (Arr2 2 ((selection_rows !!!.) <$> picked))
      ∧ heap σ' !! 1 = Some (Arr1 (overwrite [3; 7; 1; 7]%Z picked))
      ∧ ∀ n i, picked !! n = Some i →
          lowest_max (overwrite [3; 7; 1; 7]%Z (take n picked)) i.
Proof.
  split; [reflexivity|]. split; [reflexivity|].
  apply (make_selection_first_max 0 1 2 (st0 selection_heap) 2 selection_rows
           [3; 7; 1; 7]%Z);
    [reflexivity|reflexivity|repeat constructor|reflexivity|discriminate|lia].
Defined.

Lemma make_selection_rows_from_population_witness :
  heap (st0 selection_heap) !! 0 = Some (Arr2 2 selection_rows)
  ∧ heap (st0 selection_heap) !! 1 = Some (Arr1 [3; 7; 1; 7]%Z)
  ∧ (selection_rows ≠ [] →
       ∃ s σ' srows,
         make_selection 0 1 6 (st0 selection_heap) = (Ok s, σ')
         ∧ heap σ' !! s = Some (Arr2 2 srows)
         ∧ length srows = Z.to_nat 6
         ∧ ∀ r, r ∈ srows → r ∈ selection_rows)
  ∧ (selection_rows = [] →
       (make_selection 0 1 6 (st0 selection_heap)).1 = Raise ValueError).
Proof.
  split; [reflexivity|]. split; [reflexivity|].
  apply (make_selection_rows_from_population 0 1 6 (st0 selection_heap) 2
           selection_rows [3; 7; 1; 7]%Z);
    [reflexivity|reflexivity|repeat constructor|reflexivity|lia].
Defined.

Lemma crossover_one_point_witness :
  heap (st0 selection_heap) !! 0 = Some (Arr2 2 selection_rows)
  ∧ ∃ l σ' orows,
      crossover 0 (Z.of_nat 3, Z.of_nat 2) (st0 selection_heap) = (Ok l, σ')
      ∧ heap σ' !! l = Some (Arr2 2 orows)
      ∧ length orows = 3
      ∧ (∀ i orow, orows !! i = Some orow →
           length orow = 2
           ∧ (∀ j, j < 2 / 2 →
                orow !! j = (selection_rows !!! (i `mod` length selection_rows)) !! j)
           ∧ (∀ j, 2 / 2 ≤ j < 2 →
                orow !! j
                = (selection_rows !!! ((i + 1) `mod` length selection_rows)) !! j))
      ∧ (∀ σ2 p2, heap σ2 !! p2 = Some (Arr2 2 selection_rows) →
           ∃ l2 σ2',
             crossover p2 (Z.of_nat 3, Z.of_nat 2) σ2 = (Ok l2, σ2')
             ∧ heap σ2' !! l2 = Some (Arr2 2 orows)).
Proof.
  split; [reflexivity|].
  apply (crossover_one_point 0 3 2 (st0 selection_heap) selection_rows);
    [reflexivity|discriminate|repeat constructor|lia].
Defined.

Lemma crossover_preserves_parents_witness :
  heap (st0 selection_heap) !! 0 = Some (Arr2 2 selection_rows)
  ∧ heap (crossover 0 (3, 2)%Z (st0 selection_heap)).2 !! 0
    = Some (Arr2 2 selection_rows)
  ∧ (∀ a, a ∈ dom (heap (st0 selection_heap)) →
       heap (crossover 0 (3, 2)%Z (st0 selection_heap)).2 !! a
       = heap (st0 selection_heap) !! a)
  ∧ (∀ l, (crossover 0 (3, 2)%Z (st0 selection_heap)).1 = Ok l →
       (l ∉ dom (heap (st0 selection_heap))) ∧ l ≠ 0).
Proof.
  split; [reflexivity|].
  apply (crossover_preserves_parents 0 (3, 2)%Z (st0 selection_heap)
           (Arr2 2 selection_rows)).
  reflexivity.
Defined.

Lemma mutate_gene_4_only_witness :
  heap (st0 offspring_heap) !! 0 = Some (Arr2 6 offspring_rows)
  ∧ rng_in_bounds (st0 offspring_heap)
  ∧ assigns_one_element (release (st0 offspring_heap)) = true
  ∧ ∃ σ' rows',
      mutate 0 (st0 offspring_heap) = (Ok 0, σ')
      ∧ heap σ' !! 0 = Some (Arr2 6 rows')
      ∧ (∀ a, a ≠ 0 → heap σ' !! a = heap (st0 offspring_heap) !! a)
      ∧ length rows' = length offspring_rows
      ∧ rng_calls σ' = rng_calls (st0 offspring_heap) + length offspring_rows
      ∧ ∀ i r, offspring_rows !! i = Some r →
          ∃ r' x d,
            rows' !! i = Some r'
            ∧ length r' = 6
            ∧ d = rng (st0 offspring_heap) (rng_calls (st0 offspring_heap) + i)
                    (of_int (-1)) (of_int 1)
            ∧ dleb (of_int (-1)) d = true ∧ dleb d (of_int 1) = true
            ∧ r !! 4 = Some x
            ∧ r' !! 4 = Some (dadd x d)
            ∧ ∀ j, j ≠ 4 → r' !! j = r !! j.
Proof.
  assert (rng_in_bounds (st0 offspring_heap)) as Hrng.
  { intros k lo hi Hle. simpl. split; [apply Z.leb_refl|exact Hle]. }
  split; [reflexivity|]. split; [exact Hrng|]. split; [reflexivity|].
  apply (mutate_gene_4_only 0 (st0 offspring_heap) 6 offspring_rows);
    [reflexivity|repeat constructor|lia|exact Hrng|reflexivity].
Defined.

Lemma mutate_out_of_bounds_iff_witness :
  heap (on_release NumPy_2_4 (st0 offspring_heap)) !! 0
  = Some (Arr2 6 offspring_rows)
  ∧ ((mutate 0 (on_release NumPy_2_4 (st0 offspring_heap))).1 = Raise IndexError
     ↔ 6 ≤ 4)
  ∧ ((mutate 0 (on_release NumPy_2_4 (st0 offspring_heap))).1 = Ok 0
     ↔ 5 ≤ 6
       ∧ assigns_one_element (release (on_release NumPy_2_4 (st0 offspring_heap)))
         = true)
  ∧ ((mutate 0 (on_release NumPy_2_4 (st0 offspring_heap))).1 = Raise ValueError
     ↔ 5 ≤ 6
       ∧ assigns_one_element (release (on_release NumPy_2_4 (st0 offspring_heap)))
         = false).
Proof.
  split; [reflexivity|].
  apply (mutate_out_of_bounds_iff 0 (on_release NumPy_2_4 (st0 offspring_heap)) 6
           offspring_rows);
    [reflexivity|repeat constructor|discriminate].
Defined.

Lemma evaluate_fitness_dot_witness :
  heap (st0 demo_heap) !! 0 = Some (Arr2 (length demo_eq) demo_rows)
  ∧ ∃ l σ' fit,
      evaluate_fitness demo_eq 0 (st0 demo_heap) = (Ok l, σ')
      ∧ (l ∉ dom (heap (st0 demo_heap)))
      ∧ heap σ' !! l = Some (Arr1 fit)
      ∧ length fit = length demo_rows
      ∧ (∀ i r, demo_rows !! i = Some r →
           fit !! i = Some (dot (length demo_eq) r demo_eq))
      ∧ heap σ' !! 0 = Some (Arr2 (length demo_eq) demo_rows)
      ∧ (∀ a, a ∈ dom (heap (st0 demo_heap)) →
           heap σ' !! a = heap (st0 demo_heap) !! a).
Proof.
  split; [reflexivity|].
  apply (proj1 evaluate_fitness_dot Z Z_dtype demo_eq 0 (st0 demo_heap) demo_rows);
    [reflexivity|repeat constructor].
Defined.

Lemma generations_keep_shapes_witness :
  heap (st0 demo_heap) !! 0 = Some (Arr2 (length demo_eq) demo_rows)
  ∧ assigns_one_element (release (st0 demo_heap)) = true
  ∧ (∃ σ1 σ2 σ3 σ4 σ' fitness parents offspring prows orows,
       evaluate_fitness demo_eq 0 (st0 demo_heap) = (Ok fitness, σ1)
       ∧ make_selection 0 fitness (Z.of_nat 2) σ1 = (Ok parents, σ2)
       ∧ heap σ2 !! parents = Some (Arr2 (length demo_eq) prows)
       ∧ length prows = 2
       ∧ Forall (λ r, length r = length demo_eq) prows
       ∧ crossover parents
           (Z.of_nat (length demo_rows) - Z.of_nat 2, Z.of_nat (length demo_eq))%Z σ2
         = (Ok offspring, σ3)
       ∧ mutate offspring σ3 = (Ok offspring, σ4)
       ∧ heap σ4 !! offspring = Some (Arr2 (length demo_eq) orows)
       ∧ length orows = length demo_rows - 2
       ∧ Forall (λ r, length r = length demo_eq) orows
       ∧ generation demo_eq (Z.of_nat (length demo_eq))
           (Z.of_nat (length demo_rows), Z.of_nat (length demo_eq)) (Z.of_nat 2) 0
           (st0 demo_heap)
         = (Ok (), σ')
       ∧ heap σ' !! 0 = Some (Arr2 (length demo_eq) (prows ++ orows))
       ∧ heap σ' !! parents = Some (Arr2 (length demo_eq) prows)
       ∧ heap σ' !! offspring = Some (Arr2 (length demo_eq) orows))
  ∧ (∃ σn rowsn,
       for_range 20
         (λ gen, generation demo_eq (Z.of_nat (length demo_eq))
                   (Z.of_nat (length demo_rows), Z.of_nat (length demo_eq))
                   (Z.of_nat 2) 0) (st0 demo_heap)
       = (Ok (), σn)
       ∧ heap σn !! 0 = Some (Arr2 (length demo_eq) rowsn)
       ∧ length rowsn = length demo_rows
       ∧ Forall (λ r, length r = length demo_eq) rowsn).
Proof.
  split; [reflexivity|]. split; [reflexivity|].
  apply (generations_keep_shapes demo_eq 2 0 (st0 demo_heap) demo_rows 20);
    [reflexivity|repeat constructor|simpl; lia|simpl; lia|reflexivity
    |left; simpl; lia].
Defined.

(** * Further properties of the program *)

(** ** What the functions leave alone *)

Section generator.
Context {T : Type} `{DType T}.
Implicit Types (σ : state T).

Lemma keeps_generator_bind {A B} (m : M T A) (k : A → M T B) :
  keeps_generator m → (∀ x, keeps_generator (k x)) → keeps_generator (m ≫= k).
Proof.
  intros Hm Hk σ. rewrite bind_run. specialize (Hm σ).
  destruct (m σ) as [[x|e] σ']; simpl in *; [|done].
  destruct (Hk x σ') as (-> & -> & ->). done.
Qed.

Lemma keeps_generator_for_each l (body : nat → M T ()) :
  (∀ i, keeps_generator (body i)) → keeps_generator (for_each l body).
Proof.
  intros Hbody. induction l as [|i l IH]; simpl.
  - by intros ?.
  - apply keeps_generator_bind; [apply Hbody|by intros _].
Qed.

End generator.

Ltac preserves_step :=
  first
    [ apply preserves_mret
    | apply preserves_raise
    | apply preserves_load
    | apply preserves_shape0
    | apply preserves_broadcast
    | apply preserves_getitem_row_slice
    | by apply preserves_setitem_row_slice
    | by apply preserves_store
    | match goal with
      | |- preserves _ (match ?x with _ => _ end) => destruct x
      | |- preserves _ (if ?x then _ else _) => destruct x
      end
    | apply preserves_bind; [|intros ?] ].

Ltac keeps_generator_step :=
  first
    [ match goal with
      | |- keeps_generator (mret _) => by intros ?
      | |- keeps_generator (raise _) => by intros ?
      | |- keeps_generator np_release => by intros ?
      | |- keeps_generator (load _) => intros ?; unfold load; by case_match
      | |- keeps_generator (store _ _) => by intros ?
      | |- keeps_generator (alloc _) => by intros ?
      | |- keeps_generator (match ?x with _ => _ end) => destruct x
      | |- keeps_generator (if ?x then _ else _) => destruct x
      end
    | apply keeps_generator_bind; [|intros ?] ].

Section effects.
Context {T : Type} `{DType T}.
Implicit Types (σ : state T) (a b p f s o : loc).

Lemma keeps_generator_np_empty t_size : keeps_generator (np_empty t_size : M T loc).
Proof. intros σ. unfold np_empty. by case_decide. Qed.

Lemma keeps_generator_select_one p f s idx :
  keeps_generator (select_one p f s idx : M T ()).
Proof.
  unfold select_one, np_max, np_where_eq_first, getitem_row_slice,
    setitem_row_slice, setitem1, broadcast.
  repeat keeps_generator_step.
Qed.

Lemma keeps_generator_crossover_row p o c i :
  keeps_generator (crossover_row p o c i : M T ()).
Proof.
  unfold crossover_row, shape0, py_mod, getitem_row_slice, setitem_row_slice,
    broadcast.
  repeat keeps_generator_step.
Qed.

Lemma keeps_generator_evaluate_fitness (t_eq : list T) p :
  keeps_generator (evaluate_fitness t_eq p).
Proof. unfold evaluate_fitness, np_multiply. repeat keeps_generator_step. Qed.

Lemma keeps_generator_make_selection p f (k : Z) :
  keeps_generator (make_selection p f k : M T loc).
Proof.
  unfold make_selection, shape1, for_range.
  repeat first
    [ apply keeps_generator_np_empty
    | apply keeps_generator_for_each; intros ?; apply keeps_generator_select_one
    | keeps_generator_step ].
Qed.

Lemma keeps_generator_crossover p (t_size : Z * Z) :
  keeps_generator (crossover p t_size : M T loc).
Proof.
  unfold crossover, np_uint8, for_range.
  repeat first
    [ apply keeps_generator_np_empty
    | apply keeps_generator_for_each; intros ?; apply keeps_generator_crossover_row
    | keeps_generator_step ].
Qed.

Lemma keeps_generator_setitem_rows a lo hi src :
  keeps_generator (setitem_rows a lo hi src : M T ()).
Proof.
  unfold setitem_rows, broadcast2, broadcast. repeat keeps_generator_step.
Qed.

Lemma keeps_generator_shape0 a : keeps_generator (shape0 a : M T nat).
Proof. unfold shape0. repeat keeps_generator_step. Qed.

(** X1.  Only [make_initial_population] and [mutate] draw random numbers:
    [evaluate_fitness], [make_selection] and [crossover] leave the generator
    where it was, whether they return or raise. *)
Theorem only_mutation_draws (t_eq : list T) p f (k : Z) (t_size : Z * Z) :
  keeps_generator (evaluate_fitness t_eq p)
  ∧ keeps_generator (make_selection p f k : M T loc)
  ∧ keeps_generator (crossover p t_size : M T loc).
Proof.
  split_and!.
  - apply keeps_generator_evaluate_fitness.
  - apply keeps_generator_make_selection.
  - apply keeps_generator_crossover.
Qed.

Lemma preserves_np_max a f : preserves a (np_max f : M T T).
Proof. unfold np_max. repeat preserves_step. Qed.

Lemma preserves_np_where_eq_first a f m :
  preserves a (np_where_eq_first f m : M T nat).
Proof. unfold np_where_eq_first. repeat preserves_step. Qed.

Lemma preserves_setitem1 a f i (x : T) : a ≠ f → preserves a (setitem1 f i x).
Proof. intros Haf. unfold setitem1. repeat preserves_step. Qed.

Lemma preserves_select_one a p f s idx :
  a ≠ s → a ≠ f → preserves a (select_one p f s idx : M T ()).
Proof.
  intros Has Haf. unfold select_one.
  repeat first
    [ apply preserves_np_max
    | apply preserves_np_where_eq_first
    | by apply preserves_setitem1
    | preserves_step ].
Qed.

Lemma make_selection_untouched p f (k : Z) σ a :
  a ∈ dom (heap σ) →
  a ≠ f →
  heap (make_selection p f k σ).2 !! a = heap σ !! a
  ∧ ∀ s, (make_selection p f k σ).1 = Ok s → s ∉ dom (heap σ).
Proof.
  intros Ha Haf.
  destruct (make_selection p f k σ) as [r σ'] eqn:Erun. simpl.
  unfold make_selection, shape1 in Erun. rewrite !bind_run in Erun.
  unfold load in Erun.
  destruct (heap σ !! p) as [[data|ncols rows]|]; cycle 1.
  - unfold mret at 1, M_ret at 1 in Erun. rewrite bind_run in Erun.
    unfold np_empty in Erun. case_decide as Hsz;
      [|unfold raise in Erun; by simplify_eq].
    unfold alloc in Erun. rewrite bind_run in Erun.
    set (s := fresh (dom (heap σ))) in *.
    assert (a ≠ s) as Has by (intros ->; by apply (is_fresh (dom (heap σ)))).
    pose proof (preserves_for_each a (seq 0 (Z.to_nat k)) (select_one p f s)
                  (λ i, preserves_select_one a p f s i Has Haf)) as Hloop.
    unfold for_range in Erun. simpl in Erun.
    match type of Erun with context [for_each ?l ?b ?st] =>
      specialize (Hloop st); destruct (for_each l b st) as [[[]|e] σ''] end;
      simpl in *.
    + unfold mret, M_ret in Erun. simplify_eq.
      split; [rewrite Hloop; by rewrite lookup_insert_ne|].
      intros ? [= <-]. apply is_fresh.
    + simplify_eq. split; [rewrite Hloop; by rewrite lookup_insert_ne|done].
  - by simplify_eq.
  - unfold raise in Erun. by simplify_eq.
Qed.

(** X2.  [make_selection] writes to two arrays only: the fitness vector it was
    given and the array of parents it allocates.  Every other array that
    exists before the call, the population among them, is the same after
    it, whether the call returns or raises; and the array returned did not
    exist before. *)
Theorem make_selection_frame p f (k : Z) σ a :
  a ∈ dom (heap σ) →
  a ≠ f →
  heap (make_selection p f k σ).2 !! a = heap σ !! a
  ∧ ∀ s, (make_selection p f k σ).1 = Ok s → s ∉ dom (heap σ).
Proof. apply make_selection_untouched. Qed.

End effects.

(** ** More on the selector *)

Section selection_more.
Context {T : Type} `{DTypeOrder T}.
Implicit Types (σ : state T) (rows : list (list T)) (fit : list T).

Lemma overwrite_lookup (picked : list nat) : ∀ fit j,
  j < length fit →
  overwrite fit picked !! j
  = if decide (j ∈ picked) then Some sentinel else fit !! j.
Proof.
  induction picked as [|i picked IH]; intros fit j Hj.
  - case_decide as Hin; [by apply elem_of_nil in Hin|done].
  - change (overwrite (<[i:=sentinel]> fit) picked !! j
            = if decide (j ∈ i :: picked) then Some sentinel else fit !! j).
    rewrite IH by (by rewrite length_insert).
    case_decide as H1; case_decide as H2.
    + done.
    + exfalso. apply H2. by right.
    + apply elem_of_cons in H2 as [->|?]; [|done].
      by apply list_lookup_insert_eq.
    + apply list_lookup_insert_ne. intros ->. apply H2. by left.
Qed.

(** X3.  What a caller finds in the fitness vector after [make_selection]: the
    vector has the length it had; at every index whose row was copied to
    the parents it holds the sentinel [2 ** 31]; everywhere else it holds
    what it held. *)
Theorem make_selection_fitness_after p f (k : Z) σ g rows fit :
  heap σ !! p = Some (Arr2 g rows) →
  heap σ !! f = Some (Arr1 fit) →
  Forall (λ r, length r = g) rows →
  length fit = length rows →
  fit ≠ [] →
  (0 ≤ k)%Z →
  ∃ s σ' picked fit',
    make_selection p f k σ = (Ok s, σ')
    ∧ heap σ' !! s = Some (Arr2 g ((rows !!!.) <$> picked))
    ∧ heap σ' !! f = Some (Arr1 fit')
    ∧ length fit' = length fit
    ∧ (∀ j, j ∈ picked → j < length fit ∧ fit' !! j = Some sentinel)
    ∧ (∀ j, j ∉ picked → fit' !! j = fit !! j).
Proof.
  intros Hp Hf Hrows Hlen Hne Hk.
  eexists _, _, (chosen (Z.to_nat k) fit), _. split_and!.
  - by eapply make_selection_run.
  - simpl. rewrite lookup_insert_ne by exact (fresh_ne _ _ _ Hf).
    by rewrite lookup_insert_eq.
  - simpl. by rewrite lookup_insert_eq.
  - apply overwrite_length.
  - intros j Hj. pose proof (chosen_lt _ _ _ Hj) as Hlt. split; [done|].
    rewrite overwrite_lookup by done. by case_decide.
  - intros j Hj. destruct (decide (j < length fit)) as [Hlt|Hge].
    + rewrite overwrite_lookup by done. by case_decide.
    + rewrite !lookup_ge_None_2; [done|lia|rewrite overwrite_length; lia].
Qed.

(** X4.  Asking for no parent gives an empty array of parents and leaves the
    fitness vector alone, whatever it holds; asking for a negative number of
    parents is refused by [np.empty] before anything is written; and a
    population that is a vector has no [shape[1]]. *)
Theorem make_selection_degenerate p f σ :
  (∀ g rows, heap σ !! p = Some (Arr2 g rows) →
     make_selection p f 0 σ
     = (Ok (fresh (dom (heap σ))),
        set_heap (<[fresh (dom (heap σ)):=Arr2 g []]> (heap σ)) σ))
  ∧ (∀ g rows k, heap σ !! p = Some (Arr2 g rows) → (k < 0)%Z →
       make_selection p f k σ = (Raise ValueError, σ))
  ∧ (∀ data k, heap σ !! p = Some (Arr1 data) →
       make_selection p f k σ = (Raise IndexError, σ)).
Proof.
  split_and!.
  - intros g rows Hp. unfold make_selection.
    rewrite (bind_ok _ _ _ _ _ (shape1_run _ _ _ _ Hp)).
    rewrite (bind_ok _ _ _ _ _ (np_empty_run 0 _ _ ltac:(done) (Nat2Z.is_nonneg g))).
    rewrite Nat2Z.id. reflexivity.
  - intros g rows k Hp Hk. unfold make_selection.
    rewrite (bind_ok _ _ _ _ _ (shape1_run _ _ _ _ Hp)).
    rewrite bind_run. unfold np_empty. simpl.
    rewrite decide_False by lia. reflexivity.
  - intros data k Hp. unfold make_selection, shape1.
    rewrite bind_run. by rewrite (bind_ok _ _ _ _ _ (load_run _ _ _ Hp)).
Qed.

(** Where the sentinel stands at index [i] and every other value is
    strictly below it, index [i] is the first maximum. *)
Lemma first_max_sentinel_slot fit i :
  fit !! i = Some sentinel →
  (∀ j y, fit !! j = Some y → j ≠ i → dleb sentinel y = false) →
  first_max fit = Some i.
Proof.
  intros Hi Hothers.
  destruct (first_max_spec fit) as (i' & x & Hi' & Hx & Hub & _).
  { intros ->. done. }
  destruct (decide (i' = i)) as [->|Hne]; [done|].
  specialize (Hub i _ Hi). specialize (Hothers i' x Hx Hne). congruence.
Qed.

Lemma chosen_constant fit n i :
  first_max fit = Some i →
  (∀ y, y ∈ fit → dleb sentinel y = false) →
  chosen n fit = replicate n i.
Proof.
  intros Hi Hlt.
  assert (∀ j y, fit !! j = Some y → j ≠ i → dleb sentinel y = false) as Hothers.
  { intros j y Hj _. apply Hlt. by eapply list_elem_of_lookup_2. }
  clear Hlt. revert fit Hi Hothers.
  induction n as [|n IH]; intros fit Hi Hothers; [done|].
  simpl. rewrite Hi. f_equal.
  pose proof (first_max_lt _ _ Hi) as Hlt.
  apply IH.
  - apply first_max_sentinel_slot.
    + by apply list_lookup_insert_eq.
    + intros j y Hj Hne. rewrite list_lookup_insert_ne in Hj by done. eauto.
  - intros j y Hj Hne. rewrite list_lookup_insert_ne in Hj by done. eauto.
Qed.

(** X5.  On a fitness vector whose values are all strictly below [2 ** 31],
    whatever the number of parents asked for, every parent returned is the
    same row: the candidate at the lowest index of maximal fitness. *)
Theorem make_selection_copies_best p f (k : Z) σ g rows fit :
  heap σ !! p = Some (Arr2 g rows) →
  heap σ !! f = Some (Arr1 fit) →
  Forall (λ r, length r = g) rows →
  length fit = length rows →
  fit ≠ [] →
  (0 ≤ k)%Z →
  (∀ y, y ∈ fit → dleb sentinel y = false) →
  ∃ i r s σ',
    lowest_max fit i
    ∧ rows !! i = Some r
    ∧ make_selection p f k σ = (Ok s, σ')
    ∧ heap σ' !! s = Some (Arr2 g (replicate (Z.to_nat k) r)).
Proof.
  intros Hp Hf Hrows Hlen Hne Hk Hbelow.
  destruct (first_max_spec fit Hne) as (i & x & Hi & Hx & Hub & Hlow).
  pose proof (first_max_lt _ _ Hi) as Hilt.
  destruct (lookup_lt_is_Some_2 rows i) as [r Hr]; [lia|].
  eexists i, r, _, _. split_and!.
  - by exists x.
  - done.
  - by eapply make_selection_run.
  - simpl. rewrite lookup_insert_ne by exact (fresh_ne _ _ _ Hf).
    rewrite lookup_insert_eq. rewrite (chosen_constant _ _ _ Hi Hbelow).
    rewrite fmap_replicate. by rewrite (list_lookup_total_correct _ _ _ Hr).
Qed.

End selection_more.

(** ** More on the crossover and the mutation *)

Section crossover_more.
Context {T : Type} `{DType T}.
Implicit Types (σ : state T) (rows orows : list (list T)).

Lemma crossover_point_lt t_size : crossover_point t_size < 256.
Proof.
  unfold crossover_point.
  pose proof (Z.mod_pos_bound (t_size.2 ÷ 2) 256 ltac:(lia)). lia.
Qed.

(** X6.  Where [np.uint8(g / 2)] returns (fewer than 512 genes, or any
    number of genes on NumPy 1, where the conversion wraps), an offspring
    never holds a gene value that its two parents do not hold in the same
    column: there is a cut [c], below 256, such that offspring [i] has the
    genes of parent [i mod K] before column [c] and the genes of parent
    [(i + 1) mod K] from column [c] on.  From column 255 on every gene comes
    from the second parent. *)
Theorem crossover_columns p (m g : nat) σ rows :
  heap σ !! p = Some (Arr2 g rows) →
  rows ≠ [] →
  Forall (λ r, length r = g) rows →
  g < 512 ∨ uint8_wraps (release σ) = true →
  ∃ l σ' orows c,
    crossover p (Z.of_nat m, Z.of_nat g) σ = (Ok l, σ')
    ∧ heap σ' !! l = Some (Arr2 g orows)
    ∧ length orows = m
    ∧ c < 256
    ∧ ∀ i orow, orows !! i = Some orow →
        length orow = g
        ∧ ∀ j, j < g →
            orow !! j
            = (rows !!! (if decide (j < c) then i `mod` length rows
                         else (i + 1) `mod` length rows)) !! j.
Proof.
  intros Hp Hne Hrows Hcut.
  destruct (crossover_result p m g σ rows Hp Hne Hrows Hcut) as (l & σ' & E & Hl).
  set (c := crossover_point (Z.of_nat m, Z.of_nat g)) in *.
  exists l, σ', (child rows c <$> seq 0 m), c. split_and!; [done..| | |].
  - by rewrite length_fmap, length_seq.
  - apply crossover_point_lt.
  - intros i orow Hi. apply list_lookup_fmap_Some in Hi as (i' & -> & Hi').
    apply lookup_seq in Hi' as [-> Him]. change (0 + i) with i.
    assert (length rows ≠ 0) as Hk by (by destruct rows).
    destruct (lookup_lt_is_Some_2 rows (i `mod` length rows)) as [r1 Hr1];
      [by apply Nat.mod_upper_bound|].
    destruct (lookup_lt_is_Some_2 rows ((i + 1) `mod` length rows)) as [r2 Hr2];
      [by apply Nat.mod_upper_bound|].
    pose proof (Forall_lookup_1 _ _ _ _ Hrows Hr1) as Hl1.
    pose proof (Forall_lookup_1 _ _ _ _ Hrows Hr2) as Hl2.
    simpl in Hl1, Hl2. unfold child.
    rewrite (list_lookup_total_correct _ _ _ Hr1).
    rewrite (list_lookup_total_correct _ _ _ Hr2).
    split.
    + rewrite length_app, length_take, length_drop. lia.
    + intros j Hj. case_decide as Hjc.
      * rewrite (list_lookup_total_correct _ _ _ Hr1).
        rewrite lookup_app_l by (rewrite length_take; lia).
        by rewrite lookup_take_lt.
      * rewrite (list_lookup_total_correct _ _ _ Hr2).
        rewrite lookup_app_r by (rewrite length_take; lia).
        rewrite length_take, lookup_drop. f_equal. lia.
Qed.

(** X7.  When all the parents are the same candidate, so is every
    offspring, wherever [np.uint8(g / 2)] returns (fewer than 512 genes, or
    NumPy 1). *)
Theorem crossover_of_clones p (m g k : nat) σ r :
  heap σ !! p = Some (Arr2 g (replicate k r)) →
  1 ≤ k →
  length r = g →
  g < 512 ∨ uint8_wraps (release σ) = true →
  ∃ l σ',
    crossover p (Z.of_nat m, Z.of_nat g) σ = (Ok l, σ')
    ∧ heap σ' !! l = Some (Arr2 g (replicate m r)).
Proof.
  intros Hp Hk Hr Hcut.
  destruct (crossover_result p m g σ (replicate k r) Hp) as (l & σ' & E & Hl).
  { destruct k; [lia|done]. }
  { by apply Forall_replicate. }
  { done. }
  exists l, σ'. split; [done|]. rewrite Hl. do 2 f_equal.
  apply list_eq_same_length with m.
  - by rewrite length_replicate.
  - by rewrite length_fmap, length_seq.
  - intros i x y Hi Hx Hy.
    apply lookup_replicate in Hy as [-> _].
    apply list_lookup_fmap_Some in Hx as (i' & -> & _).
    unfold child. rewrite length_replicate.
    rewrite !lookup_total_replicate_2 by (apply Nat.mod_upper_bound; lia).
    apply take_drop.
Qed.

(** Half the number of genes is within eight bits below 512 genes. *)
Lemma np_uint8_half (m : Z) (g : nat) σ :
  g < 512 ∨ uint8_wraps (release σ) = true →
  np_uint8 ((m, Z.of_nat g).2 ÷ 2) σ
  = (Ok ((Z.of_nat g ÷ 2) `mod` 256)%Z, σ).
Proof.
  intros Hcut. apply np_uint8_run; simpl snd.
  - apply Z.quot_pos; lia.
  - destruct Hcut as [?|?]; [left|by right].
    apply Z.quot_lt_upper_bound; lia.
Qed.

Lemma crossover_no_parents p (m g g' : nat) σ :
  heap σ !! p = Some (Arr2 g' []) →
  1 ≤ m →
  g < 512 ∨ uint8_wraps (release σ) = true →
  (crossover p (Z.of_nat m, Z.of_nat g) σ).1 = Raise ZeroDivisionError.
Proof.
  intros Hp Hm Hcut. unfold crossover.
  rewrite (bind_ok _ _ _ _ _
             (np_empty_run _ _ _ (Nat2Z.is_nonneg m) (Nat2Z.is_nonneg g))).
  erewrite bind_ok; [|apply np_uint8_half; exact Hcut].
  unfold for_range. simpl fst. rewrite Nat2Z.id.
  destruct m as [|m]; [lia|]. rewrite <- cons_seq. simpl for_each.
  rewrite bind_run, (bind_run (crossover_row _ _ _ _)).
  unfold crossover_row. erewrite bind_ok; last first.
  { eapply shape0_run. simpl. rewrite lookup_insert_ne; [exact Hp|].
    intros Heq. by rewrite <- Heq, fresh_lookup in Hp. }
  simpl length. rewrite bind_run. unfold py_mod at 1. simpl. reflexivity.
Qed.

Lemma crossover_negative p (t_size : Z * Z) σ :
  (t_size.1 < 0 ∨ t_size.2 < 0)%Z →
  crossover p t_size σ = (Raise ValueError, σ).
Proof.
  intros Hneg. unfold crossover. rewrite bind_run. unfold np_empty.
  rewrite decide_False by lia. reflexivity.
Qed.



(** X9.  [mutate] is all or nothing on a well-formed pool: when it raises,
    it does so on the first row, either with an index error, for want of a
    gene 4, or with a value error, on a release that refuses the
    one-element array of line 33 (NumPy 2.4 on); no array has changed, and
    one draw has been made. *)
Theorem mutate_all_or_nothing o σ g rows e :
  heap σ !! o = Some (Arr2 g rows) →
  Forall (λ r, length r = g) rows →
  (mutate o σ).1 = Raise e →
  (e = IndexError ∧ g ≤ 4
   ∨ e = ValueError ∧ 5 ≤ g ∧ assigns_one_element (release σ) = false)
  ∧ heap (mutate o σ).2 = heap σ
  ∧ rng_calls (mutate o σ).2 = rng_calls σ + 1.
Proof.
  intros Ho Hrows Hfail.
  destruct (decide (rows = [])) as [Hnil|Hne].
  { rewrite (mutate_run o σ g rows Ho Hrows) in Hfail; done. }
  destruct (decide (g ≤ 4)) as [Hg|Hg].
  - rewrite (mutate_oob_state o σ g rows Ho Hne Hg) in Hfail |- *.
    simpl in *. simplify_eq. split; [by left|done].
  - destruct (assigns_one_element (release σ)) eqn:Hnp.
    + rewrite (mutate_run o σ g rows Ho Hrows) in Hfail; [done|].
      intros _. split; [lia|done].
    + rewrite (mutate_refused_state o σ g rows Ho Hrows Hne) in Hfail |- *
        by (lia || done).
      simpl in *. simplify_eq. split; [right; split_and!; (done || lia)|done].
Qed.

End crossover_more.

(** ** More on the fitness evaluator and the first population *)

Section fitness_more.
Context {T : Type} `{DTypeOrder T}.
Implicit Types (σ : state T) (rows : list (list T)).

(** X10.  What [evaluate_fitness] does when the equation is not as long as the
    candidates.  It raises only when the two lengths differ and neither is
    one.  An equation of one coefficient is multiplied into every gene; a
    population of one gene has that gene multiplied by every coefficient. *)
Theorem evaluate_fitness_broadcasts (t_eq : list T) p σ g rows :
  heap σ !! p = Some (Arr2 g rows) →
  Forall (λ r, length r = g) rows →
  (length t_eq ≠ g → length t_eq ≠ 1 → g ≠ 1 →
     evaluate_fitness t_eq p σ = (Raise ValueError, σ))
  ∧ (∀ e, t_eq = [e] →
       evaluate_fitness t_eq p σ
       = (Ok (fresh (dom (heap σ))),
          set_heap (<[fresh (dom (heap σ)):=
                        Arr1 ((λ r, np_sum ((λ x, dmul x e) <$> r)) <$> rows)]>
                      (heap σ)) σ))
  ∧ (g = 1 → length t_eq ≠ 1 →
       evaluate_fitness t_eq p σ
       = (Ok (fresh (dom (heap σ))),
          set_heap (<[fresh (dom (heap σ)):=
                        Arr1 ((λ r, np_sum (r ≫= λ x, (dmul x) <$> t_eq)) <$> rows)]>
                      (heap σ)) σ)).
Proof.
  intros Hp Hrows. unfold evaluate_fitness.
  rewrite (bind_ok _ _ _ _ _ (load_run _ _ _ Hp)). cbv beta iota.
  unfold np_multiply. split_and!.
  - intros H1 H2 H3. rewrite decide_False by done.
    destruct t_eq as [|e [|e' t_eq]]; [|done|]; by rewrite decide_False by done.
  - intros e ->. destruct (decide (g = length [e])) as [->|Hg].
    + rewrite bind_run. unfold mret at 1, M_ret at 1. unfold alloc.
      do 4 f_equal. rewrite map_map. apply Forall_fmap_ext_1.
      eapply Forall_impl; [exact Hrows|]. intros r Hr. simpl in *.
      by destruct r as [|x [|??]].
    + rewrite bind_run. unfold mret at 1, M_ret at 1. unfold alloc.
      by rewrite map_map.
  - intros -> Hlen. rewrite decide_False by done.
    destruct t_eq as [|e [|e' t_eq]]; [|done|];
      rewrite decide_True by done;
      rewrite bind_run; unfold mret at 1, M_ret at 1; unfold alloc;
      by rewrite map_map.
Qed.

(** X11.  Evaluating twice gives two different vectors with the same contents,
    and the first one is still there. *)
Theorem evaluate_fitness_again (t_eq : list T) p σ l1 σ1 :
  evaluate_fitness t_eq p σ = (Ok l1, σ1) →
  ∃ l2 σ2,
    evaluate_fitness t_eq p σ1 = (Ok l2, σ2)
    ∧ l2 ≠ l1
    ∧ heap σ2 !! l2 = heap σ1 !! l1
    ∧ heap σ2 !! l1 = heap σ1 !! l1
    ∧ heap σ2 !! p = heap σ !! p.
Proof.
  intros Hrun. unfold evaluate_fitness in Hrun. rewrite bind_run in Hrun.
  unfold load in Hrun.
  destruct (heap σ !! p) as [[data|g rows]|] eqn:Hp; [done| |done].
  rewrite bind_run in Hrun.
  destruct (np_multiply g rows t_eq σ) as [[prod|e] σ0] eqn:Hmul; [|done].
  assert (σ0 = σ ∧ ∀ σ', np_multiply g rows t_eq σ' = (Ok prod, σ')) as [-> Hmul'].
  { unfold np_multiply in *.
    unfold mret, M_ret, raise in *.
    repeat (case_decide || case_match); by simplify_eq. }
  unfold alloc in Hrun. injection Hrun as <- <-.
  set (l1 := fresh (dom (heap σ))). set (h1 := <[l1:=Arr1 (map np_sum prod)]> (heap σ)).
  assert (p ≠ l1) as Hpl by (by eapply fresh_ne).
  assert (h1 !! p = Some (Arr2 g rows)) as Hp1
    by (unfold h1; by rewrite lookup_insert_ne).
  assert (h1 !! l1 = Some (Arr1 (map np_sum prod))) as Hl1
    by (unfold h1; by rewrite lookup_insert_eq).
  unfold evaluate_fitness.
  erewrite bind_ok; [|apply load_run; exact Hp1]. cbv beta iota.
  rewrite (bind_ok _ _ _ _ _ (Hmul' _)). unfold alloc. simpl heap.
  eexists _, _. split; [reflexivity|]. simpl.
  assert (fresh (dom h1) ≠ l1) as Hne.
  { intros Heq. apply (is_fresh (dom h1)). rewrite Heq.
    apply elem_of_dom. eauto. }
  assert (fresh (dom h1) ≠ p) as Hnp.
  { intros Heq. apply (is_fresh (dom h1)). rewrite Heq.
    apply elem_of_dom. eauto. }
  split_and!.
  - done.
  - by rewrite lookup_insert_eq.
  - by rewrite lookup_insert_ne.
  - by rewrite lookup_insert_ne.
Qed.

(** X12.  [make_initial_population] returns a new array of the shape asked for,
    whose gene [j] of candidate [i] is draw number [i * G + j] of the call,
    made for the bounds given and so within them; it uses [P * G] draws and
    changes no array that existed.  A negative dimension is refused. *)
Theorem make_initial_population_spec (t_size : Z * Z) (lo hi : T) σ :
  ((0 ≤ t_size.1)%Z → (0 ≤ t_size.2)%Z → dleb lo hi = true → rng_in_bounds σ →
     ∃ l σ' rows,
       make_initial_population t_size lo hi σ = (Ok l, σ')
       ∧ (l ∉ dom (heap σ))
       ∧ heap σ' !! l = Some (Arr2 (Z.to_nat t_size.2) rows)
       ∧ length rows = Z.to_nat t_size.1
       ∧ Forall (λ r, length r = Z.to_nat t_size.2) rows
       ∧ (∀ i j r x, rows !! i = Some r → r !! j = Some x →
            x = rng σ (rng_calls σ + (i * Z.to_nat t_size.2 + j)) lo hi
            ∧ dleb lo x = true ∧ dleb x hi = true)
       ∧ rng_calls σ' = rng_calls σ + Z.to_nat t_size.1 * Z.to_nat t_size.2
       ∧ (∀ a, a ∈ dom (heap σ) → heap σ' !! a = heap σ !! a))
  ∧ ((t_size.1 < 0 ∨ t_size.2 < 0)%Z →
       make_initial_population t_size lo hi σ = (Raise ValueError, σ)).
Proof.
  unfold make_initial_population. split.
  - intros HP HG Hlohi Hrng. rewrite decide_True by done.
    set (P := Z.to_nat t_size.1). set (g := Z.to_nat t_size.2).
    rewrite bind_run. unfold np_random_uniform at 1. unfold alloc.
    eexists _, _, _. split_and!.
    + reflexivity.
    + apply is_fresh.
    + simpl. by rewrite lookup_insert_eq.
    + by rewrite length_map, length_seq.
    + apply Forall_map, Forall_forall. intros i Hi%elem_of_seq. simpl.
      rewrite length_take, length_drop, length_map, length_seq. nia.
    + intros i j r x Hr Hx.
      change (map ?f ?l) with (f <$> l) in Hr.
      apply list_lookup_fmap_Some in Hr as (i' & -> & Hi').
      apply lookup_seq in Hi' as [-> Hi]. simpl in Hx.
      apply lookup_take_Some in Hx as [Hx Hj].
      rewrite lookup_drop in Hx.
      change (map ?f ?l) with (f <$> l) in Hx.
      apply list_lookup_fmap_Some in Hx as (n & -> & Hn).
      apply lookup_seq in Hn as [-> Hn]. simpl.
      split; [done|]. by apply Hrng.
    + done.
    + intros a Ha. simpl. rewrite lookup_insert_ne; [done|].
      intros <-. by apply (is_fresh (dom (heap σ))).
  - intros Hneg. rewrite decide_False by lia. reflexivity.
Qed.

End fitness_more.

(** ** More on the generational loop *)

Section generation_more.
Context {T : Type} `{DTypeOrder T}.
Implicit Types (σ : state T) (rows : list (list T)) (r : list T).

Lemma child_replicate k r c i : 1 ≤ k → child (replicate k r) c i = r.
Proof.
  intros Hk. unfold child. rewrite length_replicate.
  rewrite !lookup_total_replicate_2 by (apply Nat.mod_upper_bound; lia).
  apply take_drop.
Qed.

(** The fitness vector of a well-formed population, entry by entry. *)
Lemma fitness_lookup (t_eq : list T) rows j :
  Forall (λ r, length r = length t_eq) rows →
  ((λ r, np_sum (zip_with dmul r t_eq)) <$> rows) !! j
  = (λ r, dot (length t_eq) r t_eq) <$> rows !! j.
Proof.
  intros Hrows. rewrite list_lookup_fmap.
  destruct (rows !! j) as [r|] eqn:Hr; [|done]. simpl. f_equal.
  apply np_sum_dot. exact (Forall_lookup_1 _ _ _ _ Hrows Hr).
Qed.

(** The first parent selected is a candidate of maximal fitness. *)
Lemma first_parent_best (t_eq : list T) rows k :
  Forall (λ r, length r = length t_eq) rows →
  rows ≠ [] →
  let fit := (λ r, np_sum (zip_with dmul r t_eq)) <$> rows in
  ∃ i best,
    first_max fit = Some i
    ∧ rows !! i = Some best
    ∧ (∀ r, r ∈ rows →
         dleb (dot (length t_eq) r t_eq) (dot (length t_eq) best t_eq) = true)
    ∧ chosen (S k) fit = i :: chosen k (<[i:=sentinel]> fit).
Proof.
  intros Hrows Hne fit.
  assert (fit ≠ []) as Hfne by (unfold fit; by destruct rows).
  destruct (first_max_spec fit Hfne) as (i & x & Hi & Hx & Hub & _).
  unfold fit in Hx. rewrite fitness_lookup in Hx by done.
  destruct (rows !! i) as [best|] eqn:Hbest; [|done]. simpl in Hx.
  injection Hx as <-.
  exists i, best. split_and!; [done|done| |by simpl; rewrite Hi].
  intros r [j Hj]%list_elem_of_lookup.
  apply (Hub j). unfold fit. rewrite fitness_lookup by done. by rewrite Hj.
Qed.

Lemma generation_best_survives t_eq (k : nat) pop σ rows :
  let g := length t_eq in
  heap σ !! pop = Some (Arr2 g rows) →
  Forall (λ r, length r = g) rows →
  1 ≤ k ≤ length rows →
  (k < length rows → 5 ≤ g) →
  (k < length rows → assigns_one_element (release σ) = true) →
  g < 512 ∨ uint8_wraps (release σ) = true →
  ∃ σ' rows' best,
    generation t_eq (Z.of_nat g) (Z.of_nat (length rows), Z.of_nat g)
      (Z.of_nat k) pop σ = (Ok (), σ')
    ∧ heap σ' !! pop = Some (Arr2 g rows')
    ∧ length rows' = length rows
    ∧ Forall (λ r, length r = g) rows'
    ∧ best ∈ rows
    ∧ (∀ r, r ∈ rows → dleb (dot g r t_eq) (dot g best t_eq) = true)
    ∧ rows' !! 0 = Some best.
Proof.
  intros g Hpop Hrows Hk Hg Hnp Hcut.
  destruct (generation_run t_eq k pop σ rows Hpop Hrows Hk ltac:(lia) Hnp Hcut)
    as (σ1 & σ2 & σ3 & σ4 & σ' & l1 & l2 & l3
        & _ & _ & _ & _ & _ & _ & _ & E & Hpop' & _).
  assert (rows ≠ []) as Hne by (intros ->; simpl in Hk; lia).
  destruct k as [|k]; [lia|].
  destruct (first_parent_best t_eq rows k Hrows Hne)
    as (i & best & Hi & Hbest & Hmax & Hch).
  set (fit := (λ r, np_sum (zip_with dmul r t_eq)) <$> rows) in *.
  assert (length fit = length rows) as Hfit by (unfold fit; by rewrite length_fmap).
  assert (fit ≠ []) as Hfne by (unfold fit; by destruct rows).
  pose proof (chosen_rows_wf rows fit (S k) _ Hfit Hrows) as Hpwf.
  assert (length ((rows !!!.) <$> chosen (S k) fit) = S k) as Hprows
    by (by rewrite length_fmap, chosen_length).
  eexists σ', _, best. split_and!; [exact E|exact Hpop'| | | |exact Hmax|].
  - rewrite length_app, mutated_length, Hprows, length_fmap, length_seq. lia.
  - apply Forall_app. split; [done|]. apply mutated_wf.
    apply Forall_fmap, Forall_forall. intros n _. apply child_length; [|done].
    intros Hnil. by rewrite Hnil in Hprows.
  - by eapply list_elem_of_lookup_2.
  - rewrite Hch. simpl. by rewrite (list_lookup_total_correct _ _ _ Hbest).
Qed.

(** X13.  The selection is elitist.  On a release on which the generation
    can run (one that stores the one-element array of line 33 when there is
    an offspring to mutate, and on which [np.uint8(g / 2)] returns: fewer
    than 512 genes, or NumPy 1), a generation puts a candidate of maximal
    fitness of the population it started on, unchanged, in row 0 of the
    population it leaves; so the best fitness of the population does not go
    down from one generation to the next. *)
Theorem generation_elitist t_eq (k : nat) pop σ rows :
  let g := length t_eq in
  heap σ !! pop = Some (Arr2 g rows) →
  Forall (λ r, length r = g) rows →
  1 ≤ k ≤ length rows →
  (k < length rows → 5 ≤ g) →
  (k < length rows → assigns_one_element (release σ) = true) →
  g < 512 ∨ uint8_wraps (release σ) = true →
  ∃ σ' rows' best,
    generation t_eq (Z.of_nat g) (Z.of_nat (length rows), Z.of_nat g)
      (Z.of_nat k) pop σ = (Ok (), σ')
    ∧ heap σ' !! pop = Some (Arr2 g rows')
    ∧ best ∈ rows
    ∧ (∀ r, r ∈ rows → dleb (dot g r t_eq) (dot g best t_eq) = true)
    ∧ rows' !! 0 = Some best.
Proof.
  intros g Hpop Hrows Hk Hg Hnp Hcut.
  destruct (generation_best_survives t_eq k pop σ rows Hpop Hrows Hk Hg Hnp Hcut)
    as (σ' & rows' & best & E & Hpop' & _ & _ & Hin & Hmax & H0').
  by exists σ', rows', best.
Qed.

(** X14.  Over any number of generations the best fitness is never lost, on
    a release on which a generation can run (as for X13): the loop
    completes, and the population it ends with holds, for every candidate
    of the population it started with, a candidate at least as fit. *)
Theorem best_fitness_never_lost t_eq (k P : nat) pop (generations : Z) σ rows :
  let g := length t_eq in
  heap σ !! pop = Some (Arr2 g rows) →
  Forall (λ r, length r = g) rows →
  length rows = P →
  1 ≤ k ≤ P →
  (k < P → 5 ≤ g) →
  (k < P → assigns_one_element (release σ) = true) →
  g < 512 ∨ uint8_wraps (release σ) = true →
  ∃ σ' rows',
    for_range generations
      (λ gen, generation t_eq (Z.of_nat g) (Z.of_nat P, Z.of_nat g)
                (Z.of_nat k) pop) σ
    = (Ok (), σ')
    ∧ heap σ' !! pop = Some (Arr2 g rows')
    ∧ length rows' = P
    ∧ ∀ r, r ∈ rows →
        ∃ b, b ∈ rows' ∧ dleb (dot g r t_eq) (dot g b t_eq) = true.
Proof.
  intros g Hpop Hrows HP Hk Hg Hnp Hcut. unfold for_range.
  generalize 0 as a. revert σ rows Hpop Hrows HP Hnp Hcut.
  induction (Z.to_nat generations) as [|n IH];
    intros σ rows Hpop Hrows HP Hnp Hcut a.
  - exists σ, rows. split_and!; [done..|].
    intros r Hr. exists r. split; [done|apply dleb_refl].
  - simpl. subst P.
    destruct (generation_best_survives t_eq k pop σ rows Hpop Hrows Hk Hg Hnp Hcut)
      as (σ1 & rows1 & best & E & Hpop1 & Hlen1 & Hwf1 & Hin & Hmax & H01).
    rewrite (bind_ok _ _ _ _ _ E).
    pose proof (keeps_release_generation t_eq (Z.of_nat (length t_eq))
                  (Z.of_nat (length rows), Z.of_nat (length t_eq)) (Z.of_nat k)
                  pop σ) as Hrel.
    rewrite E in Hrel. simpl in Hrel. rewrite <- Hrel in Hnp, Hcut.
    destruct (IH σ1 rows1 Hpop1 Hwf1 Hlen1 Hnp Hcut (S a))
      as (σ' & rows' & E' & Hpop' & Hlen' & Hbest').
    exists σ', rows'. split_and!; [done..|].
    intros r Hr.
    destruct (Hbest' best) as (b & Hb & Hle); [by eapply list_elem_of_lookup_2|].
    exists b. split; [done|]. eapply dleb_trans; [by apply Hmax|exact Hle].
Qed.

(** X15.  When every fitness value is strictly below [2 ** 31], one
    generation, on a release on which it can run (as for X13), makes the
    whole population a copy of one best candidate: rows [0..K-1] are that
    candidate, and every other row is that candidate but for gene 4. *)
Theorem generation_collapse t_eq (k : nat) pop σ rows :
  let g := length t_eq in
  heap σ !! pop = Some (Arr2 g rows) →
  Forall (λ r, length r = g) rows →
  1 ≤ k ≤ length rows →
  (k < length rows → 5 ≤ g) →
  (k < length rows → assigns_one_element (release σ) = true) →
  g < 512 ∨ uint8_wraps (release σ) = true →
  (∀ r, r ∈ rows → dleb sentinel (dot g r t_eq) = false) →
  ∃ σ' rows' best,
    generation t_eq (Z.of_nat g) (Z.of_nat (length rows), Z.of_nat g)
      (Z.of_nat k) pop σ = (Ok (), σ')
    ∧ heap σ' !! pop = Some (Arr2 g rows')
    ∧ length rows' = length rows
    ∧ best ∈ rows
    ∧ (∀ r, r ∈ rows → dleb (dot g r t_eq) (dot g best t_eq) = true)
    ∧ ∀ n r, rows' !! n = Some r →
        (n < k → r = best) ∧ (∀ j, j ≠ 4 → r !! j = best !! j).
Proof.
  intros g Hpop Hrows Hk Hg Hnp Hcut Hbelow.
  destruct (generation_run t_eq k pop σ rows Hpop Hrows Hk ltac:(lia) Hnp Hcut)
    as (σ1 & σ2 & σ3 & σ4 & σ' & l1 & l2 & l3
        & _ & _ & _ & _ & _ & _ & _ & E & Hpop' & _).
  assert (rows ≠ []) as Hne by (intros ->; simpl in Hk; lia).
  destruct (first_parent_best t_eq rows 0 Hrows Hne)
    as (i & best & Hi & Hbest & Hmax & _).
  set (fit := (λ r, np_sum (zip_with dmul r t_eq)) <$> rows) in *.
  assert (chosen k fit = replicate k i) as Hch.
  { apply chosen_constant; [done|]. intros y [j Hj]%list_elem_of_lookup.
    unfold fit in Hj. rewrite fitness_lookup in Hj by done.
    destruct (rows !! j) as [r|] eqn:Hr; [|done]. injection Hj as <-.
    apply Hbelow. by eapply list_elem_of_lookup_2. }
  rewrite Hch, fmap_replicate, (list_lookup_total_correct _ _ _ Hbest) in Hpop'.
  erewrite (list_fmap_ext _ (λ _, best)) in Hpop'; last first.
  { intros n m _. apply child_replicate. lia. }
  eexists σ', _, best. split_and!; [exact E|exact Hpop'| | |exact Hmax|].
  - rewrite length_app, length_replicate, mutated_length, length_fmap, length_seq.
    lia.
  - by eapply list_elem_of_lookup_2.
  - intros n r Hn. apply lookup_app_Some in Hn as [Hn|[Hlen Hn]].
    + apply lookup_replicate in Hn as [-> _]. done.
    + rewrite length_replicate in Hlen. split; [lia|].
      rewrite mutated_lookup in Hn. rewrite list_lookup_fmap in Hn.
      destruct (seq 0 (length rows - k) !! (n - length (replicate k best)));
        [|done].
      simpl in Hn. injection Hn as <-.
      intros j Hj. by apply list_lookup_insert_ne.
Qed.

(** X16.  A generation that runs (on a release as for X13) makes exactly
    one draw per offspring, [P - K] in all, and leaves the generator
    otherwise as it was. *)
Theorem generation_draws t_eq (k : nat) pop σ rows :
  let g := length t_eq in
  heap σ !! pop = Some (Arr2 g rows) →
  Forall (λ r, length r = g) rows →
  1 ≤ k ≤ length rows →
  (k < length rows → 5 ≤ g) →
  (k < length rows → assigns_one_element (release σ) = true) →
  g < 512 ∨ uint8_wraps (release σ) = true →
  ∃ σ',
    generation t_eq (Z.of_nat g) (Z.of_nat (length rows), Z.of_nat g)
      (Z.of_nat k) pop σ = (Ok (), σ')
    ∧ rng_calls σ' = rng_calls σ + (length rows - k)
    ∧ rng σ' = rng σ
    ∧ uninit σ' = uninit σ.
Proof.
  intros g Hpop Hrows Hk Hg Hnp Hcut.
  destruct (generation_run t_eq k pop σ rows Hpop Hrows Hk ltac:(lia) Hnp Hcut)
    as (σ1 & σ2 & σ3 & σ4 & σ' & l1 & l2 & l3
        & E1 & E2 & Hpar & E3 & Hoff & E4 & Hmut & E & _).
  exists σ'. split; [exact E|].
  destruct (keeps_generator_evaluate_fitness t_eq pop σ) as (C1 & R1 & U1).
  rewrite E1 in C1, R1, U1. simpl in C1, R1, U1.
  destruct (keeps_generator_make_selection pop l1 (Z.of_nat k) σ1) as (C2 & R2 & U2).
  rewrite E2 in C2, R2, U2. simpl in C2, R2, U2.
  match type of E3 with crossover ?p ?sz _ = _ =>
    destruct (keeps_generator_crossover p sz σ2) as (C3 & R3 & U3) end.
  rewrite E3 in C3, R3, U3. simpl in C3, R3, U3.
  set (fit := (λ r, np_sum (zip_with dmul r t_eq)) <$> rows) in *.
  set (prows := (rows !!!.) <$> chosen k fit) in *.
  set (orows := child prows _ <$> seq 0 (length rows - k)) in *.
  assert (length fit = length rows) as Hfit by (unfold fit; by rewrite length_fmap).
  assert (fit ≠ []) as Hfne
    by (intros Hnil; rewrite Hnil in Hfit; simpl in Hfit; lia).
  assert (length prows = k) as Hprows
    by (unfold prows; by rewrite length_fmap, chosen_length).
  assert (prows ≠ []) as Hpne
    by (intros Hnil; rewrite Hnil in Hprows; simpl in Hprows; lia).
  pose proof (chosen_rows_wf rows fit k _ Hfit Hrows) as Hpwf. fold prows in Hpwf.
  assert (length orows = length rows - k) as Horows
    by (unfold orows; by rewrite length_fmap, length_seq).
  assert (Forall (λ r, length r = g) orows) as Howf.
  { unfold orows. apply Forall_fmap, Forall_forall. intros i _.
    by apply child_length. }
  pose proof (mutate_run l3 σ3 g orows Hoff Howf) as E4'.
  rewrite E4 in E4'.
  assert (release σ3 = release σ) as Hrel.
  { pose proof (keeps_release_evaluate_fitness t_eq pop σ) as L1.
    pose proof (keeps_release_make_selection pop l1 (Z.of_nat k) σ1) as L2.
    match type of E3 with crossover ?p ?sz _ = _ =>
      pose proof (keeps_release_crossover p sz σ2) as L3 end.
    rewrite E1 in L1. rewrite E2 in L2. rewrite E3 in L3. simpl in L1, L2, L3.
    congruence. }
  assert (orows ≠ [] → 4 < g ∧ assigns_one_element (release σ3) = true) as Hg'.
  { intros Hone. rewrite Hrel.
    assert (k < length rows) by (destruct orows; [done|]; simpl in Horows; lia).
    split; [|by apply Hnp]. specialize (Hg ltac:(done)). lia. }
  specialize (E4' Hg'). injection E4' as E4'.
  (* the two block assignments *)
  unfold generation in E.
  rewrite (bind_ok _ _ _ _ _ E1), (bind_ok _ _ _ _ _ E2) in E.
  rewrite (bind_ok _ _ _ _ _ (shape0_run _ _ _ _ Hpar)) in E.
  simpl fst in E. rewrite Hprows in E.
  rewrite (bind_ok _ _ _ _ _ E3), (bind_ok _ _ _ _ _ E4) in E.
  match type of E with ?tail σ4 = _ =>
    assert (keeps_generator tail) as Htail end.
  { repeat first
      [ apply keeps_generator_shape0
      | apply keeps_generator_setitem_rows
      | apply keeps_generator_bind; [|intros ?] ]. }
  destruct (Htail σ4) as (C5 & R5 & U5).
  rewrite E in C5, R5, U5. simpl in C5, R5, U5.
  rewrite C5, R5, U5, E4'. simpl.
  rewrite C3, R3, U3, C2, R2, U2, C1, R1, U1. split_and!; [lia|done|done].
Qed.

End generation_more.

(** ** The loop on a configuration it cannot run *)

Section bad_configuration.
Context {T : Type} `{DTypeOrder T}.
Implicit Types (σ : state T) (rows : list (list T)) (r : list T).

(** The first two steps of a generation, for any number of parents. *)
Lemma generation_prefix t_eq (k : nat) pop σ rows :
  let g := length t_eq in
  let fit := (λ r, np_sum (zip_with dmul r t_eq)) <$> rows in
  let prows := (rows !!!.) <$> chosen k fit in
  heap σ !! pop = Some (Arr2 g rows) →
  Forall (λ r, length r = g) rows →
  rows ≠ [] →
  ∃ σ1 σ2 fitness parents,
    evaluate_fitness t_eq pop σ = (Ok fitness, σ1)
    ∧ make_selection pop fitness (Z.of_nat k) σ1 = (Ok parents, σ2)
    ∧ heap σ2 !! pop = Some (Arr2 g rows)
    ∧ heap σ2 !! parents = Some (Arr2 g prows)
    ∧ length prows = k
    ∧ Forall (λ r, length r = g) prows
    ∧ rng_calls σ2 = rng_calls σ
    ∧ release σ2 = release σ.
Proof.
  intros g fit prows Hpop Hrows Hne.
  assert (length fit = length rows) as Hfit by (unfold fit; by rewrite length_fmap).
  assert (fit ≠ []) as Hfne by (unfold fit; by destruct rows).
  pose proof (evaluate_fitness_run t_eq pop σ rows Hpop) as E1.
  set (l1 := fresh (dom (heap σ))) in E1. fold fit in E1.
  set (σ1 := set_heap _ σ) in E1.
  assert (pop ≠ l1) as Hp1 by (by eapply fresh_ne).
  assert (heap σ1 !! pop = Some (Arr2 g rows)) as Hpop1
    by (simpl; by rewrite lookup_insert_ne).
  assert (heap σ1 !! l1 = Some (Arr1 fit)) as Hfit1
    by (simpl; by rewrite lookup_insert_eq).
  pose proof (make_selection_run pop l1 (Z.of_nat k) σ1 g rows fit
                Hpop1 Hfit1 Hrows Hfit Hfne (Nat2Z.is_nonneg k)) as E2.
  rewrite Nat2Z.id in E2. fold prows in E2.
  set (l2 := fresh (dom (heap σ1))) in E2.
  set (σ2 := set_heap _ σ1) in E2.
  assert (pop ≠ l2) as Hp2 by (by eapply fresh_ne).
  assert (l1 ≠ l2) as H12 by (by eapply fresh_ne).
  exists σ1, σ2, l1, l2. split_and!; [done|done| | | | |done|done].
  - simpl. by rewrite !lookup_insert_ne.
  - simpl. rewrite lookup_insert_ne by done. by rewrite lookup_insert_eq.
  - unfold prows. by rewrite length_fmap, chosen_length.
  - by apply chosen_rows_wf.
Qed.

(** X17.  More parents than candidates: the selection returns its [K] parents,
    and the generation then fails on the negative number of offspring,
    [np.empty] raising a value error, with the population as it was. *)
Theorem generation_too_many_parents t_eq (k : nat) pop σ rows :
  let g := length t_eq in
  heap σ !! pop = Some (Arr2 g rows) →
  Forall (λ r, length r = g) rows →
  rows ≠ [] →
  length rows < k →
  (generation t_eq (Z.of_nat g) (Z.of_nat (length rows), Z.of_nat g)
     (Z.of_nat k) pop σ).1 = Raise ValueError
  ∧ heap (generation t_eq (Z.of_nat g) (Z.of_nat (length rows), Z.of_nat g)
            (Z.of_nat k) pop σ).2 !! pop = Some (Arr2 g rows).
Proof.
  intros g Hpop Hrows Hne Hk.
  destruct (generation_prefix t_eq k pop σ rows Hpop Hrows Hne)
    as (σ1 & σ2 & l1 & l2 & E1 & E2 & Hpop2 & Hpar & Hlen & _).
  unfold generation.
  rewrite (bind_ok _ _ _ _ _ E1), (bind_ok _ _ _ _ _ E2).
  rewrite (bind_ok _ _ _ _ _ (shape0_run _ _ _ _ Hpar)). rewrite Hlen.
  rewrite (bind_raise _ _ _ ValueError σ2); [done|].
  apply crossover_negative. simpl. lia.
Qed.

(** X18.  No parent at all: where [np.uint8(g / 2)] returns (fewer than 512
    genes, or NumPy 1), the generation fails in [crossover], on [i % 0],
    with the population as it was.  (Where the conversion raises, it does
    so first, before [i % 0] is reached.) *)
Theorem generation_no_parents t_eq pop σ rows :
  let g := length t_eq in
  heap σ !! pop = Some (Arr2 g rows) →
  Forall (λ r, length r = g) rows →
  rows ≠ [] →
  g < 512 ∨ uint8_wraps (release σ) = true →
  (generation t_eq (Z.of_nat g) (Z.of_nat (length rows), Z.of_nat g) 0 pop σ).1
  = Raise ZeroDivisionError
  ∧ heap (generation t_eq (Z.of_nat g) (Z.of_nat (length rows), Z.of_nat g)
            0 pop σ).2 !! pop = Some (Arr2 g rows).
Proof.
  intros g Hpop Hrows Hne Hcut.
  destruct (generation_prefix t_eq 0 pop σ rows Hpop Hrows Hne)
    as (σ1 & σ2 & l1 & l2 & E1 & E2 & Hpop2 & Hpar & Hlen & _ & _ & Hrel).
  simpl in Hpar, E2. rewrite <- Hrel in Hcut.
  unfold generation.
  rewrite (bind_ok _ _ _ _ _ E1), (bind_ok _ _ _ _ _ E2).
  rewrite (bind_ok _ _ _ _ _ (shape0_run _ _ _ _ Hpar)). simpl length.
  rewrite Z.sub_0_r. simpl fst.
  pose proof (crossover_no_parents l2 (length rows) g g σ2 Hpar) as Hfail.
  assert (1 ≤ length rows) as HP by (destruct rows; [done|simpl; lia]).
  specialize (Hfail HP Hcut).
  pose proof (crossover_frame l2 (Z.of_nat (length rows), Z.of_nat g) σ2 pop) as Hfr.
  rewrite bind_run.
  destruct (crossover l2 (Z.of_nat (length rows), Z.of_nat g) σ2) as [[l3|e] σ3];
    simpl in *; [done|].
  injection Hfail as ->. split; [done|].
  rewrite Hfr; [done|]. apply elem_of_dom. eauto.
Qed.

(** X19.  Fewer than five genes and an offspring to mutate: the generation fails
    in [mutate] with an index error, with the population as it was. *)
Theorem generation_too_few_genes t_eq (k : nat) pop σ rows :
  let g := length t_eq in
  heap σ !! pop = Some (Arr2 g rows) →
  Forall (λ r, length r = g) rows →
  1 ≤ k < length rows →
  g ≤ 4 →
  (generation t_eq (Z.of_nat g) (Z.of_nat (length rows), Z.of_nat g)
     (Z.of_nat k) pop σ).1 = Raise IndexError
  ∧ heap (generation t_eq (Z.of_nat g) (Z.of_nat (length rows), Z.of_nat g)
            (Z.of_nat k) pop σ).2 !! pop = Some (Arr2 g rows).
Proof.
  intros g Hpop Hrows Hk Hg.
  assert (rows ≠ []) as Hne by (intros ->; simpl in Hk; lia).
  destruct (generation_prefix t_eq k pop σ rows Hpop Hrows Hne)
    as (σ1 & σ2 & l1 & l2 & E1 & E2 & Hpop2 & Hpar & Hlen & Hpwf & _).
  set (prows := (rows !!!.) <$> chosen k _) in *.
  assert (prows ≠ []) as Hpne
    by (intros Hnil; rewrite Hnil in Hlen; simpl in Hlen; lia).
  assert (heap σ2 !! l2 = Some (Arr2 (Z.to_nat (Z.of_nat g)) prows)) as Hpar'
    by (by rewrite Nat2Z.id).
  pose proof (crossover_run l2 (Z.of_nat (length rows) - Z.of_nat k) (Z.of_nat g)
                σ2 prows Hpar' Hpne) as E3.
  rewrite Nat2Z.id in E3.
  specialize (E3 Hpwf ltac:(lia) ltac:(lia) ltac:(left; lia)).
  replace (Z.to_nat (Z.of_nat (length rows) - Z.of_nat k)) with (length rows - k)
    in E3 by lia.
  set (l3 := fresh (dom (heap σ2))) in E3.
  set (orows := _ <$> seq 0 (length rows - k)) in E3.
  set (σ3 := set_heap _ σ2) in E3.
  assert (pop ≠ l3) as Hp3 by (by eapply fresh_ne).
  assert (heap σ3 !! l3 = Some (Arr2 g orows)) as Hoff3
    by (simpl; by rewrite lookup_insert_eq).
  assert (orows ≠ []) as Hone.
  { intros Hnil. apply (f_equal length) in Hnil. unfold orows in Hnil.
    rewrite length_fmap, length_seq in Hnil. simpl in Hnil. lia. }
  pose proof (mutate_oob_state l3 σ3 g orows Hoff3 Hone Hg) as E4.
  unfold generation.
  rewrite (bind_ok _ _ _ _ _ E1), (bind_ok _ _ _ _ _ E2).
  rewrite (bind_ok _ _ _ _ _ (shape0_run _ _ _ _ Hpar)). rewrite Hlen.
  simpl fst. rewrite (bind_ok _ _ _ _ _ E3).
  rewrite (bind_raise _ _ _ _ _ E4). simpl.
  split; [done|]. by rewrite lookup_insert_ne.
Qed.


(** The generation up to the mutation, when there is an offspring to
    mutate and at least five genes, on a release that refuses the
    one-element array. *)
Lemma generation_refused t_eq (k : nat) pop σ rows :
  let g := length t_eq in
  heap σ !! pop = Some (Arr2 g rows) →
  Forall (λ r, length r = g) rows →
  1 ≤ k < length rows →
  5 ≤ g < 512 →
  assigns_one_element (release σ) = false →
  ∃ σ',
    generation t_eq (Z.of_nat g) (Z.of_nat (length rows), Z.of_nat g)
      (Z.of_nat k) pop σ = (Raise ValueError, σ')
    ∧ heap σ' !! pop = Some (Arr2 g rows)
    ∧ rng_calls σ' = rng_calls σ + 1.
Proof.
  intros g Hpop Hrows Hk Hg Hnp.
  assert (rows ≠ []) as Hne by (intros ->; simpl in Hk; lia).
  destruct (generation_prefix t_eq k pop σ rows Hpop Hrows Hne)
    as (σ1 & σ2 & l1 & l2 & E1 & E2 & Hpop2 & Hpar & Hlen & Hpwf & Hcalls & Hrel).
  set (prows := (rows !!!.) <$> chosen k _) in *.
  assert (prows ≠ []) as Hpne
    by (intros Hnil; rewrite Hnil in Hlen; simpl in Hlen; lia).
  assert (heap σ2 !! l2 = Some (Arr2 (Z.to_nat (Z.of_nat g)) prows)) as Hpar'
    by (by rewrite Nat2Z.id).
  pose proof (crossover_run l2 (Z.of_nat (length rows) - Z.of_nat k) (Z.of_nat g)
                σ2 prows Hpar' Hpne) as E3.
  rewrite Nat2Z.id in E3.
  specialize (E3 Hpwf ltac:(lia) ltac:(lia) ltac:(left; lia)).
  replace (Z.to_nat (Z.of_nat (length rows) - Z.of_nat k)) with (length rows - k)
    in E3 by lia.
  set (l3 := fresh (dom (heap σ2))) in E3.
  set (orows := _ <$> seq 0 (length rows - k)) in E3.
  set (σ3 := set_heap _ σ2) in E3.
  assert (pop ≠ l3) as Hp3 by (by eapply fresh_ne).
  assert (heap σ3 !! l3 = Some (Arr2 g orows)) as Hoff3
    by (simpl; by rewrite lookup_insert_eq).
  assert (orows ≠ []) as Hone.
  { intros Hnil. apply (f_equal length) in Hnil. unfold orows in Hnil.
    rewrite length_fmap, length_seq in Hnil. simpl in Hnil. lia. }
  assert (Forall (λ r, length r = g) orows) as Howf.
  { unfold orows. apply Forall_fmap, Forall_forall. intros i _.
    by apply child_length. }
  assert (assigns_one_element (release σ3) = false) as Hnp3
    by (simpl; by rewrite Hrel).
  pose proof (mutate_refused_state l3 σ3 g orows Hoff3 Howf Hone ltac:(lia) Hnp3)
    as E4.
  eexists. split_and!.
  - unfold generation.
    rewrite (bind_ok _ _ _ _ _ E1), (bind_ok _ _ _ _ _ E2).
    rewrite (bind_ok _ _ _ _ _ (shape0_run _ _ _ _ Hpar)). rewrite Hlen.
    simpl fst. rewrite (bind_ok _ _ _ _ _ E3).
    exact (bind_raise _ _ _ _ _ E4).
  - simpl. by rewrite lookup_insert_ne.
  - simpl. by rewrite Hcalls.
Qed.

(** X24.  On a release that refuses the one-element array of line 33 (NumPy
    2.4 on), a generation with an offspring to mutate and a gene 4 fails in
    [mutate] with a value error, after one draw and with the population as
    it was. *)
Theorem generation_assignment_refused t_eq (k : nat) pop σ rows :
  let g := length t_eq in
  heap σ !! pop = Some (Arr2 g rows) →
  Forall (λ r, length r = g) rows →
  1 ≤ k < length rows →
  5 ≤ g < 512 →
  assigns_one_element (release σ) = false →
  (generation t_eq (Z.of_nat g) (Z.of_nat (length rows), Z.of_nat g)
     (Z.of_nat k) pop σ).1 = Raise ValueError
  ∧ heap (generation t_eq (Z.of_nat g) (Z.of_nat (length rows), Z.of_nat g)
            (Z.of_nat k) pop σ).2 !! pop = Some (Arr2 g rows)
  ∧ rng_calls (generation t_eq (Z.of_nat g) (Z.of_nat (length rows), Z.of_nat g)
                 (Z.of_nat k) pop σ).2 = rng_calls σ + 1.
Proof.
  intros g Hpop Hrows Hk Hg Hnp.
  destruct (generation_refused t_eq k pop σ rows Hpop Hrows Hk Hg Hnp)
    as (σ' & E & Hpop' & Hcalls).
  fold g in E. by rewrite E.
Qed.

End bad_configuration.

(** ** The report and the whole program *)

Section report_claims.
Context {T : Type} `{DTypeOrder T}.
Implicit Types (σ : state T) (rows : list (list T)) (r : list T).

Lemma elem_of_where_eq (m : T) data : ∀ i j,
  j ∈ where_eq m i data
  ↔ ∃ x, i ≤ j ∧ data !! (j - i) = Some x ∧ deqb x m = true.
Proof.
  induction data as [|y data IH]; intros i j; simpl.
  - split; [by intros ?%elem_of_nil|by intros (x & _ & ? & _)].
  - destruct (deqb y m) eqn:Hy.
    + rewrite elem_of_cons, IH. split.
      * intros [->|(x & Hle & Hx & Hxm)].
        -- exists y. rewrite Nat.sub_diag. done.
        -- exists x. split; [lia|]. split; [|done].
           replace (j - i) with (S (j - S i)) by lia. done.
      * intros (x & Hle & Hx & Hxm).
        destruct (decide (j = i)) as [->|Hne]; [by left|right].
        exists x. split; [lia|]. split; [|done].
        replace (j - i) with (S (j - S i)) in Hx by lia. done.
    + rewrite IH. split.
      * intros (x & Hle & Hx & Hxm). exists x. split; [lia|]. split; [|done].
        replace (j - i) with (S (j - S i)) by lia. done.
      * intros (x & Hle & Hx & Hxm).
        destruct (decide (j = i)) as [->|Hne].
        -- rewrite Nat.sub_diag in Hx. simpl in Hx. congruence.
        -- exists x. split; [lia|]. split; [|done].
           replace (j - i) with (S (j - S i)) in Hx by lia. done.
Qed.

Lemma where_eq_sorted (m : T) data : ∀ i, StronglySorted lt (where_eq m i data).
Proof.
  induction data as [|y data IH]; intros i; simpl; [constructor|].
  destruct (deqb y m); [|apply IH].
  constructor; [apply IH|]. apply Forall_forall. intros j Hj.
  apply elem_of_where_eq in Hj as (_ & Hle & _). lia.
Qed.

Lemma mapM_lookup_fmap {A B} (f : A → B) (l : list A) (k : list B)
    (idx : list nat) : ∀ picked : list A,
  (∀ i, k !! i = f <$> l !! i) →
  mapM (l !!.) idx = Some picked →
  mapM (k !!.) idx = Some (f <$> picked).
Proof.
  induction idx as [|i idx IH]; intros picked Hk; simpl.
  - by intros [= <-].
  - rewrite Hk. destruct (l !! i) as [x|]; [|done]. simpl.
    destruct (mapM (l !!.) idx) as [rest|] eqn:Hrest; [|done]. simpl.
    intros [= <-]. by rewrite (IH rest Hk eq_refl).
Qed.

Lemma np_where_eq_run a (m : T) σ data :
  heap σ !! a = Some (Arr1 data) →
  np_where_eq a m σ = (Ok (where_eq m 0 data), σ).
Proof.
  intros Ha. unfold np_where_eq. by rewrite (bind_ok _ _ _ _ _ (load_run _ _ _ Ha)).
Qed.

Lemma getitem_rows_at_run a idx σ g rows picked :
  heap σ !! a = Some (Arr2 g rows) →
  mapM (rows !!.) idx = Some picked →
  getitem_rows_at a idx σ = (Ok picked, σ).
Proof.
  intros Ha Hpicked. unfold getitem_rows_at.
  rewrite (bind_ok _ _ _ _ _ (load_run _ _ _ Ha)). by rewrite Hpicked.
Qed.

Lemma getitem1_at_run a idx σ (data picked : list T) :
  heap σ !! a = Some (Arr1 data) →
  mapM (data !!.) idx = Some picked →
  getitem1_at a idx σ = (Ok picked, σ).
Proof.
  intros Ha Hpicked. unfold getitem1_at.
  rewrite (bind_ok _ _ _ _ _ (load_run _ _ _ Ha)). by rewrite Hpicked.
Qed.

(** The report on a well-formed population that has a row. *)
Lemma report_run (t_eq : list T) p σ rows :
  let g := length t_eq in
  heap σ !! p = Some (Arr2 g rows) →
  Forall (λ r, length r = g) rows →
  rows ≠ [] →
  ∃ idx sols σ',
    report t_eq p σ = (Ok (sols, (λ r, dot g r t_eq) <$> sols), σ')
    ∧ idx ≠ []
    ∧ StronglySorted lt idx
    ∧ Forall2 (λ i r, rows !! i = Some r) idx sols
    ∧ (∀ i, i ∈ idx ↔
         ∃ r, rows !! i = Some r
              ∧ ∀ r', r' ∈ rows → dleb (dot g r' t_eq) (dot g r t_eq) = true)
    ∧ heap σ' !! p = Some (Arr2 g rows).
Proof.
  intros g Hp Hrows Hne.
  pose proof (evaluate_fitness_run t_eq p σ rows Hp) as E1.
  set (fit := (λ r, np_sum (zip_with dmul r t_eq)) <$> rows) in *.
  set (l1 := fresh (dom (heap σ))) in E1.
  set (σ1 := set_heap _ σ) in E1.
  assert (p ≠ l1) as Hp1 by (by eapply fresh_ne).
  assert (heap σ1 !! p = Some (Arr2 g rows)) as Hpop1
    by (simpl; by rewrite lookup_insert_ne).
  assert (heap σ1 !! l1 = Some (Arr1 fit)) as Hfit1
    by (simpl; by rewrite lookup_insert_eq).
  assert (length fit = length rows) as Hlen by (unfold fit; by rewrite length_fmap).
  destruct fit as [|x0 l] eqn:Hfit; [by destruct rows|].
  set (m := list_max x0 l).
  set (idx := where_eq m 0 (x0 :: l)).
  assert (∀ y, y ∈ x0 :: l → dleb y m = true) as Hub.
  { intros y [->|Hy]%elem_of_cons; [apply list_max_ge_init|by apply list_max_ge]. }
  assert (∀ i, (x0 :: l) !! i = (λ r, dot g r t_eq) <$> rows !! i) as Hfl.
  { intros i. rewrite <- Hfit. unfold fit. by rewrite fitness_lookup. }
  assert (∀ i, i ∈ idx → i < length rows) as Hidx.
  { intros i (x & _ & Hx & _)%elem_of_where_eq. rewrite Nat.sub_0_r in Hx.
    rewrite <- Hlen. by eapply lookup_lt_Some. }
  destruct (mapM (rows !!.) idx) as [sols|] eqn:Hsols; last first.
  { exfalso. apply mapM_None_1, Exists_exists in Hsols as (i & Hi & Hnone).
    apply Hidx in Hi. apply lookup_ge_None in Hnone. lia. }
  pose proof (mapM_lookup_fmap _ rows (x0 :: l) idx sols Hfl Hsols) as Hscores.
  exists idx, sols, σ1. split_and!.
  - unfold report. rewrite (bind_ok _ _ _ _ _ E1).
    rewrite (bind_ok _ _ _ _ _ (np_max_run _ _ (x0 :: l) _ _ Hfit1)).
    rewrite (bind_ok _ _ _ _ _ (np_where_eq_run _ _ _ _ Hfit1)).
    fold m. fold idx.
    rewrite (bind_ok _ _ _ _ _ (getitem_rows_at_run _ _ _ _ _ _ Hpop1 Hsols)).
    rewrite (bind_ok _ _ _ _ _ (getitem1_at_run _ _ _ _ _ Hfit1 Hscores)).
    reflexivity.
  - pose proof (list_max_elem l x0) as [i0 Hi0]%list_elem_of_lookup. fold m in Hi0.
    intros Hnil. assert (i0 ∈ idx) as Hin; [|rewrite Hnil in Hin; by apply elem_of_nil in Hin].
    apply elem_of_where_eq. exists m. rewrite Nat.sub_0_r.
    split; [lia|]. split; [done|apply deqb_refl].
  - apply where_eq_sorted.
  - by apply mapM_Some_1.
  - intros i. unfold idx. rewrite elem_of_where_eq. split.
    + intros (x & _ & Hx & Hxm). rewrite Nat.sub_0_r, Hfl in Hx.
      destruct (rows !! i) as [r|] eqn:Hr; [|done]. injection Hx as <-.
      exists r. split; [done|]. intros r' [j Hj]%list_elem_of_lookup.
      rewrite deqb_leb in Hxm. apply andb_true_iff in Hxm as [_ Hmx].
      eapply dleb_trans; [|exact Hmx]. apply Hub.
      apply list_elem_of_lookup. exists j. by rewrite Hfl, Hj.
    + intros (r & Hr & Hmax). exists (dot g r t_eq). rewrite Nat.sub_0_r.
      split; [lia|]. split; [by rewrite Hfl, Hr|].
      rewrite deqb_leb. apply andb_true_iff. split.
      * apply Hub. apply list_elem_of_lookup. exists i. by rewrite Hfl, Hr.
      * pose proof (list_max_elem l x0) as [j Hj]%list_elem_of_lookup.
        fold m in Hj. rewrite Hfl in Hj.
        destruct (rows !! j) as [r'|] eqn:Hr'; [|done]. injection Hj as <-.
        apply Hmax. by eapply list_elem_of_lookup_2.
  - done.
Qed.

(** X20.  The report names exactly the candidates of maximal fitness: it lists,
    by increasing index and with their fitness, the candidates that no
    candidate beats, and at least one; the population is not changed. *)
Theorem report_lists_best (t_eq : list T) p σ rows :
  let g := length t_eq in
  heap σ !! p = Some (Arr2 g rows) →
  Forall (λ r, length r = g) rows →
  rows ≠ [] →
  ∃ idx sols σ',
    report t_eq p σ = (Ok (sols, (λ r, dot g r t_eq) <$> sols), σ')
    ∧ idx ≠ []
    ∧ StronglySorted lt idx
    ∧ Forall2 (λ i r, rows !! i = Some r) idx sols
    ∧ (∀ i, i ∈ idx ↔
         ∃ r, rows !! i = Some r
              ∧ ∀ r', r' ∈ rows → dleb (dot g r' t_eq) (dot g r t_eq) = true)
    ∧ heap σ' !! p = Some (Arr2 g rows).
Proof. apply report_run. Qed.

(** X21.  The whole program runs to the end on a release on which a
    generation can run (one that stores the one-element array of line 33
    when there is an offspring to mutate, and on which [np.uint8(g / 2)]
    returns: fewer than 512 genes, or NumPy 1): for a population of [P]
    candidates of as many genes as the equation has coefficients,
    [1 ≤ K ≤ P] parents (and at least five genes when there is an
    offspring), whatever the generator returns and however many generations
    are asked for, no call raises, and the report names at least one
    solution, of the length of the equation, with its fitness. *)
Theorem main_completes t_eq (k P : nat) (generations : Z) σ :
  let g := length t_eq in
  1 ≤ k ≤ P →
  (k < P → 5 ≤ g) →
  (k < P → assigns_one_element (release σ) = true) →
  g < 512 ∨ uint8_wraps (release σ) = true →
  ∃ sols scores σ',
    main t_eq (Z.of_nat g) (Z.of_nat P) (Z.of_nat k) generations σ
    = (Ok (sols, scores), σ')
    ∧ sols ≠ []
    ∧ Forall (λ r, length r = g) sols
    ∧ scores = (λ r, dot g r t_eq) <$> sols.
Proof.
  intros g Hk Hg Hnp Hcut. unfold main.
  destruct (main_loop_shape t_eq k P generations σ Hk Hg Hnp Hcut)
    as (pop & σ0 & rows & E0 & Hpop & HP & Hrows).
  rewrite (bind_ok _ _ _ _ _ E0).
  assert (rows ≠ []) as Hne by (intros ->; simpl in HP; lia).
  destruct (report_run t_eq pop σ0 rows Hpop Hrows Hne)
    as (idx & sols & σ' & E & Hidx & _ & Hsols & _).
  eexists sols, _, σ'. split_and!; [exact E| | |done].
  - intros ->. apply Forall2_length in Hsols. by destruct idx.
  - apply Forall_forall. intros r [n Hn]%list_elem_of_lookup.
    destruct (Forall2_lookup_r _ _ _ _ _ Hsols Hn) as (i & _ & Hi).
    exact (Forall_lookup_1 _ _ _ _ Hrows Hi).
Qed.

(** X25.  On a release that refuses the one-element array of line 33 (NumPy
    2.4 on), the program as configured in [__main__] does not get through
    its first generation: with fewer parents than candidates, a gene 4 and
    at least one generation asked for, it ends with the value error of
    [mutate] and reports nothing. *)
Theorem main_assignment_refused t_eq (k P : nat) (generations : Z) σ :
  let g := length t_eq in
  1 ≤ k < P →
  5 ≤ g < 512 →
  (1 ≤ generations)%Z →
  assigns_one_element (release σ) = false →
  (main t_eq (Z.of_nat g) (Z.of_nat P) (Z.of_nat k) generations σ).1
  = Raise ValueError.
Proof.
  intros g Hk Hg Hgen Hnp. unfold main, main_loop.
  destruct (make_initial_population_run P (length t_eq) (of_int (-4)) (of_int 4) σ)
    as (pop & σ0 & rows & E0 & Hpop & HP & Hrows).
  pose proof (keeps_release_make_initial_population
                (Z.of_nat P, Z.of_nat (length t_eq)) (of_int (-4)) (of_int 4) σ)
    as Hrel.
  rewrite E0 in Hrel. simpl in Hrel. rewrite <- Hrel in Hnp.
  subst P.
  destruct (generation_refused t_eq k pop σ0 rows Hpop Hrows Hk Hg Hnp)
    as (σ' & E & _).
  rewrite bind_run. rewrite (bind_ok _ _ _ _ _ E0).
  unfold for_range.
  destruct (Z.to_nat generations) as [|n] eqn:Hn; [lia|].
  rewrite <- cons_seq. simpl for_each.
  rewrite (bind_raise _ _ _ _ _ (bind_raise _ _ _ _ _ E)). reflexivity.
Qed.

End report_claims.

(** ** The further properties at concrete inputs *)

Lemma make_selection_frame_witness :
  0 ∈ dom (heap (st0 selection_heap))
  ∧ heap (make_selection 0 1 2 (st0 selection_heap)).2 !! 0
    = heap (st0 selection_heap) !! 0
  ∧ ∀ s, (make_selection 0 1 2 (st0 selection_heap)).1 = Ok s →
         s ∉ dom (heap (st0 selection_heap)).
Proof.
  assert (0 ∈ dom (heap (st0 selection_heap))) as Hdom
    by (apply elem_of_dom; eexists; reflexivity).
  split; [exact Hdom|].
  apply (make_selection_frame 0 1 2 (st0 selection_heap) 0); [exact Hdom|lia].
Defined.

Lemma make_selection_fitness_after_witness :
  heap (st0 selection_heap) !! 1 = Some (Arr1 [3; 7; 1; 7]%Z)
  ∧ ∃ s σ' picked fit',
      make_selection 0 1 2 (st0 selection_heap) = (Ok s, σ')
      ∧ heap σ' !! s = Some (Arr2 2 ((selection_rows !!!.) <$> picked))
      ∧ heap σ' !! 1 = Some (Arr1 fit')
      ∧ length fit' = length [3; 7; 1; 7]%Z
      ∧ (∀ j, j ∈ picked →
           j < length [3; 7; 1; 7]%Z ∧ fit' !! j = Some sentinel)
      ∧ (∀ j, j ∉ picked → fit' !! j = [3; 7; 1; 7]%Z !! j).
Proof.
  split; [reflexivity|].
  apply (make_selection_fitness_after 0 1 2 (st0 selection_heap) 2 selection_rows
           [3; 7; 1; 7]%Z);
    [reflexivity|reflexivity|repeat constructor|reflexivity|discriminate|lia].
Defined.

Lemma make_selection_degenerate_witness :
  heap (st0 selection_heap) !! 0 = Some (Arr2 2 selection_rows)
  ∧ make_selection 0 1 0 (st0 selection_heap)
    = (Ok (fresh (dom (heap (st0 selection_heap)))),
       set_heap (<[fresh (dom (heap (st0 selection_heap))):=Arr2 2 []]>
                   (heap (st0 selection_heap))) (st0 selection_heap))
  ∧ make_selection 0 1 (-1) (st0 selection_heap)
    = (Raise ValueError, st0 selection_heap)
  ∧ make_selection 0 1 2 (st0 vector_heap) = (Raise IndexError, st0 vector_heap).
Proof.
  split; [reflexivity|]. split_and!.
  - apply (proj1 (make_selection_degenerate 0 1 (st0 selection_heap))
             2 selection_rows). reflexivity.
  - apply (proj1 (proj2 (make_selection_degenerate 0 1 (st0 selection_heap)))
             2 selection_rows (-1)%Z); [reflexivity|lia].
  - apply (proj2 (proj2 (make_selection_degenerate 0 1 (st0 vector_heap)))
             [1; 2; 3]%Z 2%Z). reflexivity.
Defined.

Lemma make_selection_copies_best_witness :
  (∀ y, y ∈ [3; 7; 1; 7]%Z → dleb sentinel y = false)
  ∧ ∃ i r s σ',
      lowest_max [3; 7; 1; 7]%Z i
      ∧ selection_rows !! i = Some r
      ∧ make_selection 0 1 6 (st0 selection_heap) = (Ok s, σ')
      ∧ heap σ' !! s = Some (Arr2 2 (replicate (Z.to_nat 6) r)).
Proof.
  assert (∀ y, y ∈ [3; 7; 1; 7]%Z → dleb sentinel y = false) as Hbelow.
  { intros y Hy.
    repeat (apply elem_of_cons in Hy as [->|Hy]; [reflexivity|]).
    by apply elem_of_nil in Hy. }
  split; [exact Hbelow|].
  apply (make_selection_copies_best 0 1 6 (st0 selection_heap) 2 selection_rows
           [3; 7; 1; 7]%Z);
    [reflexivity|reflexivity|repeat constructor|reflexivity|discriminate|lia
    |exact Hbelow].
Defined.

Lemma crossover_columns_witness :
  heap (st0 selection_heap) !! 0 = Some (Arr2 2 selection_rows)
  ∧ ∃ l σ' orows c,
      crossover 0 (Z.of_nat 3, Z.of_nat 2) (st0 selection_heap) = (Ok l, σ')
      ∧ heap σ' !! l = Some (Arr2 2 orows)
      ∧ length orows = 3
      ∧ c < 256
      ∧ ∀ i orow, orows !! i = Some orow →
          length orow = 2
          ∧ ∀ j, j < 2 →
              orow !! j
              = (selection_rows !!! (if decide (j < c)
                                     then i `mod` length selection_rows
                                     else (i + 1) `mod` length selection_rows)) !! j.
Proof.
  split; [reflexivity|].
  apply (crossover_columns 0 3 2 (st0 selection_heap) selection_rows);
    [reflexivity|discriminate|repeat constructor|left; lia].
Defined.

Lemma crossover_of_clones_witness :
  heap (st0 clone_heap) !! 0 = Some (Arr2 3 (replicate 2 [5; 6; 7]%Z))
  ∧ ∃ l σ',
      crossover 0 (Z.of_nat 4, Z.of_nat 3) (st0 clone_heap) = (Ok l, σ')
      ∧ heap σ' !! l = Some (Arr2 3 (replicate 4 [5; 6; 7]%Z)).
Proof.
  split; [reflexivity|].
  apply (crossover_of_clones 0 4 3 2 (st0 clone_heap) [5; 6; 7]%Z);
    [reflexivity|lia|reflexivity|left; lia].
Defined.


Lemma mutate_all_or_nothing_witness :
  (mutate 0 (on_release NumPy_2_4 (st0 offspring_heap))).1 = Raise ValueError
  ∧ (ValueError = IndexError ∧ 6 ≤ 4
     ∨ ValueError = ValueError ∧ 5 ≤ 6
       ∧ assigns_one_element (release (on_release NumPy_2_4 (st0 offspring_heap)))
         = false)
  ∧ heap (mutate 0 (on_release NumPy_2_4 (st0 offspring_heap))).2
    = heap (on_release NumPy_2_4 (st0 offspring_heap))
  ∧ rng_calls (mutate 0 (on_release NumPy_2_4 (st0 offspring_heap))).2
    = rng_calls (on_release NumPy_2_4 (st0 offspring_heap)) + 1.
Proof.
  split; [reflexivity|].
  apply (mutate_all_or_nothing 0 (on_release NumPy_2_4 (st0 offspring_heap)) 6
           offspring_rows ValueError);
    [reflexivity|repeat constructor|reflexivity].
Defined.

Lemma evaluate_fitness_broadcasts_witness :
  heap (st0 selection_heap) !! 0 = Some (Arr2 2 selection_rows)
  ∧ evaluate_fitness [1; 2; 3]%Z 0 (st0 selection_heap)
    = (Raise ValueError, st0 selection_heap)
  ∧ evaluate_fitness [5]%Z 0 (st0 selection_heap)
    = (Ok (fresh (dom (heap (st0 selection_heap)))),
       set_heap (<[fresh (dom (heap (st0 selection_heap))):=
                     Arr1 ((λ r, np_sum ((λ x, dmul x 5%Z) <$> r))
                             <$> selection_rows)]>
                   (heap (st0 selection_heap))) (st0 selection_heap)).
Proof.
  split; [reflexivity|].
  assert (Forall (λ r : list Z, length r = 2) selection_rows) as Hwf
    by repeat constructor.
  split.
  - apply (proj1 (evaluate_fitness_broadcasts [1; 2; 3]%Z 0 (st0 selection_heap)
                    2 selection_rows eq_refl Hwf)); simpl; lia.
  - apply (proj1 (proj2 (evaluate_fitness_broadcasts [5]%Z 0 (st0 selection_heap)
                           2 selection_rows eq_refl Hwf)) 5%Z).
    reflexivity.
Defined.

Lemma evaluate_fitness_again_witness :
  evaluate_fitness [1; 0]%Z 0 (st0 candidates_heap)
  = (Ok 1, (evaluate_fitness [1; 0]%Z 0 (st0 candidates_heap)).2)
  ∧ ∃ l2 σ2,
      evaluate_fitness [1; 0]%Z 0
        (evaluate_fitness [1; 0]%Z 0 (st0 candidates_heap)).2 = (Ok l2, σ2)
      ∧ l2 ≠ 1
      ∧ heap σ2 !! l2
        = heap (evaluate_fitness [1; 0]%Z 0 (st0 candidates_heap)).2 !! 1
      ∧ heap σ2 !! 1
        = heap (evaluate_fitness [1; 0]%Z 0 (st0 candidates_heap)).2 !! 1
      ∧ heap σ2 !! 0 = heap (st0 candidates_heap) !! 0.
Proof.
  split; [reflexivity|].
  apply (evaluate_fitness_again [1; 0]%Z 0 (st0 candidates_heap) 1). reflexivity.
Defined.

Lemma make_initial_population_spec_witness :
  rng_in_bounds (st0 ∅)
  ∧ ∃ l σ' rows,
      make_initial_population (2, 3)%Z (-4)%Z 4%Z (st0 ∅) = (Ok l, σ')
      ∧ (l ∉ dom (heap (st0 ∅)))
      ∧ heap σ' !! l = Some (Arr2 (Z.to_nat 3) rows)
      ∧ length rows = Z.to_nat 2
      ∧ Forall (λ r, length r = Z.to_nat 3) rows
      ∧ (∀ i j r x, rows !! i = Some r → r !! j = Some x →
           x = rng (st0 ∅) (rng_calls (st0 ∅) + (i * Z.to_nat 3 + j)) (-4)%Z 4%Z
           ∧ dleb (-4)%Z x = true ∧ dleb x 4%Z = true)
      ∧ rng_calls σ' = rng_calls (st0 ∅) + Z.to_nat 2 * Z.to_nat 3
      ∧ (∀ a, a ∈ dom (heap (st0 ∅)) → heap σ' !! a = heap (st0 ∅) !! a).
Proof.
  assert (rng_in_bounds (st0 ∅)) as Hrng.
  { intros k lo hi Hle. simpl. split; [apply Z.leb_refl|exact Hle]. }
  split; [exact Hrng|].
  apply (proj1 (make_initial_population_spec (2, 3)%Z (-4)%Z 4%Z (st0 ∅)));
    [simpl; lia|simpl; lia|reflexivity|exact Hrng].
Defined.

Lemma generation_elitist_witness :
  heap (st0 demo_heap) !! 0 = Some (Arr2 (length demo_eq) demo_rows)
  ∧ ∃ σ' rows' best,
      generation demo_eq (Z.of_nat (length demo_eq))
        (Z.of_nat (length demo_rows), Z.of_nat (length demo_eq))
        (Z.of_nat 2) 0 (st0 demo_heap) = (Ok (), σ')
      ∧ heap σ' !! 0 = Some (Arr2 (length demo_eq) rows')
      ∧ best ∈ demo_rows
      ∧ (∀ r, r ∈ demo_rows →
           dleb (dot (length demo_eq) r demo_eq)
                (dot (length demo_eq) best demo_eq) = true)
      ∧ rows' !! 0 = Some best.
Proof.
  split; [reflexivity|].
  apply (generation_elitist demo_eq 2 0 (st0 demo_heap) demo_rows);
    [reflexivity|repeat constructor|simpl; lia|simpl; lia|reflexivity
    |left; simpl; lia].
Defined.

Lemma best_fitness_never_lost_witness :
  heap (st0 demo_heap) !! 0 = Some (Arr2 (length demo_eq) demo_rows)
  ∧ ∃ σ' rows',
      for_range 20
        (λ gen, generation demo_eq (Z.of_nat (length demo_eq))
                  (Z.of_nat 3, Z.of_nat (length demo_eq)) (Z.of_nat 2) 0)
        (st0 demo_heap)
      = (Ok (), σ')
      ∧ heap σ' !! 0 = Some (Arr2 (length demo_eq) rows')
      ∧ length rows' = 3
      ∧ ∀ r, r ∈ demo_rows →
          ∃ b, b ∈ rows'
               ∧ dleb (dot (length demo_eq) r demo_eq)
                      (dot (length demo_eq) b demo_eq) = true.
Proof.
  split; [reflexivity|].
  apply (best_fitness_never_lost demo_eq 2 3 0 20 (st0 demo_heap) demo_rows);
    [reflexivity|repeat constructor|reflexivity|lia|simpl; lia|reflexivity
    |left; simpl; lia].
Defined.

Lemma generation_collapse_witness :
  (∀ r, r ∈ demo_rows → dleb sentinel (dot (length demo_eq) r demo_eq) = false)
  ∧ ∃ σ' rows' best,
      generation demo_eq (Z.of_nat (length demo_eq))
        (Z.of_nat (length demo_rows), Z.of_nat (length demo_eq))
        (Z.of_nat 2) 0 (st0 demo_heap) = (Ok (), σ')
      ∧ heap σ' !! 0 = Some (Arr2 (length demo_eq) rows')
      ∧ length rows' = length demo_rows
      ∧ best ∈ demo_rows
      ∧ (∀ r, r ∈ demo_rows →
           dleb (dot (length demo_eq) r demo_eq)
                (dot (length demo_eq) best demo_eq) = true)
      ∧ ∀ n r, rows' !! n = Some r →
          (n < 2 → r = best) ∧ (∀ j, j ≠ 4 → r !! j = best !! j).
Proof.
  assert (∀ r, r ∈ demo_rows →
            dleb sentinel (dot (length demo_eq) r demo_eq) = false) as Hbelow.
  { intros r Hr.
    repeat (apply elem_of_cons in Hr as [->|Hr]; [reflexivity|]).
    by apply elem_of_nil in Hr. }
  split; [exact Hbelow|].
  apply (generation_collapse demo_eq 2 0 (st0 demo_heap) demo_rows);
    [reflexivity|repeat constructor|simpl; lia|simpl; lia|reflexivity
    |left; simpl; lia|exact Hbelow].
Defined.

Lemma generation_draws_witness :
  heap (st0 demo_heap) !! 0 = Some (Arr2 (length demo_eq) demo_rows)
  ∧ ∃ σ',
      generation demo_eq (Z.of_nat (length demo_eq))
        (Z.of_nat (length demo_rows), Z.of_nat (length demo_eq))
        (Z.of_nat 1) 0 (st0 demo_heap) = (Ok (), σ')
      ∧ rng_calls σ' = rng_calls (st0 demo_heap) + (length demo_rows - 1)
      ∧ rng σ' = rng (st0 demo_heap)
      ∧ uninit σ' = uninit (st0 demo_heap).
Proof.
  split; [reflexivity|].
  apply (generation_draws demo_eq 1 0 (st0 demo_heap) demo_rows);
    [reflexivity|repeat constructor|simpl; lia|simpl; lia|reflexivity
    |left; simpl; lia].
Defined.

Lemma generation_too_many_parents_witness :
  length demo_rows < 5
  ∧ (generation demo_eq (Z.of_nat (length demo_eq))
       (Z.of_nat (length demo_rows), Z.of_nat (length demo_eq))
       (Z.of_nat 5) 0 (st0 demo_heap)).1 = Raise ValueError
  ∧ heap (generation demo_eq (Z.of_nat (length demo_eq))
            (Z.of_nat (length demo_rows), Z.of_nat (length demo_eq))
            (Z.of_nat 5) 0 (st0 demo_heap)).2 !! 0
    = Some (Arr2 (length demo_eq) demo_rows).
Proof.
  split; [simpl; lia|].
  apply (generation_too_many_parents demo_eq 5 0 (st0 demo_heap) demo_rows);
    [reflexivity|repeat constructor|discriminate|simpl; lia].
Defined.

Lemma generation_no_parents_witness :
  heap (st0 demo_heap) !! 0 = Some (Arr2 (length demo_eq) demo_rows)
  ∧ (generation demo_eq (Z.of_nat (length demo_eq))
       (Z.of_nat (length demo_rows), Z.of_nat (length demo_eq))
       0 0 (st0 demo_heap)).1 = Raise ZeroDivisionError
  ∧ heap (generation demo_eq (Z.of_nat (length demo_eq))
            (Z.of_nat (length demo_rows), Z.of_nat (length demo_eq))
            0 0 (st0 demo_heap)).2 !! 0
    = Some (Arr2 (length demo_eq) demo_rows).
Proof.
  split; [reflexivity|].
  apply (generation_no_parents demo_eq 0 (st0 demo_heap) demo_rows);
    [reflexivity|repeat constructor|discriminate|left; simpl; lia].
Defined.

Lemma generation_too_few_genes_witness :
  length [1; 0]%Z ≤ 4
  ∧ (generation [1; 0]%Z (Z.of_nat (length [1; 0]%Z))
       (Z.of_nat (length selection_rows), Z.of_nat (length [1; 0]%Z))
       (Z.of_nat 2) 0 (st0 candidates_heap)).1 = Raise IndexError
  ∧ heap (generation [1; 0]%Z (Z.of_nat (length [1; 0]%Z))
            (Z.of_nat (length selection_rows), Z.of_nat (length [1; 0]%Z))
            (Z.of_nat 2) 0 (st0 candidates_heap)).2 !! 0
    = Some (Arr2 (length [1; 0]%Z) selection_rows).
Proof.
  split; [simpl; lia|].
  apply (generation_too_few_genes [1; 0]%Z 2 0 (st0 candidates_heap)
           selection_rows);
    [reflexivity|repeat constructor|simpl; lia|simpl; lia].
Defined.

Lemma report_lists_best_witness :
  heap (st0 candidates_heap) !! 0 = Some (Arr2 (length [1; 0]%Z) selection_rows)
  ∧ ∃ idx sols σ',
      report [1; 0]%Z 0 (st0 candidates_heap)
      = (Ok (sols, (λ r, dot (length [1; 0]%Z) r [1; 0]%Z) <$> sols), σ')
      ∧ idx ≠ []
      ∧ StronglySorted lt idx
      ∧ Forall2 (λ i r, selection_rows !! i = Some r) idx sols
      ∧ (∀ i, i ∈ idx ↔
           ∃ r, selection_rows !! i = Some r
                ∧ ∀ r', r' ∈ selection_rows →
                    dleb (dot (length [1; 0]%Z) r' [1; 0]%Z)
                         (dot (length [1; 0]%Z) r [1; 0]%Z) = true)
      ∧ heap σ' !! 0 = Some (Arr2 (length [1; 0]%Z) selection_rows).
Proof.
  split; [reflexivity|].
  apply (report_lists_best [1; 0]%Z 0 (st0 candidates_heap) selection_rows);
    [reflexivity|repeat constructor|discriminate].
Defined.

Lemma main_completes_witness :
  assigns_one_element (release (on_release NumPy_2 (st0 ∅))) = true
  ∧ ∃ sols scores σ',
      main demo_eq (Z.of_nat (length demo_eq)) (Z.of_nat 8) (Z.of_nat 4) 20
        (on_release NumPy_2 (st0 ∅))
      = (Ok (sols, scores), σ')
      ∧ sols ≠ []
      ∧ Forall (λ r, length r = length demo_eq) sols
      ∧ scores = (λ r, dot (length demo_eq) r demo_eq) <$> sols.
Proof.
  split; [reflexivity|].
  apply (main_completes demo_eq 4 8 20 (on_release NumPy_2 (st0 ∅)));
    [lia|simpl; lia|reflexivity|left; simpl; lia].
Defined.


Lemma generation_assignment_refused_witness :
  assigns_one_element (release (on_release NumPy_2_4 (st0 demo_heap))) = false
  ∧ (generation demo_eq (Z.of_nat (length demo_eq))
       (Z.of_nat (length demo_rows), Z.of_nat (length demo_eq))
       (Z.of_nat 2) 0 (on_release NumPy_2_4 (st0 demo_heap))).1
    = Raise ValueError
  ∧ heap (generation demo_eq (Z.of_nat (length demo_eq))
            (Z.of_nat (length demo_rows), Z.of_nat (length demo_eq))
            (Z.of_nat 2) 0 (on_release NumPy_2_4 (st0 demo_heap))).2 !! 0
    = Some (Arr2 (length demo_eq) demo_rows)
  ∧ rng_calls (generation demo_eq (Z.of_nat (length demo_eq))
                 (Z.of_nat (length demo_rows), Z.of_nat (length demo_eq))
                 (Z.of_nat 2) 0 (on_release NumPy_2_4 (st0 demo_heap))).2
    = rng_calls (on_release NumPy_2_4 (st0 demo_heap)) + 1.
Proof.
  split; [reflexivity|].
  apply (generation_assignment_refused demo_eq 2 0
           (on_release NumPy_2_4 (st0 demo_heap)) demo_rows);
    [reflexivity|repeat constructor|simpl; lia|simpl; lia|reflexivity].
Defined.

Lemma main_assignment_refused_witness :
  assigns_one_element (release (on_release NumPy_2_4 (st0 ∅))) = false
  ∧ (main demo_eq (Z.of_nat (length demo_eq)) (Z.of_nat 8) (Z.of_nat 4) 20
       (on_release NumPy_2_4 (st0 ∅))).1
    = Raise ValueError.
Proof.
  split; [reflexivity|].
  apply (main_assignment_refused demo_eq 4 8 20 (on_release NumPy_2_4 (st0 ∅)));
    [lia|simpl; lia|lia|reflexivity].
Defined.
